(** * Progressive POI loader and filter engine of the map component

    A shallow embedding of the loader and filter code of
    [src/lib/components/Map.svelte] (with the progress formula of
    [LoadingScreen.svelte] and the keyword test of the legacy script), and
    the properties of the specification checked against it.

    Conventions of the embedding:
    - a JavaScript string is the list of its UTF-16 code units;
    - a JavaScript number holding a count is a [Z]; the one place where
      fractional numbers occur, [Math.floor((len / total) * 100)], is
      evaluated with binary64 rounding written out over [Q] (module [F64]);
    - the component's [let] variables form the record [Component]; the
      MapLibre map object is the record [MapObj] it owns;
    - code that can throw runs in the state-and-exception monad [M]. *)

From Stdlib Require Import ZArith NArith QArith Qround Qpower Lia Lqa List Bool String Ascii.
From stdpp Require Import base option list gmap strings.

Local Open Scope Z_scope.

(** ** JavaScript strings *)

Abbreviation jsstring := (list N).

Fixpoint bytes_of_string (s : string) : list N :=
  match s with
  | EmptyString => []
  | String c s' => N_of_ascii c :: bytes_of_string s'
  end.

(** UTF-8 bytes of a literal of this file to UTF-16 code units. *)
Fixpoint utf16_of_utf8 (bs : list N) : jsstring :=
  match bs with
  | [] => []
  | b0 :: r0 =>
    if (b0 <? 0x80)%N then b0 :: utf16_of_utf8 r0
    else match r0 with
    | [] => [0xFFFD%N]
    | b1 :: r1 =>
      if (b0 <? 0xE0)%N
      then ((b0 - 0xC0) * 64 + (b1 - 0x80))%N :: utf16_of_utf8 r1
      else match r1 with
      | [] => [0xFFFD%N]
      | b2 :: r2 =>
        if (b0 <? 0xF0)%N
        then ((b0 - 0xE0) * 4096 + (b1 - 0x80) * 64 + (b2 - 0x80))%N
               :: utf16_of_utf8 r2
        else match r2 with
        | [] => [0xFFFD%N]
        | b3 :: r3 =>
          let v := ((b0 - 0xF0) * 262144 + (b1 - 0x80) * 4096
                    + (b2 - 0x80) * 64 + (b3 - 0x80) - 0x10000)%N in
          (0xD800 + v / 1024)%N :: (0xDC00 + v mod 1024)%N :: utf16_of_utf8 r3
        end
      end
    end
  end.

Definition js (s : string) : jsstring := utf16_of_utf8 (bytes_of_string s).

(** [WhiteSpace] and [LineTerminator] of ECMAScript, the code units that
    [String.prototype.trim] strips. *)
Definition isWhiteSpace (c : N) : bool :=
  ((c =? 0x9) || (c =? 0xA) || (c =? 0xB) || (c =? 0xC) || (c =? 0xD)
   || (c =? 0x20) || (c =? 0xA0) || (c =? 0x1680)
   || ((0x2000 <=? c) && (c <=? 0x200A))
   || (c =? 0x2028) || (c =? 0x2029) || (c =? 0x202F) || (c =? 0x205F)
   || (c =? 0x3000) || (c =? 0xFEFF))%N.

Fixpoint trimStart (s : jsstring) : jsstring :=
  match s with
  | [] => []
  | c :: s' => if isWhiteSpace c then trimStart s' else s
  end.

Definition trimEnd (s : jsstring) : jsstring := rev (trimStart (rev s)).

(** [String.prototype.trim] *)
Definition trim (s : jsstring) : jsstring := trimEnd (trimStart s).

Fixpoint startsWith (s p : jsstring) {struct p} : bool :=
  match p, s with
  | [], _ => true
  | _ :: _, [] => false
  | a :: p', b :: s' => (a =? b)%N && startsWith s' p'
  end.

(** [String.prototype.includes] *)
Fixpoint includes (s p : jsstring) : bool :=
  startsWith s p ||
  match s with
  | [] => false
  | _ :: s' => includes s' p
  end.

(** [s.length] *)
Definition len {A} (l : list A) : Z := Z.of_nat (length l).

(** [Array.prototype.some] *)
Definition some {A} (f : A -> bool) (l : list A) : bool := existsb f l.

(** The action of [String.prototype.toLowerCase] on the ASCII letters; the
    instance at which the definitions below are evaluated. *)
Definition ascii_toLowerCase (s : jsstring) : jsstring :=
  map (fun c => if ((0x41 <=? c) && (c <=? 0x5A))%N then (c + 0x20)%N else c) s.

(** ** Numbers with a fractional part

    [a / b] and [a * b] on JavaScript numbers round the exact result to
    binary64: to 53 significant bits, nearest, ties to even. The exponent
    range is not bounded here (no overflow to Infinity, no subnormals), which
    is exact for the quotients and products of counts below 2^53 that the
    code forms. *)
Module F64.
Local Open Scope Q_scope.

(** The exponent [e] with [2^e <= q < 2^(e+1)], for [0 < q]. *)
Definition ilog2 (q : Q) : Z :=
  let k := (Z.log2 (Qnum q) - Z.log2 (Zpos (Qden q)))%Z in
  if Qle_bool (2 ^ k) q then k else (k - 1)%Z.

(** The nearest integer, ties to even. *)
Definition rne (q : Q) : Z :=
  let f := Qfloor q in
  match Qcompare (q - inject_Z f) (1 # 2) with
  | Lt => f
  | Gt => (f + 1)%Z
  | Eq => if Z.even f then f else (f + 1)%Z
  end.

Definition round_pos (q : Q) : Q :=
  let e := ilog2 q in
  inject_Z (rne (q * 2 ^ (52 - e))) * 2 ^ (e - 52).

(** The binary64 number nearest to [q]. *)
Definition round (q : Q) : Q :=
  match Qnum q with
  | Z0 => 0
  | Zpos _ => round_pos q
  | Zneg _ => - round_pos (- q)
  end.

(** [a / b] and [a * b] *)
Definition div (a b : Q) : Q := round (a / b).
Definition mul (a b : Q) : Q := round (a * b).

(** [Math.floor(x)] and [Math.round(x)] *)
Definition Math_floor (q : Q) : Z := Qfloor q.
Definition Math_round (q : Q) : Z := Qfloor (q + (1 # 2)).

(** [(c / n) * 100] *)
Definition percent (c n : Z) : Q := mul (div (inject_Z c) (inject_Z n)) 100.

(** The largest binary64 number below 1. *)
Definition below_one : Q := 1 - (1 # 2 ^ 53).

(** The relative error of one rounding is at most [eps]. *)
Definition eps : Q := 1 # 2 ^ 53.

End F64.

(** ** Features and the component's state *)

(** The columns of the POI data set, as the code reads them from
    [feature.properties], with the types the code uses them at; a column
    missing from a record is [None]. *)
Record Properties := mkProperties {
  fid : option Z;
  name_poi : option jsstring;
  flag_poi : option jsstring;
  blog_source : option jsstring;
  title_source : option jsstring;
  link_source : option jsstring;
  date_text : option jsstring;
  date_stamp : option Z;
  url_flag : option jsstring;
  url_link : option jsstring
}.

(** A decoded GeoJSON feature. Its geometry is read by the rendering
    engine and the popup only and is left out. *)
Record Feature := mkFeature { properties : option Properties }.

Definition is_some {A} (o : option A) : bool :=
  match o with Some _ => true | None => false end.

(** Whether the feature carries the property [name]. *)
Definition hasProperty (name : string) (f : Feature) : bool :=
  match properties f with
  | None => false
  | Some p =>
    if String.eqb name "fid" then is_some (fid p)
    else if String.eqb name "name_poi" then is_some (name_poi p)
    else if String.eqb name "flag_poi" then is_some (flag_poi p)
    else if String.eqb name "blog_source" then is_some (blog_source p)
    else if String.eqb name "title_source" then is_some (title_source p)
    else if String.eqb name "link_source" then is_some (link_source p)
    else if String.eqb name "date_text" then is_some (date_text p)
    else if String.eqb name "date_stamp" then is_some (date_stamp p)
    else if String.eqb name "url_flag" then is_some (url_flag p)
    else if String.eqb name "url_link" then is_some (url_link p)
    else false
  end.

(** The two filter expressions the component hands to [map.setFilter]. *)
Inductive FilterExpr :=
| MatchFid (ids : list Z)   (* ['match', ['get', 'fid'], ids, true, false] *)
| Has (name : string).      (* ['has', name] *)

(** How the rendering engine evaluates an expression on a feature. *)
Definition evalFilter (e : FilterExpr) (f : Feature) : bool :=
  match e with
  | MatchFid ids =>
    match properties f with
    | Some p =>
      match fid p with
      | Some i => existsb (Z.eqb i) ids
      | None => false
      end
    | None => false
    end
  | Has name => hasProperty name f
  end.

(** The object a GeoJSON source holds as its data. The component has one
    collection, [poiData], and gives the source that object itself, with
    [addSource] and with every [setData]: the source holds no copy, it sees
    what is pushed to [poiData.features] afterwards. When the library reads
    the object for its worker is not part of the component. *)
Inductive DataRef :=
| PoiDataObject.

(** The MapLibre map: the GeoJSON source ['poi-data'] and the four layers
    drawn from it. [sourceData] is the object the source holds ([None]: the
    source is not added yet), [setDataLog] the length of [poiData.features]
    at each call of [setData] (oldest first), [layerFilter] the filter of
    each layer (no entry: no filter). *)
Record MapObj := mkMapObj {
  sourceData : option DataRef;
  setDataLog : list Z;
  layerFilter : gmap string FilterExpr
}.

Definition layers : list string :=
  ["poi-pseudo"; "poi-points"; "poi-heat"; "poi-text"]%string.

(** [map.setFilter(layer, filter)] *)
Definition setFilter (layer : string) (filter : option FilterExpr)
    (m : MapObj) : MapObj :=
  mkMapObj (sourceData m) (setDataLog m)
    match filter with
    | Some e => <[layer := e]> (layerFilter m)
    | None => delete layer (layerFilter m)
    end.

(** Whether the filter of a layer admits a feature; a layer without a
    filter admits every feature. A layer draws the features of its source
    that its filter admits. *)
Definition passesLayer (m : MapObj) (layer : string) (f : Feature) : bool :=
  match layerFilter m !! layer with
  | Some e => evalFilter e f
  | None => true
  end.

(** The [message] of an [Error], as far as the code builds or reads it. *)
Inductive Message :=
| HttpError (status : Z)       (* `HTTP error! status: ${response.status}` *)
| NullBody                     (* 'Response body is null' *)
| OtherMessage (text : string) (* the message of an error thrown by fetch or the decoder *)
| DefaultMessage.              (* 'データの読み込みに失敗しました' *)

(** A thrown value. *)
Inductive Thrown :=
| ErrorObject (message : Message)
| NotAnError.

(** The detail of a [loadingProgress] event. *)
Record ProgressEvent := mkProgressEvent {
  loadedCount : Z;
  totalCount : Z;
  error : option Message
}.

(** The [let] variables of the component that the loader and the filter
    read or write; [poiData] is [poiData.features]. *)
Record Component := mkComponent {
  mapObj : option MapObj;
  loadingProgress : Z;
  isDataLoaded : bool;
  centerPOIs : list Feature;
  filterKeyword : jsstring;
  selectedRange : Z;
  selectedCategory : jsstring;
  selectedPeriod : Z;
  selectedCategories : list jsstring;
  totalPOICount : Z;
  currentVisiblePOIs : Z;
  poiData : list Feature;
  dispatched : list ProgressEvent
}.

Definition initialComponent : Component :=
  mkComponent None 0 false [] [] 0 [] 0 [] 0 0 [] [].

Definition set_mapObj (v : option MapObj) (c : Component) : Component :=
  mkComponent v (loadingProgress c) (isDataLoaded c) (centerPOIs c)
    (filterKeyword c) (selectedRange c) (selectedCategory c) (selectedPeriod c)
    (selectedCategories c) (totalPOICount c) (currentVisiblePOIs c) (poiData c)
    (dispatched c).

Definition set_loadingProgress (v : Z) (c : Component) : Component :=
  mkComponent (mapObj c) v (isDataLoaded c) (centerPOIs c)
    (filterKeyword c) (selectedRange c) (selectedCategory c) (selectedPeriod c)
    (selectedCategories c) (totalPOICount c) (currentVisiblePOIs c) (poiData c)
    (dispatched c).

Definition set_isDataLoaded (v : bool) (c : Component) : Component :=
  mkComponent (mapObj c) (loadingProgress c) v (centerPOIs c)
    (filterKeyword c) (selectedRange c) (selectedCategory c) (selectedPeriod c)
    (selectedCategories c) (totalPOICount c) (currentVisiblePOIs c) (poiData c)
    (dispatched c).

Definition set_centerPOIs (v : list Feature) (c : Component) : Component :=
  mkComponent (mapObj c) (loadingProgress c) (isDataLoaded c) v
    (filterKeyword c) (selectedRange c) (selectedCategory c) (selectedPeriod c)
    (selectedCategories c) (totalPOICount c) (currentVisiblePOIs c) (poiData c)
    (dispatched c).

Definition set_filterKeyword (v : jsstring) (c : Component) : Component :=
  mkComponent (mapObj c) (loadingProgress c) (isDataLoaded c) (centerPOIs c)
    v (selectedRange c) (selectedCategory c) (selectedPeriod c)
    (selectedCategories c) (totalPOICount c) (currentVisiblePOIs c) (poiData c)
    (dispatched c).

Definition set_selectedRange (v : Z) (c : Component) : Component :=
  mkComponent (mapObj c) (loadingProgress c) (isDataLoaded c) (centerPOIs c)
    (filterKeyword c) v (selectedCategory c) (selectedPeriod c)
    (selectedCategories c) (totalPOICount c) (currentVisiblePOIs c) (poiData c)
    (dispatched c).

Definition set_selectedCategory (v : jsstring) (c : Component) : Component :=
  mkComponent (mapObj c) (loadingProgress c) (isDataLoaded c) (centerPOIs c)
    (filterKeyword c) (selectedRange c) v (selectedPeriod c)
    (selectedCategories c) (totalPOICount c) (currentVisiblePOIs c) (poiData c)
    (dispatched c).

Definition set_selectedPeriod (v : Z) (c : Component) : Component :=
  mkComponent (mapObj c) (loadingProgress c) (isDataLoaded c) (centerPOIs c)
    (filterKeyword c) (selectedRange c) (selectedCategory c) v
    (selectedCategories c) (totalPOICount c) (currentVisiblePOIs c) (poiData c)
    (dispatched c).

Definition set_selectedCategories (v : list jsstring) (c : Component) : Component :=
  mkComponent (mapObj c) (loadingProgress c) (isDataLoaded c) (centerPOIs c)
    (filterKeyword c) (selectedRange c) (selectedCategory c) (selectedPeriod c)
    v (totalPOICount c) (currentVisiblePOIs c) (poiData c)
    (dispatched c).

Definition set_totalPOICount (v : Z) (c : Component) : Component :=
  mkComponent (mapObj c) (loadingProgress c) (isDataLoaded c) (centerPOIs c)
    (filterKeyword c) (selectedRange c) (selectedCategory c) (selectedPeriod c)
    (selectedCategories c) v (currentVisiblePOIs c) (poiData c)
    (dispatched c).

Definition set_currentVisiblePOIs (v : Z) (c : Component) : Component :=
  mkComponent (mapObj c) (loadingProgress c) (isDataLoaded c) (centerPOIs c)
    (filterKeyword c) (selectedRange c) (selectedCategory c) (selectedPeriod c)
    (selectedCategories c) (totalPOICount c) v (poiData c)
    (dispatched c).

Definition set_poiData (v : list Feature) (c : Component) : Component :=
  mkComponent (mapObj c) (loadingProgress c) (isDataLoaded c) (centerPOIs c)
    (filterKeyword c) (selectedRange c) (selectedCategory c) (selectedPeriod c)
    (selectedCategories c) (totalPOICount c) (currentVisiblePOIs c) v
    (dispatched c).

(** [dispatch('loadingProgress', detail)] *)
Definition dispatch (detail : ProgressEvent) (c : Component) : Component :=
  mkComponent (mapObj c) (loadingProgress c) (isDataLoaded c) (centerPOIs c)
    (filterKeyword c) (selectedRange c) (selectedCategory c) (selectedPeriod c)
    (selectedCategories c) (totalPOICount c) (currentVisiblePOIs c) (poiData c)
    (dispatched c ++ [detail]).

(** ** The option tables *)

Record PeriodOption := mkPeriodOption { value : Z; days : option Z }.

Definition periodOptions : list PeriodOption :=
  [ mkPeriodOption 0 None;
    mkPeriodOption 1 (Some 30);
    mkPeriodOption 2 (Some 90);
    mkPeriodOption 3 (Some 180);
    mkPeriodOption 4 (Some 365) ].

Record CategoryOption := mkCategoryOption {
  id : jsstring;
  label : jsstring;
  keywords : list jsstring
}.

Definition categoryOptions : list CategoryOption :=
  [ mkCategoryOption (js "cafe") (js "カフェ")
      [js "カフェ"; js "cafe"; js "喫茶店"; js "コーヒー"; js "coffee"];
    mkCategoryOption (js "ramen") (js "ラーメン")
      [js "ラーメン"; js "ramen"; js "らーめん"; js "麺屋"];
    mkCategoryOption (js "sushi") (js "寿司")
      [js "寿司"; js "鮨"];
    mkCategoryOption (js "westernfood") (js "洋食")
      [js "レストラン"; js "イタリアン"; js "フレンチ"];
    mkCategoryOption (js "park") (js "公園")
      [js "公園"] ].

(** ** The filter engine *)

Section FilterEngine.

(** [String.prototype.toLowerCase]. Its Unicode case tables are outside
    the repository; the engine is embedded over any such function and
    evaluated at [ascii_toLowerCase]. *)
Variable toLowerCase : jsstring -> jsstring.

(** [getPeriodTimestamp(days)], at the time [now] in milliseconds. *)
Definition getPeriodTimestamp (now : Z) (days : option Z) : Z :=
  match days with
  | None => 0
  | Some d => (now - d * 24 * 60 * 60 * 1000) / 1000
  end.

(** The keywords of the selected categories, in selection order; an id
    that is not in [categoryOptions] contributes nothing. *)
Definition collectCategoryKeywords (selected : list jsstring) : list jsstring :=
  flat_map
    (fun categoryId =>
       match find (fun cat => bool_decide (id cat = categoryId)) categoryOptions with
       | Some category => keywords category
       | None => []
       end)
    selected.

(** The local [searchTargets] of the filter callback. *)
Definition searchTargets (props : Properties) : list jsstring :=
  [ default [] (name_poi props);
    default [] (flag_poi props);
    default [] (blog_source props);
    default [] (title_source props) ].

(** The local [matchesKeyword] of the filter callback. *)
Definition matchesKeyword (keyword : jsstring) (props : Properties) : bool :=
  some (fun target => includes (toLowerCase target) keyword)
       (searchTargets props).

(** The local [categoryTargets] of the filter callback. *)
Definition categoryTargets (props : Properties) : list jsstring :=
  [ default [] (name_poi props);
    default [] (title_source props) ].

(** The local [matchesCategory] of the filter callback. *)
Definition matchesCategory (categoryKeywords : list jsstring)
    (props : Properties) : bool :=
  some (fun categoryKeyword =>
          some (fun target =>
                  includes (toLowerCase target) (toLowerCase categoryKeyword))
               (categoryTargets props))
       categoryKeywords.

(** The specification's "case-insensitive substring": [k] occurs in [t]
    once both are lower-cased. *)
Definition caseInsensitiveSubstring (k t : jsstring) : Prop :=
  includes (toLowerCase t) (toLowerCase k) = true.

(** The three guarded blocks of the callback; each is [false] where the
    callback returns [false] from inside the block. *)
Definition periodTest (selectedPeriod periodTimestamp : Z)
    (props : Properties) : bool :=
  if selectedPeriod >? 0
  then negb (default 0 (date_stamp props) <? periodTimestamp)
  else true.

Definition keywordTest (keyword : jsstring) (props : Properties) : bool :=
  if len keyword >? 0 then matchesKeyword keyword props else true.

Definition categoryTest (categoryKeywords : list jsstring)
    (props : Properties) : bool :=
  if len categoryKeywords >? 0
  then matchesCategory categoryKeywords props
  else true.

(** The callback of [poiData.features.filter] in [applyCombinedFilter]. *)
Definition featureMatches (selectedPeriod periodTimestamp : Z)
    (keyword : jsstring) (categoryKeywords : list jsstring)
    (feature : Feature) : bool :=
  match properties feature with
  | None => false
  | Some props =>
    periodTest selectedPeriod periodTimestamp props
    && keywordTest keyword props
    && categoryTest categoryKeywords props
  end.

(** The local [keyword] of [applyCombinedFilter]. *)
Definition normalizedKeyword (filterKeyword : jsstring) : jsstring :=
  trim (toLowerCase filterKeyword).

(** The local [matchingFeatures] of [applyCombinedFilter]. *)
Definition matchingFeatures (now : Z) (c : Component) : list Feature :=
  let keyword := normalizedKeyword (filterKeyword c) in
  let selectedOption :=
    find (fun opt => value opt =? selectedPeriod c) periodOptions in
  let periodTimestamp :=
    match selectedOption with
    | Some opt => getPeriodTimestamp now (days opt)
    | None => 0
    end in
  let categoryKeywords := collectCategoryKeywords (selectedCategories c) in
  List.filter
    (featureMatches (selectedPeriod c) periodTimestamp keyword categoryKeywords)
    (poiData c).

(** [matchingFeatures.map(f => f.properties?.fid).filter(fid => fid !== undefined)] *)
Definition matchingFids (fs : list Feature) : list Z :=
  omap (fun feature => properties feature ≫= fid) fs.

Definition noResultFilter : FilterExpr := Has "poi_nonexistent".

(** [applyCombinedFilter()], called by [applyFilter] with the map [m] it
    found. *)
Definition applyCombinedFilter (now : Z) (m : MapObj) (c : Component) : Component :=
  let matching := matchingFeatures now c in
  let m' :=
    if len matching >? 0 then
      let filterExpression := MatchFid (matchingFids matching) in
      setFilter "poi-text" (Some filterExpression)
        (setFilter "poi-heat" (Some filterExpression)
           (setFilter "poi-points" (Some filterExpression) m))
    else
      setFilter "poi-text" (Some noResultFilter)
        (setFilter "poi-heat" (Some noResultFilter)
           (setFilter "poi-points" (Some noResultFilter) m)) in
  set_currentVisiblePOIs (len matching) (set_mapObj (Some m') c).

(** [clearAllFilters()] *)
Definition clearAllFilters (c : Component) : Component :=
  match mapObj c with
  | None => c
  | Some m =>
    set_mapObj
      (Some (setFilter "poi-text" None
               (setFilter "poi-heat" None
                  (setFilter "poi-points" None m)))) c
  end.

(** [updateCenterPOIs()]; [rendered] is what
    [map.queryRenderedFeatures(bbox, {layers: ['poi-points']})] returns. *)
Definition updateCenterPOIs (rendered : list Feature) (c : Component) : Component :=
  match mapObj c with
  | None => c
  | Some _ =>
    if negb (isDataLoaded c) then c
    else set_centerPOIs (take 99 rendered) (set_totalPOICount (len rendered) c)
  end.

(** The condition of [applyFilter]: some criterion is set. *)
Definition criterionActive (c : Component) : bool :=
  (len (trim (filterKeyword c)) >? 0)
  || (selectedPeriod c >? 0)
  || (len (selectedCategories c) >? 0).

(** [applyFilter()] *)
Definition applyFilter (now : Z) (rendered : list Feature) (c : Component) : Component :=
  match mapObj c with
  | None => c
  | Some m =>
    if negb (isDataLoaded c) then c
    else
      updateCenterPOIs rendered
        (if criterionActive c then applyCombinedFilter now m c
         else clearAllFilters c)
  end.

(** [selectPeriod(periodValue)] *)
Definition selectPeriod (now : Z) (rendered : list Feature) (periodValue : Z)
    (c : Component) : Component :=
  applyFilter now rendered (set_selectedPeriod periodValue c).

(** [toggleCategory(categoryId)] *)
Definition toggleCategory (now : Z) (rendered : list Feature)
    (categoryId : jsstring) (c : Component) : Component :=
  applyFilter now rendered
    (if bool_decide (categoryId ∈ selectedCategories c)
     then set_selectedCategories
            (List.filter (fun i => negb (bool_decide (i = categoryId)))
                         (selectedCategories c)) c
     else set_selectedCategories (selectedCategories c ++ [categoryId]) c).

(** The keyword box: [bind:value={filterKeyword}] with [on:input={applyFilter}]. *)
Definition inputKeyword (now : Z) (rendered : list Feature) (text : jsstring)
    (c : Component) : Component :=
  applyFilter now rendered (set_filterKeyword text c).

(** [clearFilter()] *)
Definition clearFilter (c : Component) : Component :=
  let c1 :=
    set_selectedCategories []
      (set_selectedPeriod 0
         (set_selectedCategory []
            (set_selectedRange 0
               (set_filterKeyword [] c)))) in
  match mapObj c1 with
  | None => c1
  | Some m =>
    if isDataLoaded c1 then
      set_currentVisiblePOIs (len (poiData c1))
        (set_mapObj
           (Some (setFilter "poi-text" None
                    (setFilter "poi-heat" None
                       (setFilter "poi-points" None m)))) c1)
    else c1
  end.

End FilterEngine.

(** ** The loader *)

(** Code that can throw: the state persists across a [throw]. *)
Inductive Outcome (A : Type) :=
| Returned (a : A)
| Threw (e : Thrown).
Arguments Returned {A} a.
Arguments Threw {A} e.

Definition M (A : Type) : Type := Component -> Outcome A * Component.

#[global] Instance M_ret : MRet M := fun A a c => (Returned a, c).

#[global] Instance M_bind : MBind M := fun A B k m c =>
  match m c with
  | (Returned a, c') => k a c'
  | (Threw e, c') => (Threw e, c')
  end.

Definition throw {A} (e : Thrown) : M A := fun c => (Threw e, c).

(** [try { body } catch (error) { handler }] *)
Definition tryCatch {A} (body : M A) (handler : Thrown -> M A) : M A := fun c =>
  match body c with
  | (Returned a, c') => (Returned a, c')
  | (Threw e, c') => handler e c'
  end.

Definition modify (f : Component -> Component) : M unit :=
  fun c => (Returned tt, f c).

(** The header handed to the callback of [deserialize]. *)
Record HeaderMeta := mkHeaderMeta { featuresCount : option Z }.

(** What consuming the iterator of [deserialize(response.body, ...)] does:
    it throws on the header, or calls the header callback once and yields
    [records] in order, and then ends or throws. *)
Inductive FgbStream :=
| BadHeader (e : Thrown)
| Records (meta : option HeaderMeta) (records : list Feature)
          (failure : option Thrown).

Record Response := mkResponse {
  ok : bool;
  status : Z;
  body : option FgbStream
}.

(** The outcome of [await fetch(url)]. *)
Inductive FetchResult :=
| Rejected (e : Thrown)
| Resolved (response : Response).

(** [updateMapData()] *)
Definition updateMapData (c : Component) : Component :=
  match mapObj c with
  | None => c
  | Some m =>
    match sourceData m with
    | None => c
    | Some _ =>
      set_mapObj
        (Some (mkMapObj (Some PoiDataObject)
                        (setDataLog m ++ [len (poiData c)])
                        (layerFilter m))) c
    end
  end.

(** [m?.featuresCount || 0] *)
Definition totalFeaturesOf (m : option HeaderMeta) : Z :=
  default 0 (m ≫= featuresCount).

(** The header callback. *)
Definition onHeader (totalFeatures : Z) (c : Component) : Component :=
  if totalFeatures >? 0
  then dispatch (mkProgressEvent 0 totalFeatures None) c
  else c.

(** [Math.floor((poiData.features.length / totalFeatures) * 100)] *)
Definition progressOf (length totalFeatures : Z) : Z :=
  F64.Math_floor (F64.percent length totalFeatures).

(** The condition under which the loop calls [updateMapData()]. *)
Definition flushDue (totalFeatures length : Z) : bool :=
  ((totalFeatures >? 0) && (length =? totalFeatures))
  || (length mod 256 =? 0).

(** The body of the [for await] loop. *)
Definition onFeature (totalFeatures : Z) (c : Component) (feature : Feature)
    : Component :=
  let c1 := set_poiData (poiData c ++ [feature]) c in
  let c2 :=
    if totalFeatures >? 0 then
      dispatch (mkProgressEvent (len (poiData c1)) totalFeatures None)
        (set_loadingProgress (progressOf (len (poiData c1)) totalFeatures) c1)
    else c1 in
  if flushDue totalFeatures (len (poiData c2)) then updateMapData c2 else c2.

(** The loop over the records the iterator yields. *)
Definition consume (totalFeatures : Z) (records : list Feature)
    (c : Component) : Component :=
  fold_left (onFeature totalFeatures) records c.

(** The [try] block of [loadPOIData]. *)
Definition tryLoad (r : FetchResult) : M unit :=
  match r with
  | Rejected e => throw e
  | Resolved response =>
    if negb (ok response)
    then throw (ErrorObject (HttpError (status response)))
    else
      match body response with
      | None => throw (ErrorObject NullBody)
      | Some (BadHeader e) => throw e
      | Some (Records meta records failure) =>
        let totalFeatures := totalFeaturesOf meta in
        modify (onHeader totalFeatures);;
        modify (consume totalFeatures records);;
        match failure with
        | Some e => throw e
        | None =>
          modify (set_isDataLoaded true);;
          modify (fun c => set_currentVisiblePOIs (len (poiData c)) c)
        end
      end
  end.

(** The [catch] block of [loadPOIData]. *)
Definition onLoadError (e : Thrown) : M unit :=
  modify (set_isDataLoaded true);;
  let errorMessage :=
    match e with
    | ErrorObject message => message
    | NotAnError => DefaultMessage
    end in
  modify (dispatch (mkProgressEvent 0 0 (Some errorMessage))).

(** [loadPOIData()], given what [fetch] and the decoder deliver. *)
Definition loadPOIData (r : FetchResult) : M unit :=
  tryCatch (tryLoad r) onLoadError.

(** The component when the map's [load] handler calls [loadPOIData]: the
    source and the layers are added, nothing is filtered or loaded. *)
Definition mountedComponent : Component :=
  set_mapObj (Some (mkMapObj (Some PoiDataObject) [] ∅)) initialComponent.

(** ** The loading screen *)

(** [progress] of [LoadingScreen.svelte], from the [loadedCount] and
    [totalCount] the page copies out of the last [loadingProgress] event. *)
Definition screenProgress (e : ProgressEvent) : Z :=
  if totalCount e >? 0
  then F64.Math_round (F64.percent (loadedCount e) (totalCount e))
  else 0.

(** ** The keyword test of the legacy script *)

(** The condition of [generateList] on one feature; [None] is the
    [TypeError] of calling [includes] on a missing property. *)
Definition legacyMatchesKeyword (value : jsstring) (p : Properties)
    : option bool :=
  name ← name_poi p;
  if includes name value then Some true else
  flag ← flag_poi p;
  if includes flag value then Some true else
  blog ← blog_source p;
  if includes blog value then Some true else
  title ← title_source p;
  Some (includes title value).

(** ** The specification's progress formula *)

(** [floor(decodedCount / totalCount * 100)] clamped to [0, 100], in exact
    arithmetic. *)
Definition clampedProgress (decodedCount totalCount : Z) : Z :=
  Z.max 0 (Z.min 100 (decodedCount * 100 / totalCount)).

(** The records the loader appended before the load ended or failed, and
    the value it caught, if any. *)
Definition decodedRecords (r : FetchResult) : list Feature :=
  match r with
  | Resolved (mkResponse true _ (Some (Records _ records _))) => records
  | _ => []
  end.

Definition caughtBy (r : FetchResult) : option Thrown :=
  match r with
  | Rejected e => Some e
  | Resolved (mkResponse false status _) => Some (ErrorObject (HttpError status))
  | Resolved (mkResponse true _ None) => Some (ErrorObject NullBody)
  | Resolved (mkResponse true _ (Some (BadHeader e))) => Some e
  | Resolved (mkResponse true _ (Some (Records _ _ failure))) => failure
  end.

Definition declaredTotal (r : FetchResult) : Z :=
  match r with
  | Resolved (mkResponse true _ (Some (Records meta _ _))) => totalFeaturesOf meta
  | _ => 0
  end.

(** The counts at which the loop calls [updateMapData()] while it appends
    [n] records to an empty store. *)
Definition flushCounts (totalFeatures : Z) (n : nat) : list Z :=
  List.filter (flushDue totalFeatures) (map Z.of_nat (seq 1 n)).

(** ** Sample data of the examples *)

Definition poi (i : Z) (name : string) : Feature :=
  mkFeature
    (Some (mkProperties (Some i) (Some (js name)) None None None None None
             None None None)).

(** A successful response whose header declares [total] features. *)
Definition streamOf (total : Z) (records : list Feature)
    (failure : option Thrown) : FetchResult :=
  Resolved
    (mkResponse true 200
       (Some (Records (Some (mkHeaderMeta (Some total))) records failure))).

(** The mounted component after [records] were loaded without failure. *)
Definition loaded (records : list Feature) : Component :=
  snd (loadPOIData (streamOf (len records) records None) mountedComponent).

(** ** Further code of the component *)

Section FurtherEngine.

Variable toLowerCase : jsstring -> jsstring.

(** The local [matchingFeatures] of [applyKeywordFilter]. *)
Definition keywordMatchingFeatures (c : Component) : list Feature :=
  let keyword := normalizedKeyword toLowerCase (filterKeyword c) in
  List.filter
    (fun feature =>
       match properties feature with
       | None => false
       | Some props => matchesKeyword toLowerCase keyword props
       end)
    (poiData c).

(** [applyKeywordFilter()], given the map like [applyCombinedFilter]. *)
Definition applyKeywordFilter (m : MapObj) (c : Component) : Component :=
  let matching := keywordMatchingFeatures c in
  let m' :=
    if len matching >? 0 then
      let filterExpression := MatchFid (matchingFids matching) in
      setFilter "poi-text" (Some filterExpression)
        (setFilter "poi-heat" (Some filterExpression)
           (setFilter "poi-points" (Some filterExpression) m))
    else
      setFilter "poi-text" (Some noResultFilter)
        (setFilter "poi-heat" (Some noResultFilter)
           (setFilter "poi-points" (Some noResultFilter) m)) in
  set_mapObj (Some m') c.

(** The component with the one variable of the list panel that the
    handlers below read. *)
Record View := mkView {
  component : Component;
  showPOIList : bool
}.

(** [togglePOIList()] *)
Definition togglePOIList (rendered : list Feature) (v : View) : View :=
  let shown := negb (showPOIList v) in
  mkView (if shown then updateCenterPOIs rendered (component v)
          else component v)
         shown.

(** The handler of the map's [moveend] event. *)
Definition onMoveEnd (rendered : list Feature) (v : View) : View :=
  if showPOIList v
  then mkView (updateCenterPOIs rendered (component v)) (showPOIList v)
  else v.

(** The handler of the map's [sourcedata] event, for an event of the
    source ['poi-data'] with [isSourceLoaded]. *)
Definition onSourceData (rendered : list Feature) (v : View) : View :=
  if isDataLoaded (component v)
  then mkView (updateCenterPOIs rendered (component v)) (showPOIList v)
  else v.

(** What the user and the map do to the mounted component. *)
Inductive Action :=
| TypeKeyword (text : jsstring)
| ClickPeriod (periodValue : Z)
| ClickCategory (categoryId : jsstring)
| ClickReset
| ClickToggleList
| ClickHideList          (* [on:click={() => showPOIList = false}] *)
| ClickShowList          (* [on:click={() => showPOIList = true}] *)
| MoveEnd
| SourceData.

(** One action, at the time [now] and with [rendered] the result of the
    viewport query it makes. *)
Definition step (now : Z) (rendered : list Feature) (a : Action) (v : View)
    : View :=
  match a with
  | TypeKeyword text =>
    mkView (inputKeyword toLowerCase now rendered text (component v))
           (showPOIList v)
  | ClickPeriod periodValue =>
    mkView (selectPeriod toLowerCase now rendered periodValue (component v))
           (showPOIList v)
  | ClickCategory categoryId =>
    mkView (toggleCategory toLowerCase now rendered categoryId (component v))
           (showPOIList v)
  | ClickReset => mkView (clearFilter (component v)) (showPOIList v)
  | ClickToggleList => togglePOIList rendered v
  | ClickHideList => mkView (component v) false
  | ClickShowList => mkView (component v) true
  | MoveEnd => onMoveEnd rendered v
  | SourceData => onSourceData rendered v
  end.

Definition mountedView : View := mkView mountedComponent true.

(** Where [loadPOIData] stands: before the stream's header is read, in
    the loop with the count the header callback stored in [totalFeatures],
    or ended. *)
Inductive LoadPhase :=
| Fetching
| Decoding (totalFeatures : Z)
| Ended.

(** The states the mounted component can get into. The load that the
    map's [load] handler starts goes on while the user and the map act:
    between two [await]s it runs without interruption, so it advances by
    the header callback, by one turn of the loop, by the two assignments
    after the loop, or by the [catch] block, and the actions fall in
    between. *)
Inductive reachable : LoadPhase -> View -> Prop :=
| reachable_mounted : reachable Fetching mountedView
| reachable_step (phase : LoadPhase) (now : Z) (rendered : list Feature)
    (a : Action) (v : View) :
    reachable phase v -> reachable phase (step now rendered a v)
| reachable_header (meta : option HeaderMeta) (v : View) :
    reachable Fetching v ->
    reachable (Decoding (totalFeaturesOf meta))
      (mkView (onHeader (totalFeaturesOf meta) (component v)) (showPOIList v))
| reachable_feature (totalFeatures : Z) (feature : Feature) (v : View) :
    reachable (Decoding totalFeatures) v ->
    reachable (Decoding totalFeatures)
      (mkView (onFeature totalFeatures (component v) feature) (showPOIList v))
| reachable_loaded (totalFeatures : Z) (v : View) :
    reachable (Decoding totalFeatures) v ->
    reachable Ended
      (mkView (set_currentVisiblePOIs (len (poiData (component v)))
                 (set_isDataLoaded true (component v)))
              (showPOIList v))
| reachable_failed (phase : LoadPhase) (e : Thrown) (v : View) :
    reachable phase v ->
    phase <> Ended ->
    reachable Ended
      (mkView (snd (onLoadError e (component v))) (showPOIList v)).

End FurtherEngine.

(** The local [periodTimestamp] of [applyCombinedFilter]. *)
Definition periodTimestampOf (now selectedPeriod : Z) : Z :=
  match find (fun opt => value opt =? selectedPeriod) periodOptions with
  | Some opt => getPeriodTimestamp now (days opt)
  | None => 0
  end.

(** The badge of the list panel: [{totalPOICount > 99 ? '99+' : totalPOICount}] *)
Inductive Badge :=
| BadgeCount (n : Z)
| Badge99Plus.

Definition badge (c : Component) : Badge :=
  if totalPOICount c >? 99 then Badge99Plus else BadgeCount (totalPOICount c).

(** The [fid] of a feature, [None] where [feature.properties?.fid] is
    [undefined]. *)
Definition fidOf (feature : Feature) : option Z := properties feature ≫= fid.

(** What every state of the mounted component satisfies: the map and its
    source are there; [poi-pseudo] has no filter and the three other layers
    have the same one, which is there only once the load has ended, agrees
    with [currentVisiblePOIs] and names ids of the store in store order;
    nothing is counted before the load has ended; the list holds the first
    99 of the [totalPOICount] features of the last viewport query; no
    category is selected twice. *)
Definition invariant (c : Component) : Prop :=
  exists m,
    mapObj c = Some m
    /\ is_some (sourceData m) = true
    /\ layerFilter m !! "poi-pseudo" = None
    /\ layerFilter m !! "poi-heat" = layerFilter m !! "poi-points"
    /\ layerFilter m !! "poi-text" = layerFilter m !! "poi-points"
    /\ match layerFilter m !! "poi-points" with
       | None => True
       | Some (MatchFid ids) =>
         isDataLoaded c = true
         /\ 0 < currentVisiblePOIs c
         /\ sublist ids (omap fidOf (poiData c))
       | Some (Has name) =>
         isDataLoaded c = true
         /\ Has name = noResultFilter
         /\ currentVisiblePOIs c = 0
       end
    /\ (isDataLoaded c = false -> currentVisiblePOIs c = 0)
    /\ len (centerPOIs c) = Z.min 99 (totalPOICount c)
    /\ 0 <= currentVisiblePOIs c <= len (poiData c)
    /\ NoDup (selectedCategories c).

(** ** The popup carousel *)

(** The header of the popup, present when it shows more than one feature:
    the number in [.current-index] and the [disabled] state of the two
    buttons. *)
Record CarouselHeader := mkCarouselHeader {
  currentIndexText : Z;
  prevDisabled : bool;
  nextDisabled : bool
}.

(** [currentPopupFeatures] and [currentPopupIndex], with what the handlers
    touch of the popup's elements: the [active] class of each
    [.carousel-slide], and the header. *)
Record Carousel := mkCarousel {
  currentPopupFeatures : list Feature;
  currentPopupIndex : Z;
  slideActive : list bool;
  header : option CarouselHeader
}.

(** The state [createMultiPOIPopupHTML(features)] sets and the elements
    its markup creates (the cards themselves are left out). *)
Definition createMultiPOIPopup (features : list Feature) : Carousel :=
  mkCarousel features 0
    (imap (fun index _ => bool_decide (index = 0%nat)) features)
    (if len features >? 1
     then Some (mkCarouselHeader 1 (len features <=? 1) (len features <=? 1))
     else None).

(** [navigatePopup(direction)] *)
Definition navigatePopup (direction : Z) (s : Carousel) : Carousel :=
  if len (currentPopupFeatures s) <=? 1 then s
  else
    let newIndex := currentPopupIndex s + direction in
    if (newIndex <? 0) || (newIndex >=? len (currentPopupFeatures s)) then s
    else
      mkCarousel (currentPopupFeatures s) newIndex
        (imap (fun index _ => Z.of_nat index =? newIndex) (slideActive s))
        ((fun h =>
            mkCarouselHeader (newIndex + 1) (newIndex =? 0)
              (newIndex =? len (currentPopupFeatures s) - 1))
         <$> header s).

(** The popup opened on [features] shows the slide of
    [currentPopupIndex]: that slide alone is active, the counter shows its
    number and the [next] button is disabled on the last slide; the
    [previous] button is disabled on the first slide, unless the popup is
    as it was created. *)
Definition carouselInSync (features : list Feature) (s : Carousel) : Prop :=
  currentPopupFeatures s = features
  /\ 0 <= currentPopupIndex s <= Z.max 0 (len features - 1)
  /\ (forall i,
        slideActive s !! i
        = (fun _ => Z.of_nat i =? currentPopupIndex s) <$> features !! i)
  /\ match header s with
     | None => len features <= 1
     | Some h =>
       1 < len features
       /\ currentIndexText h = currentPopupIndex s + 1
       /\ nextDisabled h = (currentPopupIndex s =? len features - 1)
       /\ (prevDisabled h = (currentPopupIndex s =? 0)
           \/ s = createMultiPOIPopup features)
     end.

(** The keys [handleKeydown] reacts to. *)
Inductive Key :=
| ArrowLeft | ArrowUp | ArrowRight | ArrowDown | Escape | OtherKey.

(** [handleKeydown(e)] while the popup is open; the result is [None] when
    the popup is removed. *)
Definition handleKeydown (key : Key) (s : Carousel) : option Carousel :=
  if len (currentPopupFeatures s) <=? 1 then Some s
  else
    match key with
    | ArrowLeft | ArrowUp => Some (navigatePopup (-1) s)
    | ArrowRight | ArrowDown => Some (navigatePopup 1 s)
    | Escape => None
    | OtherKey => Some s
    end.

(** ** The geocoder of the legacy script *)

(** [Array.prototype.filter] with a callback that can throw: [None] is
    the callback's fault. *)
Fixpoint filterThrowing {A} (p : A -> option bool) (l : list A)
    : option (list A) :=
  match l with
  | [] => Some []
  | x :: l' =>
    match p x with
    | Some b =>
      (fun rest => if b then x :: rest else rest) <$> filterThrowing p l'
    | None => None
    end
  end.

Section Geocoder.

Variable toLowerCase : jsstring -> jsstring.

(** The [coordinates] of a point geometry; the geocoder copies them. *)
Variable Position : Type.

(** A feature of [poi.features] with its geometry, [None] where the
    feature has none. *)
Record GeoFeature := mkGeoFeature {
  geometry : option Position;
  feature : Feature
}.

(** An entry of the geocoder's result: [place_name], [center] (which is
    also the [coordinates] of its geometry) and the two properties. *)
Record GeocoderResult := mkGeocoderResult {
  place_name : jsstring;
  center : Position;
  result_name_poi : jsstring;
  result_title_source : jsstring
}.

(** The callback of [poi.features.filter]; [searchWord] is [config.query],
    [None] where it is [undefined], on which [toLowerCase] faults. *)
Definition geocoderMatches (searchWord : option jsstring) (f : GeoFeature)
    : option bool :=
  let namePoi := default [] (properties (feature f) ≫= name_poi) in
  let titleSource := default [] (properties (feature f) ≫= title_source) in
  searchLower ← toLowerCase <$> searchWord;
  Some (includes (toLowerCase namePoi) searchLower
        || includes (toLowerCase titleSource) searchLower).

(** The callback of [matchingFeatures.slice(0, 10).map]; it faults on a
    feature without geometry or without properties. *)
Definition geocoderResult (f : GeoFeature) : option GeocoderResult :=
  coordinates ← geometry f;
  props ← properties (feature f);
  let namePoi := default [] (name_poi props) in
  let titleSource := default [] (title_source props) in
  Some (mkGeocoderResult (namePoi ++ js " - " ++ titleSource) coordinates
          namePoi titleSource).

(** [geocoderApi.forwardGeocode(config)]: the [features] of its result. *)
Definition forwardGeocode (isPoiDataLoaded : bool) (features : list GeoFeature)
    (searchWord : option jsstring) : list GeocoderResult :=
  default []
    (if negb isPoiDataLoaded || (len features =? 0) then Some []
     else
       matching ← filterThrowing (geocoderMatches searchWord) features;
       mapM geocoderResult (take 10 matching)).

End Geocoder.

Arguments mkGeoFeature {Position} geometry feature.
Arguments geometry {Position} g.
Arguments feature {Position} g.
Arguments place_name {Position} g.
Arguments center {Position} g.
Arguments result_name_poi {Position} g.
Arguments result_title_source {Position} g.
Arguments geocoderMatches toLowerCase {Position} searchWord f.
Arguments geocoderResult {Position} f.
Arguments forwardGeocode toLowerCase {Position} isPoiDataLoaded features searchWord.

(** ** The page and its loading screen *)

(** The variables of [+page.svelte]. *)
Record Page := mkPage {
  isLoading : bool;
  pageLoadedCount : Z;
  pageTotalCount : Z
}.

Definition initialPage : Page := mkPage true 0 0.

(** [handleLoadingProgress(event)] *)
Definition handleLoadingProgress (e : ProgressEvent) (p : Page) : Page :=
  mkPage (isLoading p) (loadedCount e) (totalCount e).

(** [handleLoadingReady()] *)
Definition handleLoadingReady (p : Page) : Page :=
  mkPage false (pageLoadedCount p) (pageTotalCount p).

(** The condition under which the loading screen schedules its [ready]
    event: [progress >= 30 && isLoading]. *)
Definition readyDue (p : Page) : bool :=
  (screenProgress (mkProgressEvent (pageLoadedCount p) (pageTotalCount p) None)
   >=? 30)
  && isLoading p.

(** Whether the loading screen, shown from the start, schedules [ready]
    on one of the events it observes. *)
Definition readyScheduled (observed : list ProgressEvent) : bool :=
  existsb (fun e => readyDue (handleLoadingProgress e initialPage)) observed.

(** The event the [catch] block of [loadPOIData] dispatches. *)
Definition errorEvents (r : FetchResult) : list ProgressEvent :=
  match caughtBy r with
  | Some e =>
    [mkProgressEvent 0 0
       (Some match e with
             | ErrorObject message => message
             | NotAnError => DefaultMessage
             end)]
  | None => []
  end.

(** The events [loadPOIData] dispatches for [n] records of a stream that
    declares [totalFeatures]. *)
Definition progressEvents (totalFeatures : Z) (n : nat) : list ProgressEvent :=
  if totalFeatures >? 0
  then mkProgressEvent 0 totalFeatures None
       :: map (fun i => mkProgressEvent (Z.of_nat i) totalFeatures None)
              (seq 1 n)
  else [].

(** ** Sample states of the examples *)

(** A feature with a [date_stamp]. *)
Definition dated (i : Z) (name : string) (stamp : Z) : Feature :=
  mkFeature
    (Some (mkProperties (Some i) (Some (js name)) None None None None None
             (Some stamp) None None)).

(** A store of two features. *)
Definition sampleStore : list Feature := [poi 1 "Kashiwa Cafe"; poi 2 "Ramen"].

(** The mounted component after a load of the store during which a
    category chip was clicked, and after which a keyword was typed. *)
Definition sampleView : View :=
  let decoding v feature :=
    mkView (onFeature 2 (component v) feature) (showPOIList v) in
  let v1 :=
    decoding (mkView (onHeader 2 (component mountedView))
                     (showPOIList mountedView))
             (poi 1 "Kashiwa Cafe") in
  let v2 :=
    decoding (step ascii_toLowerCase 0 [] (ClickCategory (js "cafe")) v1)
             (poi 2 "Ramen") in
  let v3 :=
    mkView (set_currentVisiblePOIs (len (poiData (component v2)))
              (set_isDataLoaded true (component v2)))
           (showPOIList v2) in
  step ascii_toLowerCase 0 [poi 1 "Kashiwa Cafe"] (TypeKeyword (js "cafe")) v3.

(** * Properties *)

(** ** Strings *)

Lemma startsWith_spec (s p : jsstring) :
  startsWith s p = true <-> exists r, s = p ++ r.
Proof.
  revert s. induction p as [|a p IH]; intros s; simpl.
  - split; [intros _; exists s; reflexivity | reflexivity].
  - destruct s as [|b s]; simpl.
    + split; [discriminate | intros [r Hr]; discriminate].
    + rewrite andb_true_iff, N.eqb_eq, IH. split.
      * intros [-> [r ->]]. exists r. reflexivity.
      * intros [r Hr]. injection Hr as -> ->. split; [reflexivity | exists r; reflexivity].
Qed.

(** [includes] is the substring test. *)
Lemma includes_spec (s p : jsstring) :
  includes s p = true <-> exists l r, s = l ++ p ++ r.
Proof.
  induction s as [|b s IH].
  - simpl. rewrite orb_false_r, startsWith_spec. split.
    + intros [r Hr]. exists [], r. exact Hr.
    + intros [l [r Hr]]. destruct l; simpl in Hr.
      * exists r. exact Hr.
      * discriminate.
  - cbn [includes]. rewrite orb_true_iff, startsWith_spec, IH. split.
    + intros [[r Hr] | [l [r Hr]]].
      * exists [], r. exact Hr.
      * exists (b :: l), r. rewrite Hr. reflexivity.
    + intros [l [r Hr]]. destruct l as [|b' l]; simpl in Hr.
      * left. exists r. exact Hr.
      * right. injection Hr as _ ->. exists l, r. reflexivity.
Qed.

Lemma trimStart_pad (l s : jsstring) :
  forallb isWhiteSpace l = true -> trimStart (l ++ s) = trimStart s.
Proof.
  induction l as [|c l IH]; simpl; [reflexivity|].
  intros H. apply andb_true_iff in H as [Hc Hl]. rewrite Hc. auto.
Qed.

Lemma trimStart_all_ws (r : jsstring) :
  forallb isWhiteSpace r = true -> trimStart r = [].
Proof.
  intros H. rewrite <- (app_nil_r r). rewrite trimStart_pad; [reflexivity | exact H].
Qed.

Lemma trimStart_app_ws (s r : jsstring) :
  forallb isWhiteSpace r = true ->
  trimStart (s ++ r) = trimStart s ++ r
  \/ (trimStart s = [] /\ trimStart (s ++ r) = []).
Proof.
  intros Hr. induction s as [|c s IH]; simpl.
  - right. split; [reflexivity | apply trimStart_all_ws; exact Hr].
  - destruct (isWhiteSpace c); [exact IH | left; reflexivity].
Qed.

Lemma trimEnd_pad (s r : jsstring) :
  forallb isWhiteSpace r = true -> trimEnd (s ++ r) = trimEnd s.
Proof.
  intros Hr. unfold trimEnd. rewrite rev_app_distr, trimStart_pad; [reflexivity|].
  rewrite forallb_forall in *. intros x Hx. apply Hr. apply in_rev. exact Hx.
Qed.

(** Whitespace around a string does not change what [trim] returns. *)
Lemma trim_pad (l s r : jsstring) :
  forallb isWhiteSpace l = true -> forallb isWhiteSpace r = true ->
  trim (l ++ s ++ r) = trim s.
Proof.
  intros Hl Hr. unfold trim. rewrite trimStart_pad by exact Hl.
  destruct (trimStart_app_ws s r Hr) as [-> | [-> ->]].
  - apply trimEnd_pad. exact Hr.
  - reflexivity.
Qed.

Lemma trim_all_ws (s : jsstring) :
  forallb isWhiteSpace s = true -> trim s = [].
Proof.
  intros H. unfold trim. rewrite trimStart_all_ws by exact H. reflexivity.
Qed.

Lemma ascii_toLowerCase_ws (l : jsstring) :
  forallb isWhiteSpace l = true -> ascii_toLowerCase l = l.
Proof.
  unfold ascii_toLowerCase. induction l as [|c l IH]; simpl; [reflexivity|].
  intros H. apply andb_true_iff in H as [Hc Hl]. rewrite IH by exact Hl. f_equal.
  destruct ((65 <=? c)%N && (c <=? 90)%N) eqn:E; [|reflexivity].
  exfalso. apply andb_true_iff in E as [E1 E2].
  apply N.leb_le in E1, E2. unfold isWhiteSpace in Hc.
  repeat (apply orb_true_iff in Hc as [Hc|Hc]);
    try (apply N.eqb_eq in Hc; lia).
  apply andb_true_iff in Hc as [Hc _]. apply N.leb_le in Hc. lia.
Qed.

(** The ASCII instance leaves whitespace padding in place. *)
Lemma ascii_toLowerCase_pad (l s r : jsstring) :
  forallb isWhiteSpace l = true -> forallb isWhiteSpace r = true ->
  ascii_toLowerCase (l ++ s ++ r) = l ++ ascii_toLowerCase s ++ r.
Proof.
  intros Hl Hr.
  rewrite <- (ascii_toLowerCase_ws l Hl) at 2.
  rewrite <- (ascii_toLowerCase_ws r Hr) at 2.
  unfold ascii_toLowerCase. rewrite !map_app. reflexivity.
Qed.
Example js_cafe : js "cafe" = [99; 97; 102; 101]%N.
Proof. reflexivity. Qed.

Example js_kafe : js "カフェ" = [0x30AB; 0x30D5; 0x30A7]%N.
Proof. reflexivity. Qed.

Example trim_ideographic_space :
  trim (js "　Cafe ") = js "Cafe".
Proof. reflexivity. Qed.

Example includes_yes : includes (js "kashiwa cafe") (js "wa c") = true.
Proof. reflexivity. Qed.

Example includes_no : includes (js "kashiwa cafe") (js "Cafe") = false.
Proof. reflexivity. Qed.


(** ** Binary64 rounding *)

Module F64Facts.
Import F64.
Local Open Scope Q_scope.

Lemma pow2_pos z : 0 < 2 ^ z.
Proof. apply Qpower_0_lt. reflexivity. Qed.

Lemma pow2_add a b : 2 ^ a * 2 ^ b == 2 ^ (a + b).
Proof. symmetry. apply Qpower_plus. discriminate. Qed.

Lemma pow2_le a b : (a <= b)%Z -> 2 ^ a <= 2 ^ b.
Proof. intros. apply Qpower_le_compat_l; [assumption | discriminate]. Qed.

Lemma pow2_lt_inv a b : 2 ^ a < 2 ^ b -> (a < b)%Z.
Proof. intros. apply (Qpower_lt_compat_l_inv 2); [assumption | reflexivity]. Qed.

Lemma pow2_inject z : (0 <= z)%Z -> inject_Z (2 ^ z) == 2 ^ z.
Proof. intros. apply Zpower_Qpower. assumption. Qed.

Lemma ilog2_spec q : 0 < q -> 2 ^ ilog2 q <= q /\ q < 2 ^ (ilog2 q + 1).
Proof.
  intros Hq. destruct q as [n d]. 
  assert (Hn : (0 < n)%Z) by (unfold Qlt in Hq; simpl in Hq; lia).
  unfold ilog2. simpl Qnum. simpl Qden.
  set (a := Z.log2 n). set (b := Z.log2 (Z.pos d)).
  destruct (Z.log2_spec n Hn) as [Ha1 Ha2]. fold a in Ha1, Ha2.
  destruct (Z.log2_spec (Z.pos d) (Pos2Z.is_pos d)) as [Hb1 Hb2]. fold b in Hb1, Hb2.
  assert (Ha0 : (0 <= a)%Z) by apply Z.log2_nonneg.
  assert (Hb0 : (0 <= b)%Z) by apply Z.log2_nonneg.
  assert (Hd : 0 < inject_Z (Z.pos d)) by reflexivity.
  assert (Hqd : n # d == inject_Z n / inject_Z (Z.pos d)) by apply Qmake_Qdiv.
  assert (A1 : 2 ^ a <= inject_Z n).
  { rewrite <- pow2_inject by assumption. rewrite <- Zle_Qle. assumption. }
  assert (A2 : inject_Z n < 2 ^ (a + 1)).
  { rewrite <- pow2_inject by lia. rewrite <- Zlt_Qlt. replace (a + 1)%Z with (Z.succ a) by lia. assumption. }
  assert (B1 : 2 ^ b <= inject_Z (Z.pos d)).
  { rewrite <- pow2_inject by assumption. rewrite <- Zle_Qle. assumption. }
  assert (B2 : inject_Z (Z.pos d) < 2 ^ (b + 1)).
  { rewrite <- pow2_inject by lia. rewrite <- Zlt_Qlt. replace (b + 1)%Z with (Z.succ b) by lia. assumption. }
  destruct (Qle_bool (2 ^ (a - b)) (n # d)) eqn:E.
  - apply Qle_bool_iff in E. split; [assumption|].
    rewrite Hqd. apply Qlt_shift_div_r; [assumption|].
    eapply Qlt_le_trans; [exact A2|].
    assert (P := pow2_add (a - b + 1) b).
    replace (a - b + 1 + b)%Z with (a + 1)%Z in P by lia.
    rewrite <- P. apply Qmult_le_l; [apply pow2_pos | assumption].
  - assert (E' : n # d < 2 ^ (a - b)).
    { apply Qnot_le_lt. intro H. apply Qle_bool_iff in H. congruence. }
    split.
    + rewrite Hqd. apply Qle_shift_div_l; [assumption|].
      eapply Qle_trans; [|exact A1].
      assert (P := pow2_add (a - b - 1) (b + 1)).
      replace (a - b - 1 + (b + 1))%Z with a in P by lia.
      rewrite <- P. apply Qmult_le_l; [apply pow2_pos | apply Qlt_le_weak; assumption].
    + replace (a - b - 1 + 1)%Z with (a - b)%Z by lia. assumption.
Qed.

Lemma ilog2_mono q q' : 0 < q -> q <= q' -> (ilog2 q <= ilog2 q')%Z.
Proof.
  intros Hq Hle.
  destruct (ilog2_spec q Hq) as [L _].
  destruct (ilog2_spec q') as [_ U]; [eapply Qlt_le_trans; eassumption|].
  assert (H : 2 ^ ilog2 q < 2 ^ (ilog2 q' + 1)).
  { eapply Qle_lt_trans; [exact L|]. eapply Qle_lt_trans; eassumption. }
  apply pow2_lt_inv in H. lia.
Qed.

Lemma rne_bounds q : (Qfloor q <= rne q <= Qfloor q + 1)%Z.
Proof.
  unfold rne. destruct (Qcompare _ _); [destruct (Z.even _)| |]; lia.
Qed.

Lemma rne_mono q q' : q <= q' -> (rne q <= rne q')%Z.
Proof.
  intros Hle.
  assert (Hf := Qfloor_resp_le _ _ Hle).
  destruct (Z.eq_dec (Qfloor q) (Qfloor q')) as [E|NE].
  - unfold rne. rewrite <- E.
    destruct (Qcompare (q - inject_Z (Qfloor q)) (1 # 2)) eqn:C1;
    destruct (Qcompare (q' - inject_Z (Qfloor q)) (1 # 2)) eqn:C2;
    try (destruct (Z.even (Qfloor q)); lia); try lia;
    try rewrite <- Qeq_alt in C1; try rewrite <- Qlt_alt in C1; try rewrite <- Qgt_alt in C1;
    try rewrite <- Qeq_alt in C2; try rewrite <- Qlt_alt in C2; try rewrite <- Qgt_alt in C2;
    exfalso; lra.
  - pose proof (rne_bounds q). pose proof (rne_bounds q'). lia.
Qed.

Lemma rne_Z z : rne (inject_Z z) = z.
Proof.
  unfold rne. rewrite Qfloor_Z.
  assert (E : Qcompare (inject_Z z - inject_Z z) (1 # 2) = Lt).
  { apply Qlt_alt. setoid_replace (inject_Z z - inject_Z z) with 0 using relation Qeq by ring. reflexivity. }
  rewrite E. reflexivity.
Qed.

Lemma round_pos_mono q q' : 0 < q -> q <= q' -> round_pos q <= round_pos q'.
Proof.
  intros Hq Hle.
  assert (Hq' : 0 < q') by (eapply Qlt_le_trans; eassumption).
  pose proof (ilog2_mono q q' Hq Hle) as He.
  destruct (ilog2_spec q Hq) as [L U].
  destruct (ilog2_spec q' Hq') as [L' U'].
  unfold round_pos.
  set (e := ilog2 q) in *. set (e' := ilog2 q') in *.
  destruct (Z.eq_dec e e') as [E|NE].
  - rewrite <- E. apply Qmult_le_compat_r; [|apply Qlt_le_weak, pow2_pos].
    rewrite <- Zle_Qle. apply rne_mono.
    apply Qmult_le_compat_r; [assumption | apply Qlt_le_weak, pow2_pos].
  - apply Qle_trans with (2 ^ (e + 1)).
    + assert (P := pow2_add 53 (e - 52)).
      replace (53 + (e - 52))%Z with (e + 1)%Z in P by lia.
      rewrite <- P. apply Qmult_le_compat_r; [|apply Qlt_le_weak, pow2_pos].
      rewrite <- (pow2_inject 53) by lia. rewrite <- Zle_Qle.
      rewrite <- (rne_Z (2 ^ 53)). apply rne_mono.
      rewrite pow2_inject by lia.
      assert (P2 := pow2_add (e + 1) (52 - e)).
      replace (e + 1 + (52 - e))%Z with 53%Z in P2 by lia.
      rewrite <- P2. apply Qmult_le_compat_r; [apply Qlt_le_weak; assumption | apply Qlt_le_weak, pow2_pos].
    + apply Qle_trans with (2 ^ e'); [apply pow2_le; lia|].
      assert (P := pow2_add 52 (e' - 52)).
      replace (52 + (e' - 52))%Z with e' in P by lia.
      rewrite <- P. apply Qmult_le_compat_r; [|apply Qlt_le_weak, pow2_pos].
      rewrite <- (pow2_inject 52) by lia. rewrite <- Zle_Qle.
      rewrite <- (rne_Z (2 ^ 52)) at 1. apply rne_mono.
      rewrite pow2_inject by lia.
      assert (P2 := pow2_add e' (52 - e')).
      replace (e' + (52 - e'))%Z with 52%Z in P2 by lia.
      rewrite <- P2. apply Qmult_le_compat_r; [assumption | apply Qlt_le_weak, pow2_pos].
Qed.

Lemma round_pos_pos q : 0 < q -> 0 < round_pos q.
Proof.
  intros Hq. destruct (ilog2_spec q Hq) as [L U].
  unfold round_pos. set (e := ilog2 q) in *.
  apply Qmult_lt_0_compat; [|apply pow2_pos].
  replace 0 with (inject_Z 0) by reflexivity. rewrite <- Zlt_Qlt.
  apply Z.lt_le_trans with (2 ^ 52)%Z; [reflexivity|].
  rewrite <- (rne_Z (2 ^ 52)) at 1. apply rne_mono.
  rewrite pow2_inject by lia.
  assert (P2 := pow2_add e (52 - e)).
  replace (e + (52 - e))%Z with 52%Z in P2 by lia.
  rewrite <- P2. apply Qmult_le_compat_r; [assumption | apply Qlt_le_weak, pow2_pos].
Qed.

Lemma round_eq_pos q : 0 < q -> round q = round_pos q.
Proof.
  intros Hq. unfold round. destruct q as [[|p|p] d]; simpl; try reflexivity;
  unfold Qlt in Hq; simpl in Hq; lia.
Qed.

Lemma round_mono q q' : 0 < q -> q <= q' -> round q <= round q'.
Proof.
  intros Hq Hle. rewrite !round_eq_pos; [apply round_pos_mono; assumption| |assumption].
  eapply Qlt_le_trans; eassumption.
Qed.

Lemma round_pos' q : 0 < q -> 0 < round q.
Proof. intros. rewrite round_eq_pos by assumption. apply round_pos_pos; assumption. Qed.

Lemma round_compat q q' : 0 < q -> q == q' -> round q == round q'.
Proof.
  intros Hq E. apply Qle_antisym; apply round_mono; try assumption.
  - rewrite E. apply Qle_refl.
  - rewrite <- E. assumption.
  - rewrite E. apply Qle_refl.
Qed.

Lemma ratio_pos c n : (0 < c)%Z -> (0 < n)%Z -> 0 < inject_Z c / inject_Z n.
Proof.
  intros Hc Hn. apply Qlt_shift_div_l.
  - replace 0 with (inject_Z 0) by reflexivity. rewrite <- Zlt_Qlt. assumption.
  - rewrite Qmult_0_l. replace 0 with (inject_Z 0) by reflexivity. rewrite <- Zlt_Qlt. assumption.
Qed.

Lemma ratio_mono c c' n : (0 < n)%Z -> (c <= c')%Z -> inject_Z c / inject_Z n <= inject_Z c' / inject_Z n.
Proof.
  intros Hn Hc. unfold Qdiv. apply Qmult_le_compat_r.
  - rewrite <- Zle_Qle. assumption.
  - apply Qinv_le_0_compat. replace 0 with (inject_Z 0) by reflexivity. rewrite <- Zle_Qle. lia.
Qed.

Lemma percent_pos c n : (0 < c)%Z -> (0 < n)%Z -> 0 < percent c n.
Proof.
  intros Hc Hn. unfold percent, mul, div. apply round_pos'.
  apply Qmult_lt_0_compat; [|reflexivity]. apply round_pos'. apply ratio_pos; assumption.
Qed.

Lemma percent_mono c c' n : (0 < c)%Z -> (0 < n)%Z -> (c <= c')%Z -> percent c n <= percent c' n.
Proof.
  intros Hc Hn Hle. unfold percent, mul, div.
  apply round_mono.
  - apply Qmult_lt_0_compat; [|reflexivity]. apply round_pos'. apply ratio_pos; assumption.
  - apply Qmult_le_compat_r; [|discriminate].
    apply round_mono; [apply ratio_pos; assumption | apply ratio_mono; assumption].
Qed.

Lemma round_1 : round 1 == 1.
Proof. vm_compute. reflexivity. Qed.

Lemma round_100 : round 100 == 100.
Proof. vm_compute. reflexivity. Qed.

Lemma percent_full n : (0 < n)%Z -> percent n n == 100.
Proof.
  intros Hn. unfold percent, mul, div.
  assert (E : inject_Z n / inject_Z n == 1).
  { apply Qmult_inv_r. intro H. 
    assert (inject_Z 0 < inject_Z n) by (rewrite <- Zlt_Qlt; assumption).
    rewrite H in H0. discriminate. }
  assert (E1 : round (inject_Z n / inject_Z n) == 1).
  { rewrite (round_compat _ 1); [apply round_1 | apply ratio_pos; assumption | assumption]. }
  rewrite (round_compat _ 100).
  - apply round_100.
  - apply Qmult_lt_0_compat; [|reflexivity]. apply round_pos'. apply ratio_pos; assumption.
  - rewrite E1. reflexivity.
Qed.

Lemma round_below_one : round below_one == below_one.
Proof. vm_compute. reflexivity. Qed.

Lemma round_below_100 : round (below_one * 100) < 100.
Proof. vm_compute. reflexivity. Qed.

Lemma percent_partial c n : (0 < c)%Z -> (c < n)%Z -> (n <= 2 ^ 53)%Z -> percent c n < 100.
Proof.
  intros Hc Hlt Hn. unfold percent, mul, div.
  assert (Hr : 0 < inject_Z c / inject_Z n) by (apply ratio_pos; lia).
  assert (Hb : inject_Z c / inject_Z n <= below_one).
  { apply Qle_shift_div_r.
    - replace 0 with (inject_Z 0) by reflexivity. rewrite <- Zlt_Qlt. lia.
    - assert (H1 : inject_Z c <= inject_Z n - 1).
      { setoid_replace (inject_Z n - 1) with (inject_Z (n - 1)) using relation Qeq.
        - rewrite <- Zle_Qle. lia.
        - unfold Z.sub. rewrite inject_Z_plus. reflexivity. }
      assert (H2 : inject_Z n <= inject_Z (2 ^ 53)) by (rewrite <- Zle_Qle; assumption).
      change (inject_Z (2 ^ 53)) with (9007199254740992 # 1) in H2.
      unfold below_one. change (1 # 2 ^ 53) with (1 # 9007199254740992).
      revert H1 H2. generalize (inject_Z c) (inject_Z n). intros x y H1 H2. lra. }
  eapply Qle_lt_trans; [|apply round_below_100].
  apply round_mono.
  - apply Qmult_lt_0_compat; [|reflexivity]. apply round_pos'. assumption.
  - apply Qmult_le_compat_r; [|discriminate].
    rewrite <- round_below_one. apply round_mono; assumption.
Qed.

Lemma rne_error x : inject_Z (rne x) - (1 # 2) <= x /\ x <= inject_Z (rne x) + (1 # 2).
Proof.
  unfold rne.
  pose proof (Qfloor_le x) as Hf. pose proof (Qlt_floor x) as Hc.
  rewrite inject_Z_plus in Hc. change (inject_Z 1) with 1 in Hc.
  destruct (Qcompare (x - inject_Z (Qfloor x)) (1 # 2)) eqn:C.
  - rewrite <- Qeq_alt in C.
    destruct (Z.even (Qfloor x)); rewrite ?inject_Z_plus; change (inject_Z 1) with 1;
      revert Hf Hc C; generalize (inject_Z (Qfloor x)); intros f Hf Hc C; split; lra.
  - rewrite <- Qlt_alt in C.
    revert Hf Hc C; generalize (inject_Z (Qfloor x)); intros f Hf Hc C; split; lra.
  - rewrite <- Qgt_alt in C. rewrite inject_Z_plus. change (inject_Z 1) with 1.
    revert Hf Hc C; generalize (inject_Z (Qfloor x)); intros f Hf Hc C; split; lra.
Qed.

Lemma round_pos_error q : 0 < q -> q - q * eps <= round_pos q /\ round_pos q <= q + q * eps.
Proof.
  intros Hq. destruct (ilog2_spec q Hq) as [L U].
  unfold round_pos. set (e := ilog2 q) in *.
  destruct (rne_error (q * 2 ^ (52 - e))) as [E1 E2].
  set (r := inject_Z (rne (q * 2 ^ (52 - e)))) in *.
  assert (P := pow2_add (52 - e) (e - 52)).
  replace (52 - e + (e - 52))%Z with 0%Z in P by lia.
  change (2 ^ 0) with 1 in P.
  assert (Pp := pow2_pos (e - 52)).
  assert (Pe : 2 ^ (e - 52) * (1 # 2) <= q * eps).
  { assert (P2 := pow2_add e (-53)).
    replace (e + -53)%Z with (e - 53)%Z in P2 by lia.
    assert (P3 := pow2_add (e - 53) 1).
    replace (e - 53 + 1)%Z with (e - 52)%Z in P3 by lia.
    change (2 ^ 1) with 2 in P3.
    change (2 ^ (-53)) with eps in P2.
    rewrite <- P3.
    setoid_replace (2 ^ (e - 53) * 2 * (1 # 2)) with (2 ^ (e - 53)) using relation Qeq by ring.
    rewrite <- P2. apply Qmult_le_compat_r; [assumption | discriminate]. }
  assert (Q1 : (r - (1 # 2)) * 2 ^ (e - 52) <= q * 2 ^ (52 - e) * 2 ^ (e - 52)).
  { apply Qmult_le_compat_r; [assumption | apply Qlt_le_weak; assumption]. }
  assert (Q2 : q * 2 ^ (52 - e) * 2 ^ (e - 52) <= (r + (1 # 2)) * 2 ^ (e - 52)).
  { apply Qmult_le_compat_r; [assumption | apply Qlt_le_weak; assumption]. }
  assert (Q3 : q * 2 ^ (52 - e) * 2 ^ (e - 52) == q).
  { rewrite <- Qmult_assoc, P. ring. }
  rewrite Q3 in Q1, Q2.
  assert (Q4 : (r - (1 # 2)) * 2 ^ (e - 52) == r * 2 ^ (e - 52) - 2 ^ (e - 52) * (1 # 2)) by ring.
  assert (Q5 : (r + (1 # 2)) * 2 ^ (e - 52) == r * 2 ^ (e - 52) + 2 ^ (e - 52) * (1 # 2)) by ring.
  rewrite Q4 in Q1. rewrite Q5 in Q2.
  revert Q1 Q2 Pe. generalize (r * 2 ^ (e - 52)) (2 ^ (e - 52) * (1 # 2)) (q * eps).
  intros a b d Q1 Q2 Pe. split; lra.
Qed.

Lemma round_error q : 0 < q -> q - q * eps <= round q /\ round q <= q + q * eps.
Proof. intros. rewrite round_eq_pos by assumption. apply round_pos_error; assumption. Qed.

Lemma percent_error c n : (0 < c)%Z -> (0 < n)%Z ->
  let x := inject_Z c / inject_Z n in
  100 * x - 3 * eps * (100 * x) <= percent c n /\ percent c n <= 100 * x + 3 * eps * (100 * x).
Proof.
  intros Hc Hn x. unfold percent, mul, div. fold x.
  assert (Hx : 0 < x) by (apply ratio_pos; assumption).
  destruct (round_error x Hx) as [A1 A2].
  assert (Hy : 0 < round x * 100).
  { apply Qmult_lt_0_compat; [|reflexivity]. apply round_pos'. assumption. }
  destruct (round_error (round x * 100) Hy) as [B1 B2].
  unfold eps in *. change (1 # 2 ^ 53) with (1 # 9007199254740992) in *.
  revert A1 A2 B1 B2 Hx. generalize (round (round x * 100)) (round x). intros y1 x1. intros.
  split; lra.
Qed.


Lemma floor_lt_Z q z : q < inject_Z z -> (Math_floor q < z)%Z.
Proof.
  intros H. unfold Math_floor. rewrite Zlt_Qlt. eapply Qle_lt_trans; [apply Qfloor_le | exact H].
Qed.

Lemma floor_ge_Z q z : inject_Z z <= q -> (z <= Math_floor q)%Z.
Proof.
  intros H. unfold Math_floor. rewrite <- (Qfloor_Z z). apply Qfloor_resp_le. exact H.
Qed.

Lemma floor_percent_near c n :
  (0 < c <= 2 ^ 44)%Z -> (0 < n)%Z ->
  (c * 100 / n - 1 <= Math_floor (percent c n) <= c * 100 / n)%Z.
Proof.
  intros [Hc Hc'] Hn.
  destruct (percent_error c n Hc Hn) as [E1 E2]. cbv zeta in E1, E2.
  set (F := (c * 100 / n)%Z).
  assert (Hn0 : 0 < inject_Z n) by (change 0 with (inject_Z 0); rewrite <- Zlt_Qlt; assumption).
  assert (Hn1 : 1 <= inject_Z n) by (change 1 with (inject_Z 1); rewrite <- Zle_Qle; lia).
  assert (Hnz : ~ inject_Z n == 0) by (intro H; rewrite H in Hn0; discriminate).
  assert (Hu0 : 0 < / inject_Z n) by (apply Qinv_lt_0_compat; assumption).
  assert (Hu1 : / inject_Z n <= 1).
  { apply Qle_shift_inv_r; [assumption|]. rewrite Qmult_1_l. assumption. }
  assert (F1 : 100 * (inject_Z c / inject_Z n) <= inject_Z F + 1 - / inject_Z n).
  { assert (Hz : (c * 100 + 1 <= (F + 1) * n)%Z).
    { unfold F. pose proof (Z.mul_succ_div_gt (c * 100) n Hn). lia. }
    rewrite Zle_Qle in Hz.
    rewrite inject_Z_plus, inject_Z_mult, inject_Z_mult, inject_Z_plus in Hz.
    change (inject_Z 100) with 100 in Hz. change (inject_Z 1) with 1 in Hz.
    setoid_replace (100 * (inject_Z c / inject_Z n))
      with ((inject_Z c * 100 + 1) / inject_Z n - / inject_Z n) using relation Qeq by (field; assumption).
    assert (H : (inject_Z c * 100 + 1) / inject_Z n <= inject_Z F + 1).
    { apply Qle_shift_div_r; assumption. }
    revert H. generalize ((inject_Z c * 100 + 1) / inject_Z n) (/ inject_Z n) (inject_Z F).
    intros; lra. }
  assert (F3 : inject_Z F <= 100 * (inject_Z c / inject_Z n)).
  { assert (Hz : (F * n <= c * 100)%Z).
    { unfold F. pose proof (Z.mul_div_le (c * 100) n Hn). lia. }
    rewrite Zle_Qle in Hz. rewrite !inject_Z_mult in Hz. change (inject_Z 100) with 100 in Hz.
    setoid_replace (100 * (inject_Z c / inject_Z n))
      with ((inject_Z c * 100) / inject_Z n) using relation Qeq by (field; assumption).
    apply Qle_shift_div_l; assumption. }
  assert (F2 : inject_Z c / inject_Z n <= 17592186044416 * / inject_Z n).
  { unfold Qdiv. apply Qmult_le_compat_r; [|apply Qlt_le_weak; assumption].
    change 17592186044416 with (inject_Z (2 ^ 44)). rewrite <- Zle_Qle. assumption. }
  unfold eps in E1, E2. change (1 # 2 ^ 53) with (1 # 9007199254740992) in E1, E2.
  split.
  - apply floor_ge_Z. unfold Z.sub. rewrite inject_Z_plus, inject_Z_opp. change (inject_Z 1) with 1.
    revert E1 F3 F2 Hu0 Hu1.
    generalize (percent c n) (inject_Z c / inject_Z n) (/ inject_Z n) (inject_Z F).
    intros p t u f. intros. lra.
  - apply Z.lt_succ_r. apply floor_lt_Z. unfold Z.succ. rewrite inject_Z_plus.
    change (inject_Z 1) with 1.
    revert E2 F1 F2 Hu0 Hu1.
    generalize (percent c n) (inject_Z c / inject_Z n) (/ inject_Z n) (inject_Z F).
    intros p t u f. intros. lra.
Qed.

End F64Facts.

(** ** The tests of the filter callback *)

Lemma some_true {A} (f : A -> bool) (l : list A) :
  some f l = true <-> exists x, In x l /\ f x = true.
Proof. apply existsb_exists. Qed.

Lemma len_nil_iff {A} (l : list A) : (len l >? 0) = false <-> l = [].
Proof.
  destruct l; unfold len; simpl; split; intros H; try reflexivity; discriminate.
Qed.

Lemma len_pos_iff {A} (l : list A) : (len l >? 0) = true <-> l <> [].
Proof.
  destruct l; unfold len; simpl; split; intros H; try reflexivity;
    try discriminate; congruence.
Qed.

(** The category table has distinct ids and no empty keyword list. *)
Lemma categoryOptions_find (category : CategoryOption) :
  In category categoryOptions ->
  find (fun cat => bool_decide (id cat = id category)) categoryOptions
  = Some category.
Proof.
  intros H. simpl in H.
  repeat (destruct H as [<- | H]; [vm_compute; reflexivity|]).
  destruct H.
Qed.

Lemma categoryOptions_keywords (category : CategoryOption) :
  In category categoryOptions -> keywords category <> [].
Proof.
  intros H. simpl in H.
  repeat (destruct H as [<- | H]; [discriminate|]).
  destruct H.
Qed.

Lemma find_category_Some (categoryId : jsstring) (category : CategoryOption) :
  find (fun cat => bool_decide (id cat = categoryId)) categoryOptions
  = Some category
  <-> In category categoryOptions /\ id category = categoryId.
Proof.
  split.
  - intros H. apply find_some in H as [H1 H2].
    apply bool_decide_eq_true in H2. auto.
  - intros [H1 <-]. apply categoryOptions_find. exact H1.
Qed.

Lemma In_collectCategoryKeywords (selected : list jsstring) (kw : jsstring) :
  In kw (collectCategoryKeywords selected) <->
  exists categoryId category,
    In categoryId selected /\ In category categoryOptions
    /\ id category = categoryId /\ In kw (keywords category).
Proof.
  unfold collectCategoryKeywords. rewrite in_flat_map. split.
  - intros [categoryId [Hsel Hkw]].
    destruct (find _ categoryOptions) as [category|] eqn:E; [|destruct Hkw].
    apply find_category_Some in E as [E1 E2].
    exists categoryId, category. auto.
  - intros [categoryId [category [Hsel [Hin [Hid Hkw]]]]].
    exists categoryId. split; [exact Hsel|].
    assert (E : find (fun cat => bool_decide (id cat = categoryId)) categoryOptions
                = Some category) by (apply find_category_Some; auto).
    rewrite E. exact Hkw.
Qed.

Lemma collectCategoryKeywords_nil (selected : list jsstring) :
  collectCategoryKeywords selected = [] <->
  forall categoryId, In categoryId selected ->
  forall category, In category categoryOptions -> id category <> categoryId.
Proof.
  split.
  - intros H categoryId Hsel category Hin Hid.
    destruct (keywords category) as [|kw kws] eqn:K.
    + exact (categoryOptions_keywords category Hin K).
    + assert (Hkw : In kw (collectCategoryKeywords selected)).
      { apply In_collectCategoryKeywords. exists categoryId, category.
        rewrite K. simpl. auto. }
      rewrite H in Hkw. destruct Hkw.
  - intros H. destruct (collectCategoryKeywords selected) as [|kw kws] eqn:K;
      [reflexivity|].
    assert (Hkw : In kw (collectCategoryKeywords selected))
      by (rewrite K; left; reflexivity).
    apply In_collectCategoryKeywords in Hkw
      as [categoryId [category [Hsel [Hin [Hid _]]]]].
    destruct (H categoryId Hsel category Hin Hid).
Qed.

Section FilterEngineFacts.

Variable toLowerCase : jsstring -> jsstring.

(** C1, as amended. The keyword test of the filter callback passes a
    feature iff the keyword of the filter box, lower-cased and trimmed, is
    empty, or occurs in the lower-cased [name_poi], [flag_poi],
    [blog_source] or [title_source] of the feature, a missing property
    counting as the empty string. *)
Theorem keywordTest_normalized (filterKeyword : jsstring) (props : Properties) :
  let keyword := normalizedKeyword toLowerCase filterKeyword in
  keywordTest toLowerCase keyword props = true <->
  keyword = []
  \/ includes (toLowerCase (default [] (name_poi props))) keyword = true
  \/ includes (toLowerCase (default [] (flag_poi props))) keyword = true
  \/ includes (toLowerCase (default [] (blog_source props))) keyword = true
  \/ includes (toLowerCase (default [] (title_source props))) keyword = true.
Proof.
  intros keyword. unfold keywordTest.
  destruct (len keyword >? 0) eqn:E.
  - apply len_pos_iff in E. unfold matchesKeyword.
    rewrite some_true. unfold searchTargets. split.
    + intros [target [Hin Hinc]]. right. simpl in Hin.
      destruct Hin as [<- | [<- | [<- | [<- | []]]]]; auto.
    + intros [H | H]; [contradiction|].
      destruct H as [H | [H | [H | H]]]; eexists; (split; [|exact H]);
        simpl; auto.
  - apply len_nil_iff in E. split; auto.
Qed.

(** Some collected keyword occurs in the name or the title. *)
Lemma matchesCategory_spec (selected : list jsstring) (props : Properties) :
  matchesCategory toLowerCase (collectCategoryKeywords selected) props = true
  <-> exists categoryId category categoryKeyword target,
       In categoryId selected
       /\ In category categoryOptions /\ id category = categoryId
       /\ In categoryKeyword (keywords category)
       /\ (target = default [] (name_poi props)
           \/ target = default [] (title_source props))
       /\ caseInsensitiveSubstring toLowerCase categoryKeyword target.
Proof.
  unfold matchesCategory. rewrite some_true. split.
  - intros [kw [Hkw Hsome]].
    apply some_true in Hsome as [target [Ht Hinc]].
    apply In_collectCategoryKeywords in Hkw
      as [categoryId [category [Hsel [Hin [Hid Hkw]]]]].
    exists categoryId, category, kw, target.
    repeat split; try assumption.
    simpl in Ht. destruct Ht as [<- | [<- | []]]; auto.
  - intros [categoryId [category [kw [target H]]]].
    destruct H as [Hsel [Hin [Hid [Hkw [Ht Hinc]]]]].
    exists kw. split.
    + apply In_collectCategoryKeywords. exists categoryId, category. auto.
    + apply some_true. exists target. split; [|exact Hinc].
      simpl. destruct Ht as [-> | ->]; auto.
Qed.

(** The category test on any list of ids: [categoryOptions.find] skips an
    id that is not in the table, and the test is guarded by the number of
    collected keywords. *)
Lemma categoryTest_selected (selected : list jsstring) (props : Properties) :
  categoryTest toLowerCase (collectCategoryKeywords selected) props = true <->
  (forall categoryId, In categoryId selected ->
   forall category, In category categoryOptions -> id category <> categoryId)
  \/ exists categoryId category categoryKeyword target,
       In categoryId selected
       /\ In category categoryOptions /\ id category = categoryId
       /\ In categoryKeyword (keywords category)
       /\ (target = default [] (name_poi props)
           \/ target = default [] (title_source props))
       /\ caseInsensitiveSubstring toLowerCase categoryKeyword target.
Proof.
  unfold categoryTest.
  destruct (len (collectCategoryKeywords selected) >? 0) eqn:E.
  - apply len_pos_iff in E. rewrite matchesCategory_spec. split.
    + intros H. right. exact H.
    + intros [H | H]; [|exact H].
      apply collectCategoryKeywords_nil in H. contradiction.
  - apply len_nil_iff in E. split; [|reflexivity].
    intros _. left. apply collectCategoryKeywords_nil. exact E.
Qed.

(** C2. The selection holds ids of the category table: [toggleCategory]
    is called from the chips that the template generates from
    [categoryOptions], and nothing else adds to [selectedCategories]. On
    such a selection the category test passes a feature iff nothing is
    selected, or some keyword of some selected category is a
    case-insensitive substring of [name_poi] or [title_source]: a
    disjunction over the selected categories and over the keywords of
    each. *)
Theorem categoryTest_known_selection (selected : list jsstring)
    (props : Properties) :
  (forall categoryId, In categoryId selected ->
   exists category, In category categoryOptions /\ id category = categoryId) ->
  categoryTest toLowerCase (collectCategoryKeywords selected) props = true <->
  selected = []
  \/ exists categoryId category categoryKeyword target,
       In categoryId selected
       /\ In category categoryOptions /\ id category = categoryId
       /\ In categoryKeyword (keywords category)
       /\ (target = default [] (name_poi props)
           \/ target = default [] (title_source props))
       /\ caseInsensitiveSubstring toLowerCase categoryKeyword target.
Proof.
  intros Hknown. unfold categoryTest.
  destruct (len (collectCategoryKeywords selected) >? 0) eqn:E.
  - apply len_pos_iff in E. rewrite matchesCategory_spec. split.
    + intros H. right. exact H.
    + intros [-> | H]; [|exact H]. destruct E. reflexivity.
  - apply len_nil_iff in E. split; [|reflexivity].
    intros _. left.
    destruct selected as [|categoryId selected]; [reflexivity|].
    destruct (Hknown categoryId) as [category [Hin Hid]]; [left; reflexivity|].
    pose proof (proj1 (collectCategoryKeywords_nil _) E) as H.
    destruct (H categoryId (or_introl eq_refl) category Hin Hid).
Qed.

End FilterEngineFacts.

(** C1, counterexample. With [" cafe"] in the filter box the test passes
    a feature named ["Cafe"], while [" cafe"] is neither empty nor a
    case-insensitive substring of any of the four fields. *)
Lemma keywordTest_padded_keyword :
  let filterKeyword := js " cafe" in
  let props :=
    mkProperties (Some 1) (Some (js "Cafe")) None None None None None None
      None None in
  ~ (keywordTest ascii_toLowerCase
       (normalizedKeyword ascii_toLowerCase filterKeyword) props = true
     <-> filterKeyword = []
         \/ exists target, In target (searchTargets props)
            /\ caseInsensitiveSubstring ascii_toLowerCase filterKeyword target).
Proof.
  intros filterKeyword props [H _].
  destruct (H eq_refl) as [E | [target [Hin Hsub]]].
  - discriminate E.
  - simpl in Hin.
    destruct Hin as [<- | [<- | [<- | [<- | []]]]]; vm_compute in Hsub;
      discriminate Hsub.
Qed.

(** C2 at an instance: with the chip of the cafes selected, the test
    passes a feature named ["Kashiwa Cafe"] by a keyword of that category. *)
Lemma categoryTest_known_selection_witness :
  let selected := [js "cafe"] in
  let props :=
    mkProperties (Some 1) (Some (js "Kashiwa Cafe")) None None None None None
      None None None in
  categoryTest ascii_toLowerCase (collectCategoryKeywords selected) props = true
  /\ exists categoryId category categoryKeyword target,
       In categoryId selected
       /\ In category categoryOptions /\ id category = categoryId
       /\ In categoryKeyword (keywords category)
       /\ (target = default [] (name_poi props)
           \/ target = default [] (title_source props))
       /\ caseInsensitiveSubstring ascii_toLowerCase categoryKeyword target.
Proof.
  intros selected props.
  assert (Hknown : forall categoryId, In categoryId selected ->
            exists category,
              In category categoryOptions /\ id category = categoryId).
  { intros categoryId [<- | []]. eexists. split; [left; reflexivity|].
    reflexivity. }
  assert (Htest : categoryTest ascii_toLowerCase
                    (collectCategoryKeywords selected) props = true)
    by (vm_compute; reflexivity).
  split; [exact Htest|].
  destruct (proj1 (categoryTest_known_selection ascii_toLowerCase selected
                     props Hknown) Htest) as [E | H].
  - discriminate E.
  - exact H.
Defined.

(** ** Applying and clearing the filter *)

Lemma updateCenterPOIs_frame (rendered : list Feature) (c : Component) :
  let c' := updateCenterPOIs rendered c in
  mapObj c' = mapObj c
  /\ currentVisiblePOIs c' = currentVisiblePOIs c
  /\ poiData c' = poiData c
  /\ isDataLoaded c' = isDataLoaded c
  /\ filterKeyword c' = filterKeyword c
  /\ selectedPeriod c' = selectedPeriod c
  /\ selectedCategories c' = selectedCategories c.
Proof.
  unfold updateCenterPOIs. destruct (mapObj c) eqn:E; [|by rewrite E].
  destruct (isDataLoaded c) eqn:E'; simpl; by rewrite ?E, ?E'.
Qed.

Lemma noResultFilter_matches_nothing (f : Feature) :
  evalFilter noResultFilter f = false.
Proof. unfold noResultFilter, evalFilter, hasProperty. by destruct (properties f). Qed.

Section ApplyFilterFacts.

Variable toLowerCase : jsstring -> jsstring.

(** C3, as amended. When [applyFilter] runs on the loaded component with
    some criterion set and no feature of the store matching, it sets the
    filter of [poi-points], [poi-heat] and [poi-text] to the sentinel
    [['has', 'poi_nonexistent']], which no feature passes and which is not
    a match expression over an id list; the filter of [poi-pseudo] is left
    as it was. *)
Theorem applyFilter_no_match (now : Z) (rendered : list Feature)
    (c : Component) (m : MapObj) :
  mapObj c = Some m ->
  isDataLoaded c = true ->
  criterionActive c = true ->
  matchingFeatures toLowerCase now c = [] ->
  exists m',
    mapObj (applyFilter toLowerCase now rendered c) = Some m'
    /\ layerFilter m' !! "poi-points" = Some noResultFilter
    /\ layerFilter m' !! "poi-heat" = Some noResultFilter
    /\ layerFilter m' !! "poi-text" = Some noResultFilter
    /\ layerFilter m' !! "poi-pseudo" = layerFilter m !! "poi-pseudo"
    /\ (forall f layer,
          In layer ["poi-points"; "poi-heat"; "poi-text"]%string ->
          passesLayer m' layer f = false)
    /\ (forall ids, noResultFilter <> MatchFid ids).
Proof.
  intros Hm Hloaded Hactive Hnone.
  unfold applyFilter. rewrite Hm, Hloaded, Hactive. simpl negb. cbv iota.
  destruct (updateCenterPOIs_frame rendered
              (applyCombinedFilter toLowerCase now m c)) as [-> _].
  unfold applyCombinedFilter. rewrite Hnone. simpl.
  eexists. split; [reflexivity|].
  repeat split; try by simplify_map_eq.
  - intros f layer Hin. unfold passesLayer. simpl.
    destruct Hin as [<- | [<- | [<- | []]]]; simplify_map_eq;
      apply noResultFilter_matches_nothing.
Qed.

(** The reset button restores everything on the loaded component: the
    fields are cleared, the three filtered layers carry no filter and the
    count is the size of the store. *)
Lemma clearFilter_restores (c : Component) (m : MapObj) :
  mapObj c = Some m ->
  isDataLoaded c = true ->
  let c' := clearFilter c in
  filterKeyword c' = [] /\ selectedPeriod c' = 0 /\ selectedCategories c' = []
  /\ criterionActive c' = false
  /\ currentVisiblePOIs c' = len (poiData c)
  /\ poiData c' = poiData c
  /\ exists m', mapObj c' = Some m'
       /\ layerFilter m' !! "poi-points" = None
       /\ layerFilter m' !! "poi-heat" = None
       /\ layerFilter m' !! "poi-text" = None
       /\ layerFilter m' !! "poi-pseudo" = layerFilter m !! "poi-pseudo".
Proof.
  intros Hm Hloaded. unfold clearFilter. simpl. rewrite Hm, Hloaded. simpl.
  repeat split. eexists. split; [reflexivity|].
  repeat split; by simplify_map_eq.
Qed.

(** [applyFilter] with every field cleared removes the three filters and
    leaves [currentVisiblePOIs] as it was. *)
Lemma applyFilter_cleared (now : Z) (rendered : list Feature)
    (c : Component) (m : MapObj) :
  mapObj c = Some m ->
  isDataLoaded c = true ->
  criterionActive c = false ->
  let c' := applyFilter toLowerCase now rendered c in
  currentVisiblePOIs c' = currentVisiblePOIs c
  /\ exists m', mapObj c' = Some m'
       /\ layerFilter m' !! "poi-points" = None
       /\ layerFilter m' !! "poi-heat" = None
       /\ layerFilter m' !! "poi-text" = None
       /\ layerFilter m' !! "poi-pseudo" = layerFilter m !! "poi-pseudo".
Proof.
  intros Hm Hloaded Hactive. unfold applyFilter.
  rewrite Hm, Hloaded, Hactive. simpl negb. cbv iota.
  destruct (updateCenterPOIs_frame rendered (clearAllFilters c))
    as [-> [-> _]].
  unfold clearAllFilters. rewrite Hm. simpl. split; [reflexivity|].
  eexists. split; [reflexivity|]. repeat split; by simplify_map_eq.
Qed.

(** C8. [updateCenterPOIs] changes neither the layer filters, nor the
    store, nor the count and the features the filter matches; on the loaded
    component it keeps the first 99 features of the viewport query for the
    list and reports the size of the whole query result, which exceeds the
    list when more than 99 features are in the box. *)
Theorem updateCenterPOIs_cap (now : Z) (rendered : list Feature)
    (c : Component) :
  let c' := updateCenterPOIs rendered c in
  mapObj c' = mapObj c
  /\ poiData c' = poiData c
  /\ currentVisiblePOIs c' = currentVisiblePOIs c
  /\ matchingFeatures toLowerCase now c' = matchingFeatures toLowerCase now c
  /\ (forall m, mapObj c = Some m -> isDataLoaded c = true ->
      centerPOIs c' = take 99 rendered
      /\ len (centerPOIs c') = Z.min 99 (len rendered)
      /\ totalPOICount c' = len rendered
      /\ (99 < len rendered -> len (centerPOIs c') < totalPOICount c')).
Proof.
  intros c'.
  destruct (updateCenterPOIs_frame rendered c)
    as [Hm [Hv [Hp [_ [Hk [Hper Hcat]]]]]].
  fold c' in Hm, Hv, Hp, Hk, Hper, Hcat.
  split; [exact Hm|]. split; [exact Hp|]. split; [exact Hv|]. split.
  - unfold matchingFeatures. rewrite Hk, Hper, Hcat, Hp. reflexivity.
  - intros m Hmap Hloaded.
    assert (Hc' : c' = set_centerPOIs (take 99 rendered)
                         (set_totalPOICount (len rendered) c)).
    { unfold c', updateCenterPOIs. rewrite Hmap, Hloaded. reflexivity. }
    assert (Hlen : len (take 99 rendered) = Z.min 99 (len rendered)).
    { unfold len. rewrite length_take. lia. }
    rewrite Hc'. simpl. rewrite Hlen. repeat split; try reflexivity. lia.
Qed.

(** With every feature of the store carrying a [fid], a match expression
    handed to the layers never has an empty id list. *)
Lemma matchingFids_nonempty (now : Z) (c : Component) :
  (forall f, In f (poiData c) -> exists p i, properties f = Some p /\ fid p = Some i) ->
  matchingFeatures toLowerCase now c <> [] ->
  matchingFids (matchingFeatures toLowerCase now c) <> [].
Proof.
  intros Hfid Hne.
  destruct (matchingFeatures toLowerCase now c) as [|f fs] eqn:E; [done|].
  assert (Hin : In f (poiData c)).
  { assert (H : In f (matchingFeatures toLowerCase now c))
      by (rewrite E; left; reflexivity).
    unfold matchingFeatures in H. apply filter_In in H. tauto. }
  destruct (Hfid f Hin) as [p [i [Hp Hi]]].
  unfold matchingFids. simpl. rewrite Hp. simpl. rewrite Hi. done.
Qed.

(** [applyFilter] leaves the store and the fields of the filter state as
    they are. *)
Lemma applyFilter_frame (now : Z) (rendered : list Feature) (c : Component) :
  let c' := applyFilter toLowerCase now rendered c in
  poiData c' = poiData c
  /\ filterKeyword c' = filterKeyword c
  /\ selectedPeriod c' = selectedPeriod c
  /\ selectedCategories c' = selectedCategories c
  /\ isDataLoaded c' = isDataLoaded c.
Proof.
  unfold applyFilter.
  destruct (mapObj c) as [m|] eqn:Hm; [|done].
  destruct (isDataLoaded c) eqn:Hl; simpl negb; cbv iota zeta;
    [|repeat split; exact Hl].
  match goal with
  | |- context [updateCenterPOIs rendered ?x] =>
    destruct (updateCenterPOIs_frame rendered x)
      as [_ [_ [-> [-> [-> [-> ->]]]]]]
  end.
  destruct (criterionActive c); unfold applyCombinedFilter, clearAllFilters;
    rewrite ?Hm; simpl; repeat split; exact Hl.
Qed.

(** No function of the component sets a filter on [poi-pseudo]: the two
    that call [setFilter] leave that layer's filter as it is. *)
Lemma poi_pseudo_untouched (now : Z) (rendered : list Feature) (c : Component) :
  let pseudo c := mapObj c ≫= fun m => layerFilter m !! "poi-pseudo" in
  pseudo (applyFilter toLowerCase now rendered c) = pseudo c
  /\ pseudo (clearFilter c) = pseudo c.
Proof.
  cbv zeta. split.
  - unfold applyFilter.
    destruct (mapObj c) as [m|] eqn:Hm; [|by rewrite Hm].
    destruct (isDataLoaded c) eqn:Hl; simpl negb; cbv iota;
      [|by rewrite Hm].
    match goal with
    | |- context [updateCenterPOIs rendered ?x] =>
      destruct (updateCenterPOIs_frame rendered x) as [-> _]
    end.
    destruct (criterionActive c); unfold applyCombinedFilter, clearAllFilters;
      rewrite ?Hm; simpl; [destruct (len _ >? 0)|]; simpl;
      by simplify_map_eq.
  - unfold clearFilter. simpl.
    destruct (mapObj c) as [m|] eqn:Hm; [|by simpl; rewrite Hm].
    destruct (isDataLoaded c); simpl; [by simplify_map_eq | by rewrite Hm].
Qed.

(** The category chips keep the selection inside the category table. *)
Lemma toggleCategory_known (now : Z) (rendered : list Feature)
    (categoryId : jsstring) (c : Component) :
  (exists category, In category categoryOptions /\ id category = categoryId) ->
  (forall i, In i (selectedCategories c) ->
     exists category, In category categoryOptions /\ id category = i) ->
  forall i,
    In i (selectedCategories
            (toggleCategory toLowerCase now rendered categoryId c)) ->
    exists category, In category categoryOptions /\ id category = i.
Proof.
  intros Hid Hsel i. unfold toggleCategory.
  match goal with
  | |- context [applyFilter toLowerCase now rendered ?x] =>
    destruct (applyFilter_frame now rendered x) as [_ [_ [_ [-> _]]]]
  end.
  destruct (bool_decide (categoryId ∈ selectedCategories c)); simpl.
  - intros Hi. apply filter_In in Hi as [Hi _]. auto.
  - intros Hi. apply in_app_or in Hi as [Hi | [<- | []]]; auto.
Qed.

End ApplyFilterFacts.

(** ** Whitespace around the keyword *)

Section KeywordWhitespace.

Variable toLowerCase : jsstring -> jsstring.

(** Lower-casing leaves the whitespace at the two ends of a string in
    place. *)
Hypothesis toLowerCase_pad : forall l s r : jsstring,
  forallb isWhiteSpace l = true -> forallb isWhiteSpace r = true ->
  toLowerCase (l ++ s ++ r) = l ++ toLowerCase s ++ r.

Lemma normalizedKeyword_pad (l s r : jsstring) :
  forallb isWhiteSpace l = true -> forallb isWhiteSpace r = true ->
  normalizedKeyword toLowerCase (l ++ s ++ r)
  = normalizedKeyword toLowerCase s.
Proof.
  intros Hl Hr. unfold normalizedKeyword.
  rewrite toLowerCase_pad by assumption. apply trim_pad; assumption.
Qed.

(** C10. Whitespace before and after the keyword changes neither whether
    a criterion is set, nor the features the filter matches, nor anything
    [applyFilter] does; and with a keyword of whitespace only, no period and
    no category, no criterion is set, so that [applyFilter] on the loaded
    component takes the [clearAllFilters] branch: the three layers the
    engine filters carry no filter afterwards, [poi-pseudo] is as it was,
    and no match set is computed. *)
Theorem applyFilter_keyword_whitespace (now : Z) (rendered : list Feature)
    (c : Component) (l s r w : jsstring) :
  forallb isWhiteSpace l = true ->
  forallb isWhiteSpace r = true ->
  forallb isWhiteSpace w = true ->
  let padded := set_filterKeyword (l ++ s ++ r) c in
  let plain := set_filterKeyword s c in
  let blank := set_filterKeyword w c in
  criterionActive padded = criterionActive plain
  /\ matchingFeatures toLowerCase now padded
     = matchingFeatures toLowerCase now plain
  /\ applyFilter toLowerCase now rendered padded
     = set_filterKeyword (l ++ s ++ r)
         (applyFilter toLowerCase now rendered plain)
  /\ (selectedPeriod c = 0 -> selectedCategories c = [] ->
      criterionActive blank = false
      /\ forall m, mapObj c = Some m -> isDataLoaded c = true ->
         applyFilter toLowerCase now rendered blank
         = updateCenterPOIs rendered (clearAllFilters blank)
         /\ currentVisiblePOIs (applyFilter toLowerCase now rendered blank)
            = currentVisiblePOIs c
         /\ exists m',
              mapObj (applyFilter toLowerCase now rendered blank) = Some m'
              /\ layerFilter m' !! "poi-points" = None
              /\ layerFilter m' !! "poi-heat" = None
              /\ layerFilter m' !! "poi-text" = None
              /\ layerFilter m' !! "poi-pseudo"
                 = layerFilter m !! "poi-pseudo").
Proof.
  intros Hl Hr Hw padded plain blank.
  assert (Hactive : criterionActive padded = criterionActive plain).
  { unfold criterionActive, padded, plain. simpl.
    rewrite trim_pad by assumption. reflexivity. }
  assert (Hmatch : matchingFeatures toLowerCase now padded
                   = matchingFeatures toLowerCase now plain).
  { unfold matchingFeatures, padded, plain. simpl.
    rewrite normalizedKeyword_pad by assumption. reflexivity. }
  split; [exact Hactive|]. split; [exact Hmatch|]. split.
  - unfold applyFilter. rewrite Hactive.
    unfold applyCombinedFilter. rewrite Hmatch.
    unfold padded, plain, clearAllFilters, updateCenterPOIs. simpl.
    destruct (mapObj c) as [m|] eqn:Hm; [|reflexivity].
    destruct (isDataLoaded c) eqn:Hloaded; [|reflexivity]. simpl.
    destruct (criterionActive (set_filterKeyword s c)); simpl;
      rewrite ?Hloaded; reflexivity.
  - intros Hperiod Hcats.
    assert (Hblank : criterionActive blank = false).
    { unfold criterionActive, blank. simpl.
      rewrite trim_all_ws by assumption. rewrite Hperiod, Hcats. reflexivity. }
    split; [exact Hblank|]. intros m Hm Hloaded.
    assert (Hm' : mapObj blank = Some m) by exact Hm.
    assert (Hl' : isDataLoaded blank = true) by exact Hloaded.
    destruct (applyFilter_cleared toLowerCase now rendered blank m Hm' Hl' Hblank)
      as [Hcount [m' [E [P [H T]]]]].
    split.
    + unfold applyFilter. rewrite Hm', Hl', Hblank. reflexivity.
    + split; [exact Hcount|]. exists m'. destruct T. auto.
Qed.

End KeywordWhitespace.

(** ** The engine at concrete inputs *)

(** C3, counterexample. With ["zzz"] in the filter box and one loaded
    feature named ["Ramen"], a criterion is set and nothing matches, yet
    after [applyFilter] the layer [poi-pseudo] carries no sentinel: it has
    no filter and the feature passes it. *)
Lemma applyFilter_pseudo_layer_unfiltered :
  let c := set_filterKeyword (js "zzz") (loaded [poi 1 "Ramen"]) in
  ~ (criterionActive c = true ->
     matchingFeatures ascii_toLowerCase 0 c = [] ->
     forall m', mapObj (applyFilter ascii_toLowerCase 0 [] c) = Some m' ->
     forall layer, In layer layers ->
     forall f, In f (poiData c) -> passesLayer m' layer f = false).
Proof.
  intros c H.
  specialize (H eq_refl eq_refl _ eq_refl "poi-pseudo"%string
                (or_introl eq_refl) (poi 1 "Ramen") (or_introl eq_refl)).
  vm_compute in H. discriminate H.
Qed.

(** C3 at an instance: ["zzz"] against one loaded feature named ["Ramen"]. *)
Lemma applyFilter_no_match_witness :
  let c := set_filterKeyword (js "zzz") (loaded [poi 1 "Ramen"]) in
  exists m',
    mapObj (applyFilter ascii_toLowerCase 0 [] c) = Some m'
    /\ layerFilter m' !! "poi-points" = Some noResultFilter
    /\ layerFilter m' !! "poi-heat" = Some noResultFilter
    /\ layerFilter m' !! "poi-text" = Some noResultFilter
    /\ layerFilter m' !! "poi-pseudo" = None.
Proof.
  intros c.
  destruct (applyFilter_no_match ascii_toLowerCase 0 [] c
              (mkMapObj (Some PoiDataObject) [1] ∅)
              eq_refl eq_refl eq_refl eq_refl)
    as [m' [E [P [H [T [S _]]]]]].
  exists m'. repeat split; assumption.
Defined.

(** C7, the failing run. Two features are loaded; typing ["cafe"] into the
    filter box and deleting it again leaves every field of the filter
    state cleared and every layer without a filter, so both features are
    drawn, but [currentVisiblePOIs] still holds the 1 of the keyword
    filter, not the 2 of the store. *)
Lemma cleared_by_input_stale_count :
  let c0 := loaded [poi 1 "Kashiwa Cafe"; poi 2 "Ramen"] in
  let c1 := inputKeyword ascii_toLowerCase 0 [] (js "cafe") c0 in
  let c2 := inputKeyword ascii_toLowerCase 0 [] (js "") c1 in
  currentVisiblePOIs c1 = 1
  /\ filterKeyword c2 = [] /\ selectedPeriod c2 = 0
  /\ selectedCategories c2 = []
  /\ (layerFilter <$> mapObj c2) = Some ∅
  /\ len (poiData c2) = 2
  /\ currentVisiblePOIs c2 = 1
  /\ currentVisiblePOIs (clearFilter c1) = 2.
Proof. vm_compute. repeat split; reflexivity. Qed.

(** C8 at an instance: 100 features around the map centre. *)
Lemma updateCenterPOIs_cap_witness :
  let c := loaded [poi 1 "Ramen"] in
  let rendered := replicate 100 (poi 1 "Ramen") in
  let c' := updateCenterPOIs rendered c in
  len (centerPOIs c') = 99 /\ totalPOICount c' = 100
  /\ mapObj c' = mapObj c.
Proof.
  intros c rendered c'.
  destruct (updateCenterPOIs_cap ascii_toLowerCase 0 rendered c)
    as [M [_ [_ [_ H]]]].
  destruct (H (mkMapObj (Some PoiDataObject) [1] ∅) eq_refl eq_refl)
    as [_ [L [T _]]].
  split; [exact L|]. split; [exact T | exact M].
Defined.

(** C10 at an instance: [" Cafe "] against ["Cafe"], and a keyword of an
    ideographic space and a tab. *)
Lemma applyFilter_keyword_whitespace_witness :
  let c := loaded [poi 1 "Kashiwa Cafe"; poi 2 "Ramen"] in
  applyFilter ascii_toLowerCase 0 [] (set_filterKeyword (js " Cafe ") c)
  = set_filterKeyword (js " Cafe ")
      (applyFilter ascii_toLowerCase 0 [] (set_filterKeyword (js "Cafe") c))
  /\ criterionActive (set_filterKeyword [0x3000; 0x9]%N c) = false.
Proof.
  intros c.
  destruct (applyFilter_keyword_whitespace ascii_toLowerCase
              ascii_toLowerCase_pad 0 [] c
              (js " ") (js "Cafe") (js " ") [0x3000; 0x9]%N
              eq_refl eq_refl eq_refl)
    as [_ [_ [A B]]].
  split; [exact A | exact (proj1 (B eq_refl eq_refl))].
Defined.

(** ** The loader *)

Lemma len_app {A} (l1 l2 : list A) : len (l1 ++ l2) = len l1 + len l2.
Proof. unfold len. rewrite length_app. lia. Qed.

Lemma len_nonneg {A} (l : list A) : 0 <= len l.
Proof. unfold len. lia. Qed.

(** One turn of the loop. *)
Lemma onFeature_spec (N : Z) (c : Component) (feature : Feature) (m : MapObj) :
  mapObj c = Some m ->
  is_some (sourceData m) = true ->
  let L := len (poiData c) + 1 in
  let c' := onFeature N c feature in
  poiData c' = poiData c ++ [feature]
  /\ loadingProgress c'
     = (if N >? 0 then progressOf L N else loadingProgress c)
  /\ dispatched c'
     = dispatched c
       ++ (if N >? 0 then [mkProgressEvent L N None] else [])
  /\ mapObj c'
     = Some (if flushDue N L
             then mkMapObj (Some PoiDataObject)
                           (setDataLog m ++ [L]) (layerFilter m)
             else m)
  /\ isDataLoaded c' = isDataLoaded c
  /\ currentVisiblePOIs c' = currentVisiblePOIs c.
Proof.
  intros Hm Hsrc L c'. unfold c', onFeature. simpl.
  rewrite len_app. change (len [feature]) with 1. fold L.
  destruct (sourceData m) as [d|] eqn:Hd; [|discriminate].
  destruct (N >? 0) eqn:HN; simpl; rewrite ?len_app;
    change (len [feature]) with 1; fold L;
    destruct (flushDue N L) eqn:HF; unfold updateMapData; simpl;
    rewrite ?Hm, ?Hd; simpl; rewrite ?app_nil_r, ?len_app;
    repeat split; reflexivity.
Qed.

Lemma map_seq_shift (L : Z) (n : nat) :
  map (fun i => L + Z.of_nat i) (seq 1 (S n))
  = (L + 1) :: map (fun i => (L + 1) + Z.of_nat i) (seq 1 n).
Proof.
  simpl. f_equal. rewrite <- seq_shift, map_map.
  apply map_ext. intros i. lia.
Qed.

(** The loop over the records. *)
Lemma consume_spec (N : Z) (records : list Feature) :
  forall (c : Component) (m : MapObj),
  mapObj c = Some m ->
  is_some (sourceData m) = true ->
  let c' := consume N records c in
  poiData c' = poiData c ++ records
  /\ isDataLoaded c' = isDataLoaded c
  /\ currentVisiblePOIs c' = currentVisiblePOIs c
  /\ exists m', mapObj c' = Some m'
       /\ is_some (sourceData m') = true
       /\ layerFilter m' = layerFilter m
       /\ setDataLog m'
          = setDataLog m
            ++ List.filter (flushDue N)
                 (map (fun i => len (poiData c) + Z.of_nat i)
                      (seq 1 (length records))).
Proof.
  induction records as [|feature records IH]; intros c m Hm Hsrc; cbv zeta.
  - simpl. rewrite !app_nil_r. repeat split. by exists m.
  - cbn [consume fold_left]. fold (consume N records (onFeature N c feature)).
    destruct (onFeature_spec N c feature m Hm Hsrc)
      as [Hp [_ [_ [Hm1 [Hl1 Hv1]]]]].
    set (c1 := onFeature N c feature) in *.
    set (L := len (poiData c) + 1) in *.
    assert (Hsrc1 : is_some (sourceData
              (if flushDue N L
               then mkMapObj (Some PoiDataObject)
                             (setDataLog m ++ [L]) (layerFilter m)
               else m)) = true)
      by (destruct (flushDue N L); [reflexivity | exact Hsrc]).
    destruct (IH c1 _ Hm1 Hsrc1) as [Hp' [Hl' [Hv' [m' [Hm' [Hs' [Hf' Hlog']]]]]]].
    rewrite Hp', Hp, <- app_assoc, Hl', Hl1, Hv', Hv1.
    repeat split. exists m'. split; [exact Hm'|]. split; [exact Hs'|].
    split.
    + rewrite Hf'. destruct (flushDue N L); reflexivity.
    + rewrite Hlog'. change (length (feature :: records)) with (S (length records)).
      rewrite map_seq_shift. cbn [List.filter]. rewrite Hp, len_app.
      change (len [feature]) with 1. fold L.
      destruct (flushDue N L); simpl; rewrite <- ?app_assoc; reflexivity.
Qed.

Lemma consume_app (N : Z) (r1 r2 : list Feature) (c : Component) :
  consume N (r1 ++ r2) c = consume N r2 (consume N r1 c).
Proof. unfold consume. apply fold_left_app. Qed.

Lemma flushDue_claimed (N c : Z) :
  0 < c -> flushDue N c = (c mod 256 =? 0) || (c =? N).
Proof.
  intros Hc. unfold flushDue.
  destruct (c =? N) eqn:E.
  - apply Z.eqb_eq in E. subst N.
    assert (H : (c >? 0) = true) by lia. rewrite H. simpl.
    by rewrite orb_true_r.
  - by rewrite andb_false_r, orb_false_r.
Qed.

Lemma flushCounts_claimed (N : Z) (n : nat) :
  flushCounts N n
  = List.filter (fun c => (c mod 256 =? 0) || (c =? N)) (map Z.of_nat (seq 1 n)).
Proof.
  unfold flushCounts. apply filter_ext_in. intros c Hc.
  apply in_map_iff in Hc as [i [<- Hi]]. apply in_seq in Hi.
  apply flushDue_claimed. lia.
Qed.

(** The catch block does not throw. *)
Lemma onLoadError_returns (e : Thrown) (c : Component) :
  onLoadError e c
  = (Returned tt,
     dispatch (mkProgressEvent 0 0
                 (Some match e with
                       | ErrorObject message => message
                       | NotAnError => DefaultMessage
                       end))
              (set_isDataLoaded true c)).
Proof. reflexivity. Qed.

(** No fault leaves [loadPOIData], whatever the state it starts in. *)
Lemma loadPOIData_returns (r : FetchResult) (c : Component) :
  exists c', loadPOIData r c = (Returned tt, c').
Proof.
  unfold loadPOIData, tryCatch.
  destruct (tryLoad r c) as [[[]|e] c1].
  - eexists. reflexivity.
  - rewrite onLoadError_returns. eexists. reflexivity.
Qed.

(** What [loadPOIData] leaves behind, started on the mounted component. *)
Lemma loadPOIData_spec (r : FetchResult) :
  exists c' m',
    loadPOIData r mountedComponent = (Returned tt, c')
    /\ poiData c' = decodedRecords r
    /\ isDataLoaded c' = true
    /\ mapObj c' = Some m'
    /\ layerFilter m' = ∅
    /\ setDataLog m'
       = flushCounts (declaredTotal r) (length (decodedRecords r))
    /\ sourceData m' = Some PoiDataObject
    /\ match caughtBy r with
       | None => currentVisiblePOIs c' = len (decodedRecords r)
       | Some e =>
         currentVisiblePOIs c' = 0
         /\ exists before,
              dispatched c'
              = before
                ++ [mkProgressEvent 0 0
                      (Some match e with
                            | ErrorObject message => message
                            | NotAnError => DefaultMessage
                            end)]
       end.
Proof.
  destruct r as [e | [isOk st [[e | meta records failure]|]]];
    [ | destruct isOk | destruct isOk; [shelve|] | destruct isOk ];
    (eexists; eexists; split; [apply onLoadError_returns|]; simpl;
     repeat split; try reflexivity; by exists []).
  Unshelve.
  set (N := totalFeaturesOf meta).
  set (c0 := onHeader N mountedComponent).
  assert (Hm0 : mapObj c0 = Some (mkMapObj (Some PoiDataObject) [] ∅))
    by (unfold c0, onHeader; destruct (N >? 0); reflexivity).
  assert (Hp0 : poiData c0 = [])
    by (unfold c0, onHeader; destruct (N >? 0); reflexivity).
  assert (Hv0 : currentVisiblePOIs c0 = 0)
    by (unfold c0, onHeader; destruct (N >? 0); reflexivity).
  destruct (consume_spec N records c0 _ Hm0 eq_refl)
    as [Hp [Hl [Hv [m' [Hm' [Hs' [Hf' Hlog']]]]]]].
  rewrite Hp0 in Hp, Hlog'. simpl in Hp, Hlog'.
  set (c1 := consume N records c0) in *.
  assert (Hlog : setDataLog m' = flushCounts N (length records)).
  { rewrite Hlog'. unfold flushCounts. f_equal. }
  assert (Hsrc : sourceData m' = Some PoiDataObject)
    by (destruct (sourceData m') as [[]|]; [reflexivity | discriminate]).
  destruct failure as [e|].
  - exists (dispatch (mkProgressEvent 0 0
                       (Some match e with
                             | ErrorObject message => message
                             | NotAnError => DefaultMessage
                             end))
              (set_isDataLoaded true c1)), m'.
    split; [reflexivity|]. simpl.
    repeat split; try assumption.
    + congruence.
    + eexists. reflexivity.
  - exists (set_currentVisiblePOIs (len (poiData c1)) (set_isDataLoaded true c1)), m'.
    split; [reflexivity|]. simpl.
    repeat split; try assumption.
    by rewrite Hp.
Qed.

(** ** The progress value *)

Lemma progressOf_mono (c c' N : Z) :
  0 < c -> 0 < N -> c <= c' -> progressOf c N <= progressOf c' N.
Proof.
  intros Hc HN Hle. unfold progressOf, F64.Math_floor.
  apply Qfloor_resp_le. apply F64Facts.percent_mono; assumption.
Qed.

Lemma progressOf_full (N : Z) : 0 < N -> progressOf N N = 100.
Proof.
  intros HN. unfold progressOf, F64.Math_floor.
  rewrite (F64Facts.percent_full N HN). reflexivity.
Qed.

Lemma progressOf_partial (c N : Z) :
  0 < c -> c < N -> N <= 2 ^ 53 -> progressOf c N < 100.
Proof.
  intros Hc Hlt HN. unfold progressOf.
  apply F64Facts.floor_lt_Z. apply F64Facts.percent_partial; assumption.
Qed.

Lemma progressOf_range (c N : Z) :
  0 < c -> c <= N -> 0 <= progressOf c N <= 100.
Proof.
  intros Hc Hle. split.
  - unfold progressOf. apply F64Facts.floor_ge_Z.
    apply Qlt_le_weak. apply F64Facts.percent_pos; lia.
  - rewrite <- (progressOf_full N) by lia. apply progressOf_mono; lia.
Qed.

Lemma progressOf_near (c N : Z) :
  0 < c <= 2 ^ 44 -> 0 < N ->
  c * 100 / N - 1 <= progressOf c N <= c * 100 / N.
Proof. intros Hc HN. apply F64Facts.floor_percent_near; assumption. Qed.

Lemma updateMapData_frame (c : Component) :
  poiData (updateMapData c) = poiData c
  /\ loadingProgress (updateMapData c) = loadingProgress c.
Proof.
  unfold updateMapData. destruct (mapObj c) as [m|]; [|done].
  by destruct (sourceData m).
Qed.

Lemma onFeature_progress (N : Z) (c : Component) (feature : Feature) :
  poiData (onFeature N c feature) = poiData c ++ [feature]
  /\ loadingProgress (onFeature N c feature)
     = if N >? 0 then progressOf (len (poiData c) + 1) N
       else loadingProgress c.
Proof.
  unfold onFeature.
  match goal with
  | |- context [if flushDue ?a ?b then updateMapData ?x else ?x] =>
    destruct (updateMapData_frame x) as [E1 E2];
    assert (H1 : poiData (if flushDue a b then updateMapData x else x) = poiData x)
      by (destruct (flushDue a b); [exact E1 | reflexivity]);
    assert (H2 : loadingProgress (if flushDue a b then updateMapData x else x)
                 = loadingProgress x)
      by (destruct (flushDue a b); [exact E2 | reflexivity])
  end.
  rewrite H1, H2. clear.
  destruct (N >? 0); simpl; rewrite ?len_app; by change (len [feature]) with 1.
Qed.

Lemma consume_progress (N : Z) (records : list Feature) (c : Component) :
  poiData (consume N records c) = poiData c ++ records
  /\ loadingProgress (consume N records c)
     = if (N >? 0) && negb (len records =? 0)
       then progressOf (len (poiData c) + len records) N
       else loadingProgress c.
Proof.
  induction records as [|feature records IH] using rev_ind.
  - simpl. rewrite app_nil_r, andb_false_r. done.
  - rewrite consume_app. cbn [consume fold_left].
    destruct (onFeature_progress N (consume N records c) feature) as [-> ->].
    destruct IH as [-> IH]. rewrite <- app_assoc. split; [reflexivity|].
    rewrite !len_app. change (len [feature]) with 1.
    pose proof (len_nonneg records).
    destruct (N >? 0); simpl; [|by rewrite IH].
    assert (E : (len records + 1 =? 0) = false) by lia. rewrite E. simpl.
    f_equal. lia.
Qed.

Lemma len_take {A} (i : nat) (l : list A) :
  len (take i l) = Z.min (Z.of_nat i) (len l).
Proof. unfold len. rewrite length_take. lia. Qed.

(** C4. Started on the mounted component with a stream whose header
    declares [N] features, the loader calls [setData] after its [c]-th
    record exactly when [c mod 256 = 0] or [c = N], once each and in order;
    for [N = 1000] and 1000 records, at 256, 512, 768 and 1000. *)
Theorem flush_cadence (status : Z) (meta : option HeaderMeta)
    (records : list Feature) (failure : option Thrown) :
  let N := totalFeaturesOf meta in
  let c' :=
    snd (loadPOIData
           (Resolved (mkResponse true status
                        (Some (Records meta records failure))))
           mountedComponent) in
  (setDataLog <$> mapObj c')
  = Some (List.filter (fun c => (c mod 256 =? 0) || (c =? N))
                      (map Z.of_nat (seq 1 (length records))))
  /\ (N = 1000 -> length records = 1000%nat ->
      (setDataLog <$> mapObj c') = Some [256; 512; 768; 1000]).
Proof.
  intros N c'.
  destruct (loadPOIData_spec
              (Resolved (mkResponse true status
                           (Some (Records meta records failure)))))
    as [c1 [m1 [Hrun [_ [_ [Hm [_ [Hlog _]]]]]]]].
  assert (E : (setDataLog <$> mapObj c')
              = Some (List.filter (fun c => (c mod 256 =? 0) || (c =? N))
                        (map Z.of_nat (seq 1 (length records))))).
  { unfold c'. rewrite Hrun. simpl. rewrite Hm. simpl. f_equal.
    rewrite Hlog. apply flushCounts_claimed. }
  split; [exact E|].
  intros HN Hlen. rewrite E, HN, Hlen. reflexivity.
Qed.

(** C4 at an instance: 1000 records of a stream that declares 1000. *)
Lemma flush_cadence_witness :
  (setDataLog
   <$> mapObj (snd (loadPOIData
                      (streamOf 1000 (replicate 1000 (poi 1 "Ramen")) None)
                      mountedComponent)))
  = Some [256; 512; 768; 1000].
Proof.
  exact (proj2 (flush_cadence 200 (Some (mkHeaderMeta (Some 1000)))
                  (replicate 1000 (poi 1 "Ramen")) None)
               eq_refl eq_refl).
Defined.

(** C5, as amended. After each decoded record, when the declared total
    is positive, [loadingProgress] is [Math.floor] of the binary64 value of
    [(length / total) * 100]: the exact [floor(100 * length / total)] or one
    less, within [0, 100] as long as the length does not exceed the total,
    and not clamped beyond. When the total is zero or unknown the value is
    left as it was and no quotient is formed. *)
Theorem loadingProgress_update (meta : option HeaderMeta) (c : Component)
    (feature : Feature) :
  let N := totalFeaturesOf meta in
  let c' := onFeature N c feature in
  let n := len (poiData c') in
  (0 < N ->
   loadingProgress c' = progressOf n N
   /\ (n <= 2 ^ 44 -> n * 100 / N - 1 <= loadingProgress c' <= n * 100 / N)
   /\ (n <= N -> 0 <= loadingProgress c' <= 100))
  /\ (N <= 0 -> loadingProgress c' = loadingProgress c)
  /\ (meta = None \/ featuresCount <$> meta = Some None
      \/ featuresCount <$> meta = Some (Some 0) -> N = 0).
Proof.
  intros N c' n.
  destruct (onFeature_progress N c feature) as [Hp Hl].
  assert (Hn : n = len (poiData c) + 1).
  { unfold n, c'. rewrite Hp, len_app. reflexivity. }
  pose proof (len_nonneg (poiData c)) as Hpos.
  split; [|split].
  - intros HN. assert (E : (N >? 0) = true) by lia.
    unfold c'. rewrite Hl, E, <- Hn. split; [reflexivity|]. split.
    + intros Hb. apply progressOf_near; lia.
    + intros Hb. apply progressOf_range; lia.
  - intros HN. assert (E : (N >? 0) = false) by lia.
    unfold c'. rewrite Hl, E. reflexivity.
  - unfold N, totalFeaturesOf.
    intros [-> | [H | H]]; [reflexivity | |];
      destruct meta as [[[z|]]|]; simpl in *; congruence.
Qed.

(** C5 at an instance: the second of four declared records. *)
Lemma loadingProgress_update_witness :
  loadingProgress
    (onFeature 4 (loaded [poi 1 "Ramen"]) (poi 2 "Kashiwa Cafe")) = 50.
Proof.
  destruct (loadingProgress_update (Some (mkHeaderMeta (Some 4)))
              (loaded [poi 1 "Ramen"]) (poi 2 "Kashiwa Cafe"))
    as [H _].
  destruct (H eq_refl) as [E _]. exact E.
Defined.

(** C5, counterexample. A stream that declares 2 features and yields 3
    leaves [loadingProgress] at 150, where the clamped formula gives
    100. *)
Lemma loadingProgress_not_clamped :
  let c' :=
    snd (loadPOIData
           (streamOf 2 [poi 1 "Ramen"; poi 2 "Sushi"; poi 3 "Park"] None)
           mountedComponent) in
  loadingProgress c' = 150
  /\ clampedProgress (len (poiData c')) 2 = 100
  /\ loadingProgress c' <> clampedProgress (len (poiData c')) 2.
Proof. vm_compute. repeat split; intros H; discriminate H. Qed.

(** C6. Over the decode of a stream that declares [N > 0] features ([N]
    a count a number holds exactly, at most 2^53) and yields no more than
    [N], [loadingProgress] never decreases from one record to a later one,
    and it is 100 exactly when the store holds [N] features. *)
Theorem loadingProgress_monotone (N : Z) (records : list Feature) (j k : nat) :
  0 < N <= 2 ^ 53 ->
  len records <= N ->
  (j <= k)%nat ->
  let state i := consume N (take i records) (onHeader N mountedComponent) in
  loadingProgress (state j) <= loadingProgress (state k)
  /\ (loadingProgress (state k) = 100 <-> len (poiData (state k)) = N).
Proof.
  intros [HN HN'] Hlen Hjk state.
  assert (Hc0 : poiData (onHeader N mountedComponent) = []
                /\ loadingProgress (onHeader N mountedComponent) = 0)
    by (unfold onHeader; destruct (N >? 0); done).
  destruct Hc0 as [Hp0 Hl0].
  assert (Hstate : forall i,
            poiData (state i) = take i records
            /\ loadingProgress (state i)
               = if len (take i records) =? 0 then 0
                 else progressOf (len (take i records)) N).
  { intros i. unfold state.
    destruct (consume_progress N (take i records) (onHeader N mountedComponent))
      as [-> ->].
    rewrite Hp0, Hl0. simpl. split; [reflexivity|].
    assert (E : (N >? 0) = true) by lia. rewrite E. simpl.
    destruct (len (take i records) =? 0); reflexivity. }
  destruct (Hstate j) as [_ Hlj]. destruct (Hstate k) as [Hpk Hlk].
  rewrite Hlj, Hlk, Hpk. rewrite !len_take.
  pose proof (len_nonneg records) as Hr.
  split.
  - destruct (Z.min (Z.of_nat j) (len records) =? 0) eqn:Ej;
      destruct (Z.min (Z.of_nat k) (len records) =? 0) eqn:Ek; try lia.
    + apply progressOf_range; lia.
    + apply progressOf_mono; lia.
  - destruct (Z.min (Z.of_nat k) (len records) =? 0) eqn:Ek; [lia|].
    split.
    + intros H.
      destruct (Z.eq_dec (Z.min (Z.of_nat k) (len records)) N) as [E|NE];
        [exact E|].
      pose proof (progressOf_partial (Z.min (Z.of_nat k) (len records)) N).
      lia.
    + intros ->. apply progressOf_full. exact HN.
Qed.

(** C6 at an instance: three records of three declared. *)
Lemma loadingProgress_monotone_witness :
  let records := [poi 1 "Ramen"; poi 2 "Sushi"; poi 3 "Park"] in
  let state i := consume 3 (take i records) (onHeader 3 mountedComponent) in
  loadingProgress (state 2%nat) <= loadingProgress (state 3%nat)
  /\ (loadingProgress (state 3%nat) = 100 <-> len (poiData (state 3%nat)) = 3).
Proof.
  intros records.
  apply (loadingProgress_monotone 3 records 2 3); [split | |]; try done.
  repeat constructor.
Defined.

(** C9, as amended. [loadPOIData] always returns normally. When the
    fetch is rejected, the status is not a success, the body is missing or
    the decoder throws, the thrown value is caught: the component is left
    with [isDataLoaded] set, the records decoded before the failure in the
    store, and an event carrying the error message dispatched last; no
    second fetch is part of the function. The catch block leaves the map as
    it is: the calls of [setData] are those the loop made before the
    failure, none follows it. *)
Theorem loadPOIData_failure (r : FetchResult) (e : Thrown) :
  caughtBy r = Some e ->
  (forall c, exists c', loadPOIData r c = (Returned tt, c'))
  /\ (forall c, mapObj (snd (onLoadError e c)) = mapObj c)
  /\ exists c' m',
       loadPOIData r mountedComponent = (Returned tt, c')
       /\ isDataLoaded c' = true
       /\ poiData c' = decodedRecords r
       /\ (exists before,
             dispatched c'
             = before
               ++ [mkProgressEvent 0 0
                     (Some match e with
                           | ErrorObject message => message
                           | NotAnError => DefaultMessage
                           end)])
       /\ mapObj c' = Some m'
       /\ setDataLog m'
          = flushCounts (declaredTotal r) (length (decodedRecords r)).
Proof.
  intros He. split; [|split].
  - intros c. apply loadPOIData_returns.
  - intros c. rewrite onLoadError_returns. reflexivity.
  - destruct (loadPOIData_spec r)
      as [c' [m' [Hrun [Hp [Hl [Hm [_ [Hlog [_ Hc]]]]]]]]].
    rewrite He in Hc. destruct Hc as [_ Hd].
    exists c', m'. repeat split; assumption.
Qed.

(** C9 at an instance: the connection drops after the first of two
    records. *)
Lemma loadPOIData_failure_witness :
  let r := streamOf 2 [poi 1 "Ramen"]
             (Some (ErrorObject (OtherMessage "network error"))) in
  exists c',
    loadPOIData r mountedComponent = (Returned tt, c')
    /\ isDataLoaded c' = true
    /\ poiData c' = [poi 1 "Ramen"].
Proof.
  intros r.
  destruct (loadPOIData_failure r
              (ErrorObject (OtherMessage "network error")) eq_refl)
    as [_ [_ [c' [m' [Hrun [Hl [Hp _]]]]]]].
  exists c'. split; [exact Hrun|]. split; [exact Hl | exact Hp].
Defined.

(** C9, counterexample. When the stream fails after its first record,
    the record stays in the store and [setData] is never called: the map is
    not told to read the collection again after the record was pushed, so
    the record is not handed on to be drawn. *)
Lemma failed_load_not_rendered :
  let r := streamOf 2 [poi 1 "Ramen"]
             (Some (ErrorObject (OtherMessage "network error"))) in
  let c' := snd (loadPOIData r mountedComponent) in
  poiData c' = [poi 1 "Ramen"]
  /\ isDataLoaded c' = true
  /\ (setDataLog <$> mapObj c') = Some [].
Proof. vm_compute. repeat split; reflexivity. Qed.

(** The loading screen shows 0 again once the error event arrives, and
    rounds where the component floors. *)
Lemma screenProgress_examples :
  screenProgress (mkProgressEvent 0 0 (Some NullBody)) = 0
  /\ screenProgress (mkProgressEvent 2 3 None) = 67
  /\ progressOf 2 3 = 66.
Proof. vm_compute. repeat split; reflexivity. Qed.

(** In binary64, [(29 / 100) * 100] is just below 29. *)
Lemma progressOf_29_100 : progressOf 29 100 = 28 /\ 29 * 100 / 100 = 29.
Proof. vm_compute. split; reflexivity. Qed.

(** The legacy keyword test compares without lower-casing and fails on a
    feature that lacks one of the four properties. *)
Lemma legacyMatchesKeyword_examples :
  let p name := mkProperties (Some 1) (Some (js name)) (Some []) (Some [])
                  (Some []) None None None None None in
  legacyMatchesKeyword (js "cafe") (p "Kashiwa Cafe") = Some false
  /\ legacyMatchesKeyword (js "Cafe") (p "Kashiwa Cafe") = Some true
  /\ legacyMatchesKeyword (js "cafe")
       (mkProperties (Some 1) (Some (js "Ramen")) None None None None None
          None None None) = None.
Proof. vm_compute. repeat split; reflexivity. Qed.

(** * Further properties *)

(** ** The match set *)

Lemma includes_trans (s t u : jsstring) :
  includes s t = true -> includes t u = true -> includes s u = true.
Proof.
  rewrite !includes_spec. intros [l [r ->]] [l' [r' ->]].
  exists (l ++ l'), (r' ++ r). by rewrite <- !app_assoc.
Qed.

Lemma includes_nil (s : jsstring) : includes s [] = true.
Proof. by destruct s. Qed.

Lemma filter_sublist {A} (f : A -> bool) (l : list A) :
  sublist (List.filter f l) l.
Proof.
  induction l as [|x l IH]; simpl; [constructor|].
  destruct (f x); by constructor.
Qed.

Lemma matchingFids_fidOf (fs : list Feature) : matchingFids fs = omap fidOf fs.
Proof. reflexivity. Qed.

Lemma In_matchingFids (i : Z) (fs : list Feature) :
  In i (matchingFids fs) <-> exists g, In g fs /\ fidOf g = Some i.
Proof.
  unfold matchingFids. fold fidOf. rewrite <- !list_elem_of_In, list_elem_of_omap.
  split; intros [g [H1 H2]]; exists g; by rewrite ?list_elem_of_In in *.
Qed.

Lemma evalFilter_MatchFid (ids : list Z) (f : Feature) :
  evalFilter (MatchFid ids) f = true <-> exists i, fidOf f = Some i /\ In i ids.
Proof.
  unfold evalFilter, fidOf. destruct (properties f) as [p|]; simpl.
  - destruct (fid p) as [i|]; simpl.
    + rewrite existsb_exists. split.
      * intros [j [Hin Hj]]. apply Z.eqb_eq in Hj. subst j. eauto.
      * intros [j [[= <-] Hin]]. exists i. split; [exact Hin | apply Z.eqb_refl].
    + split; [discriminate | by intros [i [? _]]].
  - split; [discriminate | by intros [i [? _]]].
Qed.

Lemma omap_sublist {A B} (h : A -> option B) (l1 l2 : list A) :
  sublist l1 l2 -> sublist (omap h l1) (omap h l2).
Proof.
  induction 1 as [|x l1 l2 _ IH|x l1 l2 _ IH]; simpl.
  - constructor.
  - destruct (h x); [by constructor | exact IH].
  - destruct (h x); [by constructor | exact IH].
Qed.

(** In a list whose ids are distinct, an id names one entry. *)
Lemma NoDup_omap_inj {A B} (h : A -> option B) (l : list A) (x y : A) (i : B) :
  NoDup (omap h l) -> In x l -> In y l -> h x = Some i -> h y = Some i ->
  x = y.
Proof.
  induction l as [|z l IH]; intros Hnd Hx Hy Ex Ey; [destruct Hx|].
  simpl in Hnd.
  assert (Hsub : forall w, In w l -> h w = Some i -> i ∈ omap h l).
  { intros w Hw Ew. apply list_elem_of_omap. exists w.
    split; [by apply list_elem_of_In | exact Ew]. }
  destruct Hx as [<- | Hx], Hy as [<- | Hy].
  - reflexivity.
  - rewrite Ex in Hnd. apply NoDup_cons in Hnd as [Hni _].
    destruct Hni. eauto.
  - rewrite Ey in Hnd. apply NoDup_cons in Hnd as [Hni _].
    destruct Hni. eauto.
  - apply IH; try assumption.
    destruct (h z); [by apply NoDup_cons in Hnd as [_ Hnd] | exact Hnd].
Qed.

Section MatchFacts.

Variable toLowerCase : jsstring -> jsstring.

Lemma In_matchingFeatures (now : Z) (c : Component) (f : Feature) :
  In f (matchingFeatures toLowerCase now c) <->
  In f (poiData c)
  /\ exists props, properties f = Some props
     /\ periodTest (selectedPeriod c) (periodTimestampOf now (selectedPeriod c))
          props = true
     /\ keywordTest toLowerCase
          (normalizedKeyword toLowerCase (filterKeyword c)) props = true
     /\ categoryTest toLowerCase
          (collectCategoryKeywords (selectedCategories c)) props = true.
Proof.
  unfold matchingFeatures. rewrite filter_In. unfold featureMatches.
  fold (periodTimestampOf now (selectedPeriod c)).
  split.
  - intros [Hin H]. split; [exact Hin|].
    destruct (properties f) as [props|]; [|discriminate].
    exists props. apply andb_true_iff in H as [H H3].
    apply andb_true_iff in H as [H1 H2]. auto.
  - intros [Hin [props [-> [H1 [H2 H3]]]]]. split; [exact Hin|].
    by rewrite H1, H2, H3.
Qed.

(** X1. The features [applyCombinedFilter] matches are features of the
    store, in store order, each with properties; there are at most as many
    as the store holds; the ids handed to the layers are ids of store
    features, in store order, and each occurs once when the ids of the
    store are distinct. *)
Theorem matchingFeatures_of_store (now : Z) (c : Component) :
  let matching := matchingFeatures toLowerCase now c in
  sublist matching (poiData c)
  /\ len matching <= len (poiData c)
  /\ (forall f, In f matching -> properties f <> None)
  /\ sublist (matchingFids matching) (omap fidOf (poiData c))
  /\ (NoDup (omap fidOf (poiData c)) -> NoDup (matchingFids matching)).
Proof.
  intros matching.
  assert (Hsub : sublist matching (poiData c)) by apply filter_sublist.
  assert (Hfid : sublist (matchingFids matching) (omap fidOf (poiData c))).
  { rewrite matchingFids_fidOf. clear -Hsub.
    induction Hsub as [|x l1 l2 _ IH|x l1 l2 _ IH]; simpl.
    - constructor.
    - destruct (fidOf x); [by constructor | exact IH].
    - destruct (fidOf x); [by constructor | exact IH]. }
  split; [exact Hsub|]. split.
  - unfold len. apply sublist_length in Hsub. lia.
  - split; [|split; [exact Hfid|]].
    + intros f Hf. apply In_matchingFeatures in Hf as [_ [props [-> _]]]. done.
    + intros Hnd. eapply sublist_NoDup; eassumption.
Qed.

Lemma applyFilter_active (now : Z) (rendered : list Feature)
    (c : Component) (m : MapObj) :
  mapObj c = Some m ->
  isDataLoaded c = true ->
  criterionActive c = true ->
  let matching := matchingFeatures toLowerCase now c in
  let c' := applyFilter toLowerCase now rendered c in
  let e := if len matching >? 0 then MatchFid (matchingFids matching)
           else noResultFilter in
  currentVisiblePOIs c' = len matching
  /\ exists m', mapObj c' = Some m'
       /\ layerFilter m' !! "poi-points" = Some e
       /\ layerFilter m' !! "poi-heat" = Some e
       /\ layerFilter m' !! "poi-text" = Some e
       /\ layerFilter m' !! "poi-pseudo" = layerFilter m !! "poi-pseudo".
Proof.
  intros Hm Hl Ha. cbv zeta. unfold applyFilter. rewrite Hm, Hl, Ha.
  simpl negb. cbv iota.
  destruct (updateCenterPOIs_frame rendered
              (applyCombinedFilter toLowerCase now m c)) as [-> [-> _]].
  unfold applyCombinedFilter. simpl. split; [reflexivity|].
  eexists. split; [reflexivity|].
  destruct (len (matchingFeatures toLowerCase now c) >? 0); simpl;
    repeat split; by simplify_map_eq.
Qed.

(** X2. On the loaded component with some criterion set, where every
    feature of the store carries a [fid] and the ids of the store are
    pairwise distinct, [applyFilter] sets on [poi-points], [poi-heat] and
    [poi-text] a filter that admits exactly the features of the store that
    match; where it is a match expression its id list is not empty and has
    no duplicates; and [currentVisiblePOIs] is the number of matching
    features. *)
Theorem applyFilter_admits_matches (now : Z) (rendered : list Feature)
    (c : Component) (m : MapObj) :
  mapObj c = Some m ->
  isDataLoaded c = true ->
  criterionActive c = true ->
  (forall f, In f (poiData c) -> exists i, fidOf f = Some i) ->
  NoDup (omap fidOf (poiData c)) ->
  let c' := applyFilter toLowerCase now rendered c in
  currentVisiblePOIs c' = len (matchingFeatures toLowerCase now c)
  /\ exists m', mapObj c' = Some m'
       /\ (forall layer ids,
            In layer ["poi-points"; "poi-heat"; "poi-text"]%string ->
            layerFilter m' !! layer = Some (MatchFid ids) ->
            ids <> [] /\ NoDup ids)
       /\ forall f layer,
            In f (poiData c) ->
            In layer ["poi-points"; "poi-heat"; "poi-text"]%string ->
            (passesLayer m' layer f = true
             <-> In f (matchingFeatures toLowerCase now c)).
Proof.
  intros Hm Hl Ha Hfid Huniq c'.
  destruct (applyFilter_active now rendered c m Hm Hl Ha)
    as [Hv [m' [Hm' [H1 [H2 [H3 _]]]]]].
  split; [exact Hv|]. exists m'. split; [exact Hm'|].
  assert (Hlookup : forall layer,
            In layer ["poi-points"; "poi-heat"; "poi-text"]%string ->
            layerFilter m' !! layer
            = Some (if len (matchingFeatures toLowerCase now c) >? 0
                    then MatchFid (matchingFids (matchingFeatures toLowerCase now c))
                    else noResultFilter))
    by (intros layer [<- | [<- | [<- | []]]]; assumption).
  clear H1 H2 H3.
  assert (Hsub : sublist (matchingFeatures toLowerCase now c) (poiData c))
    by apply filter_sublist.
  split.
  - intros layer ids Hlayer Hids. rewrite (Hlookup layer Hlayer) in Hids.
    destruct (len (matchingFeatures toLowerCase now c) >? 0) eqn:E;
      [|discriminate].
    injection Hids as <-. split.
    + apply len_pos_iff in E.
      destruct (matchingFeatures toLowerCase now c) as [|f fs] eqn:Ef; [done|].
      assert (Hf : In f (poiData c)).
      { apply list_elem_of_In. eapply elem_of_sublist; [|exact Hsub]. left. }
      destruct (Hfid f Hf) as [i Hi].
      rewrite matchingFids_fidOf. simpl. by rewrite Hi.
    + rewrite matchingFids_fidOf.
      eapply sublist_NoDup; [exact Huniq | by apply omap_sublist].
  - intros f layer Hf Hlayer.
    unfold passesLayer. rewrite (Hlookup layer Hlayer).
    destruct (len (matchingFeatures toLowerCase now c) >? 0) eqn:E.
    + rewrite evalFilter_MatchFid. split.
      * intros [i [Hi Hin]]. apply In_matchingFids in Hin as [g [Hg Hgi]].
        assert (Hgs : In g (poiData c))
          by (apply In_matchingFeatures in Hg; tauto).
        rewrite (NoDup_omap_inj fidOf (poiData c) f g i Huniq Hf Hgs Hi Hgi).
        exact Hg.
      * intros Hin. destruct (Hfid f Hf) as [i Hi]. exists i.
        split; [exact Hi|]. apply In_matchingFids. eauto.
    + apply len_nil_iff in E. rewrite E, noResultFilter_matches_nothing.
      split; [discriminate | intros []].
Qed.

(** X3. A keyword that contains another one (both lower-cased and
    trimmed) matches no feature that the other one does not match: typing on
    in the keyword box only narrows the match. *)
Theorem keyword_extension_narrows (now : Z) (c : Component)
    (shorter longer : jsstring) :
  includes (normalizedKeyword toLowerCase longer)
           (normalizedKeyword toLowerCase shorter) = true ->
  forall f,
    In f (matchingFeatures toLowerCase now (set_filterKeyword longer c)) ->
    In f (matchingFeatures toLowerCase now (set_filterKeyword shorter c)).
Proof.
  intros Hinc f. rewrite !In_matchingFeatures. simpl.
  intros [Hin [props [Hp [H1 [H2 H3]]]]]. split; [exact Hin|].
  exists props. repeat split; try assumption.
  unfold keywordTest in *.
  destruct (len (normalizedKeyword toLowerCase shorter) >? 0) eqn:Es;
    [|reflexivity].
  destruct (len (normalizedKeyword toLowerCase longer) >? 0) eqn:El.
  - unfold matchesKeyword in *. rewrite some_true in *.
    destruct H2 as [target [Ht Hi]]. exists target. split; [exact Ht|].
    eapply includes_trans; eassumption.
  - apply len_nil_iff in El. rewrite El in Hinc.
    apply len_pos_iff in Es. apply includes_spec in Hinc as [l [r E]].
    destruct l; [|discriminate]. simpl in E.
    destruct (normalizedKeyword toLowerCase shorter); [done | discriminate].
Qed.

End MatchFacts.

Lemma collectCategoryKeywords_app (s1 s2 : list jsstring) :
  collectCategoryKeywords (s1 ++ s2)
  = collectCategoryKeywords s1 ++ collectCategoryKeywords s2.
Proof. unfold collectCategoryKeywords. apply flat_map_app. Qed.

Lemma periodTimestampOf_table (now : Z) :
  periodTimestampOf now 1 = (now - 30 * 24 * 60 * 60 * 1000) / 1000
  /\ periodTimestampOf now 2 = (now - 90 * 24 * 60 * 60 * 1000) / 1000
  /\ periodTimestampOf now 3 = (now - 180 * 24 * 60 * 60 * 1000) / 1000
  /\ periodTimestampOf now 4 = (now - 365 * 24 * 60 * 60 * 1000) / 1000.
Proof. repeat split. Qed.

Section CriteriaFacts.

Variable toLowerCase : jsstring -> jsstring.

Lemma categoryTest_ext (k1 k2 : list jsstring) (props : Properties) :
  (forall kw, In kw k1 <-> In kw k2) ->
  categoryTest toLowerCase k1 props = categoryTest toLowerCase k2 props.
Proof.
  intros H. unfold categoryTest.
  destruct (len k1 >? 0) eqn:E1, (len k2 >? 0) eqn:E2.
  - unfold matchesCategory. apply eq_true_iff_eq. rewrite !some_true.
    split; intros [kw [Hin Hkw]]; exists kw; (split; [apply H; exact Hin | exact Hkw]).
  - apply len_nil_iff in E2. apply len_pos_iff in E1. subst k2.
    destruct k1 as [|kw k1]; [done|]. destruct (proj1 (H kw)). by left.
  - apply len_nil_iff in E1. apply len_pos_iff in E2. subst k1.
    destruct k2 as [|kw k2]; [done|]. destruct (proj2 (H kw)). by left.
  - reflexivity.
Qed.

(** X4. Selecting categories only narrows the match of the other
    criteria; once the selection contributes a keyword, selecting a further
    category only widens it. *)
Theorem categories_narrow_then_widen (now : Z) (c : Component)
    (categoryId : jsstring) (f : Feature) :
  (In f (matchingFeatures toLowerCase now c) ->
   In f (matchingFeatures toLowerCase now (set_selectedCategories [] c)))
  /\ (collectCategoryKeywords (selectedCategories c) <> [] ->
      In f (matchingFeatures toLowerCase now c) ->
      In f (matchingFeatures toLowerCase now
              (set_selectedCategories (selectedCategories c ++ [categoryId]) c))).
Proof.
  rewrite !In_matchingFeatures. simpl. split.
  - intros [Hin [props [Hp [H1 [H2 H3]]]]]. split; [exact Hin|].
    exists props. auto.
  - intros Hne [Hin [props [Hp [H1 [H2 H3]]]]]. split; [exact Hin|].
    exists props. repeat split; try assumption.
    rewrite collectCategoryKeywords_app. unfold categoryTest in *.
    apply len_pos_iff in Hne. rewrite Hne in H3. clear Hne.
    destruct (len _ >? 0); [|reflexivity].
    unfold matchesCategory in *. rewrite some_true in *.
    destruct H3 as [kw [Hkw H3]]. exists kw. split; [|exact H3].
    apply in_or_app. by left.
Qed.

(** X5. Among the period options 1 to 4 a longer period matches every
    feature that a shorter one matches, and so does the option 0, all
    time. *)
Theorem longer_period_widens (now : Z) (c : Component) (p1 p2 : Z) (f : Feature) :
  1 <= p1 <= p2 -> p2 <= 4 ->
  In f (matchingFeatures toLowerCase now (set_selectedPeriod p1 c)) ->
  In f (matchingFeatures toLowerCase now (set_selectedPeriod p2 c))
  /\ In f (matchingFeatures toLowerCase now (set_selectedPeriod 0 c)).
Proof.
  intros H12 H2. rewrite !In_matchingFeatures. simpl.
  intros [Hin [props [Hp [H1 [Hk Hc]]]]].
  split; (split; [exact Hin|]); exists props; repeat split; try assumption.
  unfold periodTest in *.
  destruct (periodTimestampOf_table now) as [T1 [T2 [T3 T4]]].
  assert (Hp1 : (p1 >? 0) = true) by lia.
  assert (Hp2 : (p2 >? 0) = true) by lia.
  rewrite Hp1 in H1. rewrite Hp2.
  apply negb_true_iff, Z.ltb_ge in H1. apply negb_true_iff, Z.ltb_ge.
  etransitivity; [|exact H1].
  assert (Hcases : (p1 = 1 \/ p1 = 2 \/ p1 = 3 \/ p1 = 4)
                   /\ (p2 = 1 \/ p2 = 2 \/ p2 = 3 \/ p2 = 4)) by lia.
  destruct Hcases as [[-> | [-> | [-> | ->]]] [-> | [-> | [-> | ->]]]];
    try lia; rewrite ?T1, ?T2, ?T3, ?T4; apply Z.div_le_mono; lia.
Qed.

(** X6. A feature without [date_stamp] counts as dated 0: once [now] is
    later than 365 days and a second after the epoch, none of the period
    options 1 to 4 matches it. *)
Theorem undated_hidden_by_period (now : Z) (c : Component) (f : Feature)
    (props : Properties) :
  properties f = Some props ->
  date_stamp props = None ->
  1 <= selectedPeriod c <= 4 ->
  365 * 24 * 60 * 60 * 1000 + 1000 <= now ->
  ~ In f (matchingFeatures toLowerCase now c).
Proof.
  intros Hp Hd Hsel Hnow. rewrite In_matchingFeatures.
  intros [_ [props' [Hp' [H1 _]]]]. rewrite Hp in Hp'. injection Hp' as <-.
  unfold periodTest in H1. rewrite Hd in H1. simpl in H1.
  assert (E : (selectedPeriod c >? 0) = true) by lia. rewrite E in H1.
  apply negb_true_iff, Z.ltb_ge in H1.
  destruct (periodTimestampOf_table now) as [T1 [T2 [T3 T4]]].
  assert (Hcases : selectedPeriod c = 1 \/ selectedPeriod c = 2
                   \/ selectedPeriod c = 3 \/ selectedPeriod c = 4) by lia.
  assert (Hpos : forall d, 0 <= d <= 365 ->
            1 <= (now - d * 24 * 60 * 60 * 1000) / 1000).
  { intros d Hd'. apply Z.div_le_lower_bound; lia. }
  destruct Hcases as [E' | [E' | [E' | E']]]; rewrite E' in H1;
    rewrite ?T1, ?T2, ?T3, ?T4 in H1.
  - pose proof (Hpos 30). lia.
  - pose proof (Hpos 90). lia.
  - pose proof (Hpos 180). lia.
  - pose proof (Hpos 365). lia.
Qed.

Lemma toggled_selection (now : Z) (rendered : list Feature)
    (categoryId : jsstring) (c : Component) :
  selectedCategories (toggleCategory toLowerCase now rendered categoryId c)
  = if bool_decide (categoryId ∈ selectedCategories c)
    then List.filter (fun i => negb (bool_decide (i = categoryId)))
                     (selectedCategories c)
    else selectedCategories c ++ [categoryId].
Proof.
  unfold toggleCategory.
  match goal with
  | |- context [applyFilter toLowerCase now rendered ?x] =>
    destruct (applyFilter_frame toLowerCase now rendered x) as [_ [_ [_ [-> _]]]]
  end.
  by destruct (bool_decide _).
Qed.

(** X7. [toggleCategory] flips the membership of the id in the
    selection, leaves that of every other id as it is, and keeps a selection
    without duplicates free of them. *)
Theorem toggleCategory_flips (now : Z) (rendered : list Feature)
    (categoryId : jsstring) (c : Component) :
  let c' := toggleCategory toLowerCase now rendered categoryId c in
  (In categoryId (selectedCategories c')
   <-> ~ In categoryId (selectedCategories c))
  /\ (forall i, i <> categoryId ->
        (In i (selectedCategories c') <-> In i (selectedCategories c)))
  /\ (NoDup (selectedCategories c) -> NoDup (selectedCategories c')).
Proof.
  cbv zeta. rewrite toggled_selection.
  destruct (bool_decide (categoryId ∈ selectedCategories c)) eqn:E.
  - apply bool_decide_eq_true in E. rewrite list_elem_of_In in E.
    split; [|split].
    + split.
      * intros H. apply filter_In in H as [_ H].
        apply negb_true_iff, bool_decide_eq_false in H. done.
      * intros H. contradiction.
    + intros i Hi. rewrite filter_In. split; [tauto|].
      intros H. split; [exact H|].
      apply negb_true_iff, bool_decide_eq_false. done.
    + intros H. eapply sublist_NoDup; [exact H | apply filter_sublist].
  - apply bool_decide_eq_false in E. rewrite list_elem_of_In in E.
    split; [|split].
    + split; [intros _; exact E|].
      intros _. apply in_or_app. right. by left.
    + intros i Hi. split.
      * intros H. apply in_app_or in H as [H | [H | []]]; [exact H | congruence].
      * intros H. apply in_or_app. by left.
    + intros H. apply NoDup_app. split; [exact H|]. split.
      * intros x Hx. rewrite list_elem_of_In in Hx.
        intros Hx'. apply list_elem_of_In in Hx' as [<- | []]. done.
      * apply NoDup_singleton.
Qed.

End CriteriaFacts.

Section ComposeFacts.

Variable toLowerCase : jsstring -> jsstring.

Lemma matchingFeatures_ext (now : Z) (c c' : Component) :
  poiData c' = poiData c ->
  filterKeyword c' = filterKeyword c ->
  selectedPeriod c' = selectedPeriod c ->
  (forall i, In i (selectedCategories c') <-> In i (selectedCategories c)) ->
  matchingFeatures toLowerCase now c' = matchingFeatures toLowerCase now c.
Proof.
  intros Hp Hk Hs Hc. unfold matchingFeatures. rewrite Hp, Hk, Hs.
  apply filter_ext. intros f. unfold featureMatches.
  destruct (properties f) as [props|]; [|reflexivity]. f_equal.
  apply categoryTest_ext. intros kw. rewrite !In_collectCategoryKeywords.
  split; intros [i [cat [H1 H2]]]; exists i, cat; (split; [apply Hc; exact H1 | exact H2]).
Qed.

Lemma toggleCategory_frame (now : Z) (rendered : list Feature)
    (categoryId : jsstring) (c : Component) :
  let c' := toggleCategory toLowerCase now rendered categoryId c in
  poiData c' = poiData c
  /\ filterKeyword c' = filterKeyword c
  /\ selectedPeriod c' = selectedPeriod c.
Proof.
  unfold toggleCategory.
  match goal with
  | |- context [applyFilter toLowerCase now rendered ?x] =>
    destruct (applyFilter_frame toLowerCase now rendered x)
      as [-> [-> [-> _]]]
  end.
  by destruct (bool_decide _).
Qed.

(** X8. Clicking a category chip twice leaves the same ids selected (the
    very same list when the id was not selected before) and the same
    features matching. *)
Theorem toggleCategory_twice (now1 now2 : Z) (rendered1 rendered2 : list Feature)
    (categoryId : jsstring) (c : Component) :
  let c2 := toggleCategory toLowerCase now2 rendered2 categoryId
              (toggleCategory toLowerCase now1 rendered1 categoryId c) in
  (forall i, In i (selectedCategories c2) <-> In i (selectedCategories c))
  /\ (~ In categoryId (selectedCategories c) ->
      selectedCategories c2 = selectedCategories c)
  /\ forall now,
       matchingFeatures toLowerCase now c2 = matchingFeatures toLowerCase now c.
Proof.
  intros c2.
  set (c1 := toggleCategory toLowerCase now1 rendered1 categoryId c) in *.
  assert (H2 : selectedCategories c2
               = if bool_decide (categoryId ∈ selectedCategories c1)
                 then List.filter (fun i => negb (bool_decide (i = categoryId)))
                                  (selectedCategories c1)
                 else selectedCategories c1 ++ [categoryId])
    by apply toggled_selection.
  assert (H1 : selectedCategories c1
               = if bool_decide (categoryId ∈ selectedCategories c)
                 then List.filter (fun i => negb (bool_decide (i = categoryId)))
                                  (selectedCategories c)
                 else selectedCategories c ++ [categoryId])
    by apply toggled_selection.
  assert (Hmem : forall i, In i (selectedCategories c2)
                           <-> In i (selectedCategories c)).
  { intros i. rewrite H2, H1.
    destruct (bool_decide (categoryId ∈ selectedCategories c)) eqn:E.
    - apply bool_decide_eq_true in E. rewrite list_elem_of_In in E.
      rewrite bool_decide_eq_false_2.
      + rewrite in_app_iff, filter_In, negb_true_iff, bool_decide_eq_false.
        simpl. destruct (decide (i = categoryId)) as [->|Hne].
        * split; [intros _; exact E | intros _; right; by left].
        * split; [intros [[H _] | [H | []]]; [exact H | congruence]|].
          intros H. left. split; [exact H | exact Hne].
      + rewrite list_elem_of_In, filter_In, negb_true_iff, bool_decide_eq_false.
        intros [_ H]. by apply H.
    - apply bool_decide_eq_false in E. rewrite list_elem_of_In in E.
      rewrite bool_decide_eq_true_2.
      + rewrite filter_In, in_app_iff, negb_true_iff, bool_decide_eq_false.
        simpl.
        split; [intros [[H | [H | []]] Hne]; [exact H | congruence]|].
        intros H. split; [by left | congruence].
      + rewrite list_elem_of_In. apply in_or_app. right. by left. }
  split; [exact Hmem|]. split.
  - intros Hnot. rewrite H2, H1.
    rewrite (bool_decide_eq_false_2 (categoryId ∈ selectedCategories c))
      by (by rewrite list_elem_of_In).
    rewrite bool_decide_eq_true_2
      by (rewrite list_elem_of_In; apply in_or_app; right; by left).
    rewrite List.filter_app. simpl.
    rewrite (bool_decide_eq_true_2 (categoryId = categoryId)) by reflexivity.
    simpl. rewrite app_nil_r.
    apply forallb_filter_id. apply forallb_forall. intros i Hi.
    apply negb_true_iff, bool_decide_eq_false. congruence.
  - intros now. apply matchingFeatures_ext; [| | |exact Hmem]; unfold c2, c1.
    + destruct (toggleCategory_frame now2 rendered2 categoryId
                  (toggleCategory toLowerCase now1 rendered1 categoryId c)) as [-> _].
      destruct (toggleCategory_frame now1 rendered1 categoryId c) as [-> _].
      reflexivity.
    + destruct (toggleCategory_frame now2 rendered2 categoryId
                  (toggleCategory toLowerCase now1 rendered1 categoryId c)) as [_ [-> _]].
      destruct (toggleCategory_frame now1 rendered1 categoryId c) as [_ [-> _]].
      reflexivity.
    + destruct (toggleCategory_frame now2 rendered2 categoryId
                  (toggleCategory toLowerCase now1 rendered1 categoryId c)) as [_ [_ ->]].
      destruct (toggleCategory_frame now1 rendered1 categoryId c) as [_ [_ ->]].
      reflexivity.
Qed.

Lemma delete_three_idemp (lf : gmap string FilterExpr) :
  let cleared m := delete "poi-text" (delete "poi-heat" (delete "poi-points" m)) in
  cleared (cleared lf) = cleared lf.
Proof.
  cbv zeta. apply map_eq. intros k.
  destruct (decide (k = "poi-text")) as [->|]; [by simplify_map_eq|].
  destruct (decide (k = "poi-heat")) as [->|]; [by simplify_map_eq|].
  destruct (decide (k = "poi-points")) as [->|]; by simplify_map_eq.
Qed.

(** X9. [clearFilter] twice is [clearFilter] once, and [applyFilter]
    after [clearFilter] changes nothing but the list of the panel. *)
Theorem clearFilter_idempotent (now : Z) (rendered : list Feature)
    (c : Component) :
  clearFilter (clearFilter c) = clearFilter c
  /\ applyFilter toLowerCase now rendered (clearFilter c)
     = updateCenterPOIs rendered (clearFilter c).
Proof.
  destruct c as [[m|] lp [] cp fk sr sc sp scs tot vis store ev];
    unfold clearFilter, applyFilter, updateCenterPOIs, clearAllFilters,
      criterionActive, setFilter; simpl;
    try (split; reflexivity).
  pose proof (delete_three_idemp (layerFilter m)) as E. cbv zeta in E.
  rewrite E. split; reflexivity.
Qed.

Lemma keywordTest_matchesKeyword (keyword : jsstring) (props : Properties) :
  keywordTest toLowerCase keyword props
  = matchesKeyword toLowerCase keyword props.
Proof.
  unfold keywordTest. destruct (len keyword >? 0) eqn:E; [reflexivity|].
  apply len_nil_iff in E. subst keyword. unfold matchesKeyword, searchTargets.
  simpl. by rewrite includes_nil.
Qed.

(** X10. With no period selected and no keyword contributed by the
    selected categories, the keyword-only [applyKeywordFilter] matches the
    same features and sets the same layer filters as [applyCombinedFilter];
    it leaves [currentVisiblePOIs] as it is. *)
Theorem applyKeywordFilter_agrees (now : Z) (m : MapObj) (c : Component) :
  selectedPeriod c <= 0 ->
  collectCategoryKeywords (selectedCategories c) = [] ->
  keywordMatchingFeatures toLowerCase c = matchingFeatures toLowerCase now c
  /\ mapObj (applyKeywordFilter toLowerCase m c)
     = mapObj (applyCombinedFilter toLowerCase now m c)
  /\ currentVisiblePOIs (applyKeywordFilter toLowerCase m c)
     = currentVisiblePOIs c.
Proof.
  intros Hp Hc.
  assert (E : keywordMatchingFeatures toLowerCase c
              = matchingFeatures toLowerCase now c).
  { unfold keywordMatchingFeatures, matchingFeatures. apply filter_ext.
    intros f. unfold featureMatches. destruct (properties f) as [props|];
      [|reflexivity].
    rewrite Hc. unfold periodTest, categoryTest.
    assert (Hs : (selectedPeriod c >? 0) = false) by lia. rewrite Hs. simpl.
    by rewrite andb_true_r, keywordTest_matchesKeyword. }
  split; [exact E|]. unfold applyKeywordFilter, applyCombinedFilter.
  rewrite E. split; reflexivity.
Qed.

End ComposeFacts.

Lemma setFilter_three_again (e e' : option FilterExpr) (m : MapObj) :
  let set3 e m :=
    setFilter "poi-text" e (setFilter "poi-heat" e (setFilter "poi-points" e m)) in
  set3 e (set3 e' m) = set3 e m.
Proof.
  cbv zeta. unfold setFilter. simpl. f_equal.
  apply map_eq. intros k.
  destruct (decide (k = "poi-text")) as [->|];
    [destruct e, e'; by simplify_map_eq|].
  destruct (decide (k = "poi-heat")) as [->|];
    [destruct e, e'; by simplify_map_eq|].
  destruct (decide (k = "poi-points")) as [->|];
    destruct e, e'; by simplify_map_eq.
Qed.

Section Idempotent.

Variable toLowerCase : jsstring -> jsstring.

Lemma applyFilter_run (now : Z) (rendered : list Feature) (c : Component)
    (m : MapObj) :
  mapObj c = Some m ->
  isDataLoaded c = true ->
  applyFilter toLowerCase now rendered c
  = let matching := matchingFeatures toLowerCase now c in
    let e := if len matching >? 0 then MatchFid (matchingFids matching)
             else noResultFilter in
    set_centerPOIs (take 99 rendered)
      (set_totalPOICount (len rendered)
         (if criterionActive c
          then set_currentVisiblePOIs (len matching)
                 (set_mapObj
                    (Some (setFilter "poi-text" (Some e)
                             (setFilter "poi-heat" (Some e)
                                (setFilter "poi-points" (Some e) m)))) c)
          else set_mapObj
                 (Some (setFilter "poi-text" None
                          (setFilter "poi-heat" None
                             (setFilter "poi-points" None m)))) c)).
Proof.
  intros Hm Hl. unfold applyFilter. rewrite Hm, Hl. simpl negb. cbv iota zeta.
  destruct (criterionActive c).
  - unfold applyCombinedFilter, updateCenterPOIs. simpl. rewrite Hl. simpl.
    by destruct (len (matchingFeatures toLowerCase now c) >? 0).
  - unfold clearAllFilters, updateCenterPOIs. rewrite Hm. simpl. by rewrite Hl.
Qed.

Lemma applyFilter_over (now now' : Z) (rendered rendered' : list Feature)
    (g : Component -> Component) (c : Component) :
  (forall x c, g (set_centerPOIs x c) = set_centerPOIs x (g c)) ->
  (forall x c, g (set_totalPOICount x c) = set_totalPOICount x (g c)) ->
  (forall x c, g (set_currentVisiblePOIs x c) = set_currentVisiblePOIs x (g c)) ->
  (forall x c, g (set_mapObj x c) = set_mapObj x (g c)) ->
  (forall c, mapObj (g c) = mapObj c) ->
  (forall c, isDataLoaded (g c) = isDataLoaded c) ->
  criterionActive (g c) = true \/ criterionActive c = false ->
  applyFilter toLowerCase now rendered
    (g (applyFilter toLowerCase now' rendered' c))
  = applyFilter toLowerCase now rendered (g c).
Proof.
  intros G1 G2 G3 G4 Gm Gl Ha.
  destruct (mapObj c) as [m|] eqn:Hm;
    [|unfold applyFilter at 2; by rewrite Hm].
  destruct (isDataLoaded c) eqn:Hl;
    [|unfold applyFilter at 2; by rewrite Hm, Hl].
  rewrite (applyFilter_run now' rendered' c m Hm Hl). cbv zeta.
  assert (Hgm : mapObj (g c) = Some m) by (by rewrite Gm).
  assert (Hgl : isDataLoaded (g c) = true) by (by rewrite Gl).
  rewrite (applyFilter_run now rendered (g c) m Hgm Hgl). cbv zeta.
  set (e' := if len (matchingFeatures toLowerCase now' c) >? 0 then _ else _).
  set (e := if len (matchingFeatures toLowerCase now (g c)) >? 0 then _ else _).
  destruct (criterionActive c) eqn:Hc.
  - destruct Ha as [Ha|Ha]; [|discriminate].
    rewrite G1, G2, G3, G4.
    erewrite applyFilter_run; [|reflexivity | exact Hgl].
    cbv zeta.
    assert (Hcrit : forall x y z w, criterionActive
              (set_centerPOIs x (set_totalPOICount y
                 (set_currentVisiblePOIs z (set_mapObj w (g c)))))
            = criterionActive (g c)) by reflexivity.
    assert (Hmatch : forall x y z w, matchingFeatures toLowerCase now
              (set_centerPOIs x (set_totalPOICount y
                 (set_currentVisiblePOIs z (set_mapObj w (g c)))))
            = matchingFeatures toLowerCase now (g c)) by reflexivity.
    rewrite Hcrit, Ha, Hmatch. fold e.
    pose proof (setFilter_three_again (Some e) (Some e') m) as E.
    cbv zeta in E. rewrite E. reflexivity.
  - rewrite G1, G2, G4.
    erewrite applyFilter_run; [|reflexivity | exact Hgl].
    cbv zeta.
    assert (Hcrit : forall x y w, criterionActive
              (set_centerPOIs x (set_totalPOICount y (set_mapObj w (g c))))
            = criterionActive (g c)) by reflexivity.
    assert (Hmatch : forall x y w, matchingFeatures toLowerCase now
              (set_centerPOIs x (set_totalPOICount y (set_mapObj w (g c))))
            = matchingFeatures toLowerCase now (g c)) by reflexivity.
    rewrite Hcrit, Hmatch. fold e.
    destruct (criterionActive (g c)).
    + pose proof (setFilter_three_again (Some e) None m) as E.
      cbv zeta in E. rewrite E. reflexivity.
    + pose proof (setFilter_three_again None None m) as E.
      cbv zeta in E. rewrite E. reflexivity.
Qed.

(** X11. [applyFilter] overwrites what an earlier [applyFilter] did:
    applied twice, at whatever times and viewports, it leaves the state that
    the second application alone leaves; in particular it is idempotent. *)
Theorem applyFilter_last_wins (now now' : Z) (rendered rendered' : list Feature)
    (c : Component) :
  applyFilter toLowerCase now rendered
    (applyFilter toLowerCase now' rendered' c)
  = applyFilter toLowerCase now rendered c.
Proof.
  apply (applyFilter_over now now' rendered rendered' (fun c => c));
    try reflexivity.
  destruct (criterionActive c); auto.
Qed.

(** X12. The order in which two criteria are entered does not matter as
    long as some criterion is set in the end: keyword and period, keyword
    and category chip, period and category chip give the same state either
    way. *)
Theorem criteria_commute (now now' : Z) (rendered rendered' : list Feature)
    (text : jsstring) (periodValue : Z) (categoryId : jsstring)
    (c : Component) :
  (criterionActive (set_filterKeyword text (set_selectedPeriod periodValue c))
   = true ->
   inputKeyword toLowerCase now rendered text
     (selectPeriod toLowerCase now' rendered' periodValue c)
   = selectPeriod toLowerCase now rendered periodValue
       (inputKeyword toLowerCase now' rendered' text c))
  /\ ((len (trim text) >? 0) = true ->
      inputKeyword toLowerCase now rendered text
        (toggleCategory toLowerCase now' rendered' categoryId c)
      = toggleCategory toLowerCase now rendered categoryId
          (inputKeyword toLowerCase now' rendered' text c))
  /\ (0 < periodValue ->
      selectPeriod toLowerCase now rendered periodValue
        (toggleCategory toLowerCase now' rendered' categoryId c)
      = toggleCategory toLowerCase now rendered categoryId
          (selectPeriod toLowerCase now' rendered' periodValue c)).
Proof.
  set (toggled := fun c : Component =>
         if bool_decide (categoryId ∈ selectedCategories c)
         then set_selectedCategories
                (List.filter (fun i => negb (bool_decide (i = categoryId)))
                             (selectedCategories c)) c
         else set_selectedCategories (selectedCategories c ++ [categoryId]) c).
  assert (Htoggle : forall now rendered c,
            toggleCategory toLowerCase now rendered categoryId c
            = applyFilter toLowerCase now rendered (toggled c)) by reflexivity.
  assert (T1 : forall x c, toggled (set_centerPOIs x c) = set_centerPOIs x (toggled c))
    by (intros x c0; unfold toggled; simpl; by destruct (bool_decide _)).
  assert (T2 : forall x c, toggled (set_totalPOICount x c)
                           = set_totalPOICount x (toggled c))
    by (intros x c0; unfold toggled; simpl; by destruct (bool_decide _)).
  assert (T3 : forall x c, toggled (set_currentVisiblePOIs x c)
                           = set_currentVisiblePOIs x (toggled c))
    by (intros x c0; unfold toggled; simpl; by destruct (bool_decide _)).
  assert (T4 : forall x c, toggled (set_mapObj x c) = set_mapObj x (toggled c))
    by (intros x c0; unfold toggled; simpl; by destruct (bool_decide _)).
  assert (T5 : forall c, mapObj (toggled c) = mapObj c)
    by (intros c0; unfold toggled; by destruct (bool_decide _)).
  assert (T6 : forall c, isDataLoaded (toggled c) = isDataLoaded c)
    by (intros c0; unfold toggled; by destruct (bool_decide _)).
  assert (T7 : forall text c, toggled (set_filterKeyword text c)
                              = set_filterKeyword text (toggled c))
    by (intros x c0; unfold toggled; simpl; by destruct (bool_decide _)).
  assert (T8 : forall p c, toggled (set_selectedPeriod p c)
                           = set_selectedPeriod p (toggled c))
    by (intros x c0; unfold toggled; simpl; by destruct (bool_decide _)).
  split; [|split].
  - intros Ha. unfold inputKeyword, selectPeriod.
    rewrite (applyFilter_over now now' rendered rendered'
               (set_filterKeyword text)); try reflexivity; [|by left].
    rewrite (applyFilter_over now now' rendered rendered'
               (set_selectedPeriod periodValue)); try reflexivity.
    left. exact Ha.
  - intros Ht. rewrite !Htoggle. unfold inputKeyword.
    assert (Ha : forall c, criterionActive (set_filterKeyword text c) = true)
      by (intros c0; unfold criterionActive; simpl; by rewrite Ht).
    rewrite (applyFilter_over now now' rendered rendered'
               (set_filterKeyword text)); try reflexivity; [|by left].
    rewrite (applyFilter_over now now' rendered rendered' toggled);
      try assumption; [by rewrite T7|].
    left. rewrite T7. apply Ha.
  - intros Hp. rewrite !Htoggle. unfold selectPeriod.
    assert (Ha : forall c, criterionActive (set_selectedPeriod periodValue c)
                           = true).
    { intros c0. unfold criterionActive. simpl.
      assert (E : (periodValue >? 0) = true) by lia.
      by rewrite E, orb_true_r. }
    rewrite (applyFilter_over now now' rendered rendered'
               (set_selectedPeriod periodValue)); try reflexivity; [|by left].
    rewrite (applyFilter_over now now' rendered rendered' toggled);
      try assumption; [by rewrite T8|].
    left. rewrite T8. apply Ha.
Qed.

End Idempotent.

(** ** The popup carousel *)

Lemma navigatePopup_moved (direction : Z) (s : Carousel) :
  let n := len (currentPopupFeatures s) in
  let newIndex := currentPopupIndex s + direction in
  1 < n -> 0 <= newIndex < n ->
  navigatePopup direction s
  = mkCarousel (currentPopupFeatures s) newIndex
      (imap (fun index _ => Z.of_nat index =? newIndex) (slideActive s))
      ((fun h => mkCarouselHeader (newIndex + 1) (newIndex =? 0)
                   (newIndex =? n - 1)) <$> header s).
Proof.
  cbv zeta. intros Hn Hi. unfold navigatePopup.
  assert (E1 : (len (currentPopupFeatures s) <=? 1) = false) by lia.
  assert (E2 : (currentPopupIndex s + direction <? 0) = false) by lia.
  assert (E3 : (currentPopupIndex s + direction
                >=? len (currentPopupFeatures s)) = false) by lia.
  by rewrite E1, E2, E3.
Qed.

Lemma navigatePopup_stays (direction : Z) (s : Carousel) :
  let n := len (currentPopupFeatures s) in
  let newIndex := currentPopupIndex s + direction in
  n <= 1 \/ newIndex < 0 \/ n <= newIndex ->
  navigatePopup direction s = s.
Proof.
  cbv zeta. intros H. unfold navigatePopup.
  destruct (len (currentPopupFeatures s) <=? 1) eqn:E1; [reflexivity|].
  destruct (currentPopupIndex s + direction <? 0) eqn:E2; [reflexivity|].
  destruct (currentPopupIndex s + direction
            >=? len (currentPopupFeatures s)) eqn:E3; [reflexivity|].
  lia.
Qed.

Lemma carousel_step (features : list Feature) (direction : Z) (s : Carousel) :
  carouselInSync features s -> carouselInSync features (navigatePopup direction s).
Proof.
  intros H. pose proof H as [Hf [Hi [Hs Hh]]].
  destruct (Z_le_gt_dec (len (currentPopupFeatures s)) 1) as [Hn|Hn];
    [rewrite navigatePopup_stays by lia; exact H|].
  destruct (Z_lt_ge_dec (currentPopupIndex s + direction) 0) as [Hlo|Hlo];
    [rewrite navigatePopup_stays by lia; exact H|].
  destruct (Z_le_gt_dec (len (currentPopupFeatures s))
              (currentPopupIndex s + direction)) as [Hhi|Hhi];
    [rewrite navigatePopup_stays by lia; exact H|].
  rewrite navigatePopup_moved by lia. rewrite Hf in *.
  unfold carouselInSync. simpl. split; [reflexivity|]. split; [lia|]. split.
  - intros i. rewrite list_lookup_imap, Hs.
    by destruct (features !! i).
  - destruct (header s) as [h|]; simpl; [|exact Hh].
    split; [lia|]. split; [reflexivity|]. split; [reflexivity|]. by left.
Qed.

Lemma carousel_run (features : list Feature) (directions : list Z) :
  forall s, carouselInSync features s ->
  carouselInSync features
    (fold_left (fun s direction => navigatePopup direction s) directions s).
Proof.
  induction directions as [|d ds IH]; intros s Hs; simpl; [exact Hs|].
  apply IH. apply carousel_step. exact Hs.
Qed.

Lemma carousel_created (features : list Feature) :
  carouselInSync features (createMultiPOIPopup features).
Proof.
  unfold carouselInSync, createMultiPOIPopup. simpl.
  pose proof (len_nonneg features).
  split; [reflexivity|]. split; [lia|]. split.
  - intros i. rewrite list_lookup_imap. destruct (features !! i); simpl;
      [|reflexivity].
    f_equal. by destruct i.
  - destruct (len features >? 1) eqn:E; [|lia].
    split; [lia|]. split; [reflexivity|]. split; [|by right].
    cbn [nextDisabled currentPopupIndex]. apply Z.gtb_lt in E.
    rewrite (proj2 (Z.leb_gt _ _)) by lia.
    destruct (len features - 1) eqn:E'; [lia | done | done].
Qed.

(** X13. However the popup opened on [features] is navigated,
    [currentPopupIndex] stays a valid index (0 when there is no feature),
    the slide at that index alone is active, the header is there iff there
    is more than one feature, its counter shows the index plus one, [next]
    is disabled exactly on the last slide, and [previous] exactly on the
    first one unless the popup is still as it was created. *)
Theorem carousel_invariant (features : list Feature) (directions : list Z) :
  let s := fold_left (fun s direction => navigatePopup direction s) directions
             (createMultiPOIPopup features) in
  currentPopupFeatures s = features
  /\ 0 <= currentPopupIndex s <= Z.max 0 (len features - 1)
  /\ (forall i,
        slideActive s !! i
        = (fun _ => Z.of_nat i =? currentPopupIndex s) <$> features !! i)
  /\ match header s with
     | None => len features <= 1
     | Some h =>
       1 < len features
       /\ currentIndexText h = currentPopupIndex s + 1
       /\ nextDisabled h = (currentPopupIndex s =? len features - 1)
       /\ (prevDisabled h = (currentPopupIndex s =? 0)
           \/ s = createMultiPOIPopup features)
     end.
Proof.
  exact (carousel_run features directions _ (carousel_created features)).
Qed.

(** X14. On a popup that is not as it was created, a move that stays
    inside the slides is undone by the opposite move: the variables and the
    elements are as before. *)
Theorem navigatePopup_round_trip (features : list Feature) (direction : Z)
    (s : Carousel) :
  carouselInSync features s ->
  s <> createMultiPOIPopup features ->
  0 <= currentPopupIndex s + direction < len features ->
  navigatePopup (- direction) (navigatePopup direction s) = s.
Proof.
  intros [Hf [Hi [Hs Hh]]] Hfresh Hd.
  destruct (Z_le_gt_dec (len features) 1) as [Hn|Hn].
  - rewrite (navigatePopup_stays direction s) by (left; rewrite Hf; lia).
    apply navigatePopup_stays. left. rewrite Hf. lia.
  - rewrite (navigatePopup_moved direction s) by (rewrite Hf; lia).
    rewrite navigatePopup_moved by (simpl; rewrite Hf; lia).
    simpl. rewrite Hf.
    replace (currentPopupIndex s + direction + - direction)
      with (currentPopupIndex s) by lia.
    destruct s as [fs idx act hd]. simpl in *. subst fs. f_equal.
    + apply list_eq. intros i. rewrite !list_lookup_imap, Hs.
      by destruct (features !! i).
    + destruct hd as [[txt prev next]|]; simpl in *; [|reflexivity].
      destruct Hh as [_ [-> [-> [-> | E]]]]; [reflexivity | contradiction].
Qed.

Lemma handleKeydown_cases (features : list Feature) (key : Key) (s : Carousel) :
  carouselInSync features s ->
  match handleKeydown key s with
  | Some s' => carouselInSync features s'
  | None => key = Escape /\ 1 < len features
  end.
Proof.
  intros Hs. pose proof Hs as [Hf _]. unfold handleKeydown. rewrite Hf.
  destruct (len features <=? 1) eqn:E; [exact Hs|].
  destruct key; try exact Hs; try (by apply carousel_step).
  split; [reflexivity | lia].
Qed.

(** X15. Whatever keys are pressed while the popup is open, the popup
    stays in step with [currentPopupIndex]; it is removed only by Escape,
    and only when it shows more than one feature. *)
Theorem handleKeydown_run (features : list Feature) (keys : list Key) :
  match fold_left (fun s key => s ≫= handleKeydown key) keys
          (Some (createMultiPOIPopup features)) with
  | Some s => carouselInSync features s
  | None => In Escape keys /\ 1 < len features
  end.
Proof.
  assert (Hnone : forall keys,
            fold_left (fun s key => s ≫= handleKeydown key) keys None = None)
    by (intros ks; induction ks; [reflexivity | assumption]).
  pose proof (carousel_created features) as H0.
  revert H0. generalize (createMultiPOIPopup features).
  induction keys as [|key keys IH]; intros s Hs; simpl; [exact Hs|].
  pose proof (handleKeydown_cases features key s Hs) as Hk.
  destruct (handleKeydown key s) as [s'|].
  - specialize (IH s' Hk).
    destruct (fold_left _ keys (Some s')); [exact IH|].
    split; [right|]; tauto.
  - rewrite Hnone. destruct Hk as [-> Hn]. split; [by left | exact Hn].
Qed.

(** ** The calls of [setData] *)

Lemma flushCounts_S (N : Z) (n : nat) :
  flushCounts N (S n)
  = flushCounts N n
    ++ (if flushDue N (Z.of_nat (S n)) then [Z.of_nat (S n)] else []).
Proof.
  unfold flushCounts. rewrite seq_S, map_app, List.filter_app. reflexivity.
Qed.

Lemma last_flushCounts (N : Z) (n : nat) :
  0 <= List.last (flushCounts N n) 0 <= Z.of_nat n
  /\ (List.last (flushCounts N n) 0 = Z.of_nat n
      <-> n = 0%nat \/ flushDue N (Z.of_nat n) = true).
Proof.
  induction n as [|n [IH1 IH2]].
  - simpl. split; [lia|]. split; auto.
  - rewrite flushCounts_S. destruct (flushDue N (Z.of_nat (S n))) eqn:E.
    + rewrite last_last. split; [lia|]. split; auto.
    + rewrite app_nil_r. split; [lia|]. split; [lia|].
      intros [H | H]; [lia | discriminate].
Qed.

Lemma length_flushCounts (N : Z) (n : nat) :
  len (flushCounts N n)
  = Z.of_nat n / 256
    + (if (0 <? N) && (N <=? Z.of_nat n) && negb (N mod 256 =? 0)
       then 1 else 0).
Proof.
  induction n as [|n IH].
  - change (len (flushCounts N 0)) with 0. change (Z.of_nat 0) with 0.
    destruct (0 <? N) eqn:E1; simpl; [|reflexivity].
    destruct (N <=? 0) eqn:E2; [lia | reflexivity].
  - rewrite flushCounts_S, len_app, IH. clear IH.
    unfold flushDue.
    replace (Z.of_nat (S n)) with (Z.of_nat n + 1) by lia.
    generalize (Z.of_nat n) (Nat2Z.is_nonneg n). intros k Hk.
    assert (Hdiv : (k + 1) / 256
                   = k / 256 + (if (k + 1) mod 256 =? 0 then 1 else 0)).
    { pose proof (Z.div_mod k 256 ltac:(lia)) as D1.
      pose proof (Z.mod_pos_bound k 256 ltac:(lia)) as B1.
      pose proof (Z.div_mod (k + 1) 256 ltac:(lia)) as D2.
      pose proof (Z.mod_pos_bound (k + 1) 256 ltac:(lia)) as B2.
      destruct ((k + 1) mod 256 =? 0) eqn:E; lia. }
    rewrite Hdiv.
    destruct ((k + 1) mod 256 =? 0) eqn:Em.
    + rewrite orb_true_r. change (len [k + 1]) with 1.
      destruct (0 <? N) eqn:E1; simpl; [|lia].
      destruct (N mod 256 =? 0) eqn:E2; simpl;
        [rewrite !andb_false_r; lia|]. rewrite !andb_true_r.
      assert (N <> k + 1) by (intros ->; lia).
      destruct (N <=? k) eqn:E3, (N <=? k + 1) eqn:E4; lia.
    + rewrite orb_false_r.
      destruct (0 <? N) eqn:E1; simpl.
      * assert (E0 : (N >? 0) = true) by lia. rewrite E0. simpl.
        destruct (k + 1 =? N) eqn:E2.
        -- change (len [k + 1]) with 1.
           assert (E3 : (N <=? k) = false) by lia.
           assert (E4 : (N <=? k + 1) = true) by lia.
           assert (E5 : (N mod 256 =? 0) = false)
             by (apply Z.eqb_eq in E2; subst N; exact Em).
           rewrite E3, E4, E5. simpl. lia.
        -- change (len []) with 0.
           assert (E3 : (N <=? k) = (N <=? k + 1)) by lia.
           rewrite E3. lia.
      * assert (E0 : (N >? 0) = false) by lia. rewrite E0. simpl.
        change (len []) with 0. lia.
Qed.

(** X16. Started on the mounted component, the loader calls [setData]
    once for every 256 records it decodes, and once more when the declared
    count is reached and is not a multiple of 256. *)
Theorem setData_call_count (r : FetchResult) :
  let N := declaredTotal r in
  let n := len (decodedRecords r) in
  exists c' m',
    loadPOIData r mountedComponent = (Returned tt, c')
    /\ mapObj c' = Some m'
    /\ len (setDataLog m')
       = n / 256
         + (if (0 <? N) && (N <=? n) && negb (N mod 256 =? 0) then 1 else 0).
Proof.
  cbv zeta.
  destruct (loadPOIData_spec r) as [c' [m' [Hrun [_ [_ [Hm [_ [Hlog _]]]]]]]].
  exists c', m'. split; [exact Hrun|]. split; [exact Hm|].
  rewrite Hlog. apply length_flushCounts.
Qed.

(** X17. Take the length of the collection at the last call of [setData],
    and 0 when [setData] was not called. It is the size of the store, so
    that no record was pushed after the last call, iff the number of decoded
    records is a multiple of 256 or is the declared count; otherwise records
    were pushed after the last call and no call follows them, also when the
    load succeeded. *)
Theorem setData_after_last_record (r : FetchResult) :
  let N := declaredTotal r in
  let n := len (decodedRecords r) in
  exists c' m',
    loadPOIData r mountedComponent = (Returned tt, c')
    /\ mapObj c' = Some m'
    /\ poiData c' = decodedRecords r
    /\ 0 <= List.last (setDataLog m') 0 <= n
    /\ (List.last (setDataLog m') 0 = n <-> n mod 256 = 0 \/ n = N).
Proof.
  cbv zeta.
  destruct (loadPOIData_spec r)
    as [c' [m' [Hrun [Hp [_ [Hm [_ [Hlog _]]]]]]]].
  exists c', m'. split; [exact Hrun|]. split; [exact Hm|].
  split; [exact Hp|]. rewrite Hlog.
  destruct (last_flushCounts (declaredTotal r) (length (decodedRecords r)))
    as [Hb Hl].
  fold (len (decodedRecords r)) in Hb, Hl.
  split; [exact Hb|]. rewrite Hl. unfold flushDue, len.
  destruct (decodedRecords r) as [|f fs]; simpl length.
  - split; [intros _; left; reflexivity | intros _; left; reflexivity].
  - rewrite orb_true_iff, andb_true_iff, !Z.eqb_eq, Z.gtb_lt. split.
    + intros [H | [[_ H] | H]]; [discriminate | by right | by left].
    + intros [H | H]; right; [by right|].
      left. split; [lia | exact H].
Qed.

(** ** The events of a load *)

(** [loadPOIData], whatever the state it starts in. *)
Lemma loadPOIData_run (r : FetchResult) (c : Component) :
  loadPOIData r c
  = (Returned tt,
     let c1 := consume (declaredTotal r) (decodedRecords r)
                 (onHeader (declaredTotal r) c) in
     match caughtBy r with
     | Some e =>
       dispatch (mkProgressEvent 0 0
                   (Some match e with
                         | ErrorObject message => message
                         | NotAnError => DefaultMessage
                         end))
                (set_isDataLoaded true c1)
     | None =>
       set_currentVisiblePOIs (len (poiData c1)) (set_isDataLoaded true c1)
     end).
Proof.
  destruct r as [e | [[] st [[e | meta records [e|]]|]]]; reflexivity.
Qed.

Lemma updateMapData_fields (c : Component) :
  let c' := updateMapData c in
  dispatched c' = dispatched c
  /\ centerPOIs c' = centerPOIs c
  /\ totalPOICount c' = totalPOICount c
  /\ selectedCategories c' = selectedCategories c
  /\ filterKeyword c' = filterKeyword c
  /\ selectedPeriod c' = selectedPeriod c.
Proof.
  unfold updateMapData. destruct (mapObj c) as [m|]; [|done].
  by destruct (sourceData m).
Qed.

Lemma onFeature_fields (N : Z) (c : Component) (feature : Feature) :
  let c' := onFeature N c feature in
  dispatched c'
  = dispatched c
    ++ (if N >? 0 then [mkProgressEvent (len (poiData c) + 1) N None] else [])
  /\ centerPOIs c' = centerPOIs c
  /\ totalPOICount c' = totalPOICount c
  /\ selectedCategories c' = selectedCategories c
  /\ filterKeyword c' = filterKeyword c
  /\ selectedPeriod c' = selectedPeriod c.
Proof.
  unfold onFeature.
  match goal with
  | |- context [if flushDue ?a ?b then updateMapData ?x else ?x] =>
    destruct (updateMapData_fields x) as [E1 [E2 [E3 [E4 [E5 E6]]]]];
    destruct (flushDue a b); cbv zeta; rewrite ?E1, ?E2, ?E3, ?E4, ?E5, ?E6
  end;
  (destruct (N >? 0); simpl; rewrite ?len_app, ?app_nil_r;
   by change (len [feature]) with 1).
Qed.

Lemma consume_fields (N : Z) (records : list Feature) :
  forall c : Component,
  let c' := consume N records c in
  dispatched c'
  = dispatched c
    ++ (if N >? 0
        then map (fun i => mkProgressEvent (len (poiData c) + Z.of_nat i) N None)
                 (seq 1 (length records))
        else [])
  /\ centerPOIs c' = centerPOIs c
  /\ totalPOICount c' = totalPOICount c
  /\ selectedCategories c' = selectedCategories c
  /\ filterKeyword c' = filterKeyword c
  /\ selectedPeriod c' = selectedPeriod c.
Proof.
  induction records as [|feature records IH]; intros c; cbv zeta.
  - simpl. destruct (N >? 0); by rewrite ?app_nil_r.
  - cbn [consume fold_left]. fold (consume N records (onFeature N c feature)).
    destruct (IH (onFeature N c feature)) as [-> [-> [-> [-> [-> ->]]]]].
    destruct (onFeature_fields N c feature) as [-> [-> [-> [-> [-> ->]]]]].
    destruct (onFeature_progress N c feature) as [-> _].
    repeat split. rewrite <- app_assoc. f_equal.
    destruct (N >? 0); [|reflexivity].
    change (length (feature :: records)) with (S (length records)).
    rewrite len_app. change (len [feature]) with 1.
    cbn [seq map app]. f_equal; try (f_equal; lia).
    rewrite <- (seq_shift (length records) 1), map_map.
    apply map_ext. intros i. f_equal. lia.
Qed.

Lemma loadPOIData_dispatched (r : FetchResult) :
  dispatched (snd (loadPOIData r mountedComponent))
  = progressEvents (declaredTotal r) (length (decodedRecords r))
    ++ errorEvents r.
Proof.
  rewrite loadPOIData_run. cbv zeta. unfold snd.
  set (N := declaredTotal r).
  assert (E : dispatched (consume N (decodedRecords r) (onHeader N mountedComponent))
              = progressEvents N (length (decodedRecords r))).
  { destruct (consume_fields N (decodedRecords r) (onHeader N mountedComponent))
      as [-> _].
    unfold progressEvents, onHeader. destruct (N >? 0); reflexivity. }
  unfold errorEvents. destruct (caughtBy r) as [e|]; simpl; rewrite E.
  - reflexivity.
  - by rewrite app_nil_r.
Qed.

(** X18. The [loadingProgress] events of one load: with a declared count
    [N > 0], the event (0, N) and then (i, N) for each record i = 1..n in
    order, with no declared count none; and one last event (0, 0) with the
    message iff the load failed. *)
Theorem loadingProgress_events (r : FetchResult) :
  let N := declaredTotal r in
  let n := len (decodedRecords r) in
  let events := dispatched (snd (loadPOIData r mountedComponent)) in
  events = progressEvents N (length (decodedRecords r)) ++ errorEvents r
  /\ len events
     = (if N >? 0 then n + 1 else 0)
       + (if caughtBy r is Some _ then 1 else 0)
  /\ forall e, In e events ->
       match error e with
       | None => totalCount e = N /\ 0 <= loadedCount e <= n
       | Some _ => caughtBy r <> None /\ totalCount e = 0 /\ loadedCount e = 0
       end.
Proof.
  cbv zeta. rewrite loadPOIData_dispatched. split; [reflexivity|]. split.
  - rewrite len_app. unfold progressEvents, errorEvents. f_equal.
    + destruct (declaredTotal r >? 0); [|reflexivity].
      unfold len. simpl. rewrite length_map, length_seq. lia.
    + by destruct (caughtBy r).
  - intros e He. apply in_app_or in He as [He | He].
    + unfold progressEvents in He.
      destruct (declaredTotal r >? 0); [|destruct He].
      destruct He as [<- | He]; simpl.
      * split; [reflexivity|]. unfold len. lia.
      * apply in_map_iff in He as [i [<- Hi]]. apply in_seq in Hi. simpl.
        split; [reflexivity|]. unfold len. lia.
    + unfold errorEvents in He. destruct (caughtBy r); [|destruct He].
      destruct He as [<- | []]. simpl. done.
Qed.

(** ** The loading screen *)

Lemma screenProgress_zero (N : Z) (e : option Message) :
  screenProgress (mkProgressEvent 0 N e) = 0.
Proof.
  unfold screenProgress. simpl. destruct (N >? 0); [|reflexivity].
  by destruct N.
Qed.

Lemma ratio_le (i N a b : Z) :
  0 < N -> 0 < b -> b * i <= a * N ->
  (inject_Z i / inject_Z N <= inject_Z a / inject_Z b)%Q.
Proof.
  intros HN Hb H.
  assert (HN' : (0 < inject_Z N)%Q)
    by (change 0%Q with (inject_Z 0); by rewrite <- Zlt_Qlt).
  assert (Hb' : (0 < inject_Z b)%Q)
    by (change 0%Q with (inject_Z 0); by rewrite <- Zlt_Qlt).
  apply Qle_shift_div_r; [exact HN'|].
  unfold Qdiv. rewrite <- Qmult_assoc, (Qmult_comm (/ inject_Z b)), Qmult_assoc.
  apply Qle_shift_div_l; [exact Hb'|].
  rewrite <- !inject_Z_mult, <- Zle_Qle. lia.
Qed.

Lemma screenProgress_low (i N : Z) (e : option Message) :
  0 < i -> 0 < N -> 100 * i <= 29 * N ->
  screenProgress (mkProgressEvent i N e) < 30.
Proof.
  intros Hi HN H. unfold screenProgress. simpl.
  assert (E : (N >? 0) = true) by lia. rewrite E.
  unfold F64.Math_round. apply F64Facts.floor_lt_Z.
  destruct (F64Facts.percent_error i N Hi HN) as [_ Hup]. cbv zeta in Hup.
  pose proof (ratio_le i N 29 100 HN ltac:(lia) H) as Hx.
  unfold F64.eps in Hup. change (1 # 2 ^ 53)%Q with (1 # 9007199254740992)%Q in Hup.
  assert (Hx' : (inject_Z i / inject_Z N <= 29 # 100)%Q)
    by (eapply Qle_trans; [exact Hx | discriminate]).
  change (inject_Z 30) with (30 # 1)%Q.
  revert Hup Hx'. generalize (F64.percent i N) (inject_Z i / inject_Z N)%Q.
  intros p x Hup Hx'. lra.
Qed.


(** X19. When the stream declares no count, or at most 29% of the
    declared count is decoded, the loading screen does not schedule its
    [ready] event, whichever of the load's events it observes: nothing ends
    [isLoading] of the page. *)
Theorem loading_screen_stays (r : FetchResult) (observed : list ProgressEvent) :
  let N := declaredTotal r in
  let n := len (decodedRecords r) in
  N <= 0 \/ 100 * n <= 29 * N ->
  (forall e, In e observed ->
             In e (dispatched (snd (loadPOIData r mountedComponent)))) ->
  readyScheduled observed = false.
Proof.
  intros N n Hlow Hobs. unfold readyScheduled.
  apply not_true_is_false. intros Hex.
  apply existsb_exists in Hex as [e [Hin Hdue]].
  apply Hobs in Hin. rewrite loadPOIData_dispatched in Hin.
  unfold readyDue, handleLoadingProgress in Hdue. simpl in Hdue.
  rewrite andb_true_r in Hdue.
  assert (Hlt : screenProgress (mkProgressEvent (loadedCount e) (totalCount e) None) < 30);
    [|lia].
  apply in_app_or in Hin as [Hin | Hin].
  - unfold progressEvents in Hin. fold N in Hin.
    destruct (N >? 0) eqn:EN; [|destruct Hin].
    destruct Hin as [<- | Hin]; [simpl; rewrite screenProgress_zero; lia|].
    apply in_map_iff in Hin as [i [<- Hi]]. apply in_seq in Hi. simpl.
    apply screenProgress_low; unfold n, len in *; lia.
  - unfold errorEvents in Hin. destruct (caughtBy r); [|destruct Hin].
    destruct Hin as [<- | []]. simpl. rewrite screenProgress_zero. lia.
Qed.


(** X21. The percentage of the loading screen ([Math.round]) is the
    [loadingProgress] of the component ([Math.floor]) for the same counts,
    or one more. *)
Theorem screenProgress_near_loadingProgress (i N : Z) (e : option Message) :
  0 < N ->
  progressOf i N <= screenProgress (mkProgressEvent i N e) <= progressOf i N + 1.
Proof.
  intros HN. unfold screenProgress, progressOf. simpl.
  assert (E : (N >? 0) = true) by lia. rewrite E.
  unfold F64.Math_round, F64.Math_floor.
  generalize (F64.percent i N). intros q. split.
  - apply Qfloor_resp_le. lra.
  - assert (H : Qfloor (q + (1 # 2)) < Qfloor q + 2); [|lia].
    rewrite Zlt_Qlt.
    pose proof (Qfloor_le (q + (1 # 2))) as H1.
    pose proof (Qlt_floor q) as H2.
    rewrite inject_Z_plus in H2 |- *.
    change (inject_Z 1) with 1%Q in H2. change (inject_Z 2) with 2%Q.
    revert H1 H2.
    generalize (inject_Z (Qfloor (q + (1 # 2)))) (inject_Z (Qfloor q)).
    intros a b H1 H2. lra.
Qed.

(** ** What the component keeps *)

Lemma invariant_mounted : invariant mountedComponent.
Proof.
  eexists. split; [reflexivity|]. simpl.
  repeat split; try reflexivity; try constructor; lia.
Qed.

Lemma invariant_fields (c c' : Component) :
  mapObj c' = mapObj c ->
  isDataLoaded c' = isDataLoaded c ->
  poiData c' = poiData c ->
  currentVisiblePOIs c' = currentVisiblePOIs c ->
  centerPOIs c' = centerPOIs c ->
  totalPOICount c' = totalPOICount c ->
  NoDup (selectedCategories c') ->
  invariant c -> invariant c'.
Proof.
  intros E1 E2 E3 E4 E5 E6 Hnd [m H]. exists m.
  rewrite E1, E2, E3, E4, E5, E6. tauto.
Qed.

Lemma invariant_updateCenterPOIs (rendered : list Feature) (c : Component) :
  invariant c -> invariant (updateCenterPOIs rendered c).
Proof.
  intros Hinv. pose proof Hinv as [m [Hm H]].
  unfold updateCenterPOIs. rewrite Hm.
  destruct (isDataLoaded c) eqn:Hl; simpl; [|exact Hinv].
  exists m. simpl. rewrite Hl. split; [exact Hm|].
  destruct H as [H1 [H2 [H3 [H4 [H5 [H6 [_ [H8 H9]]]]]]]].
  repeat (split; [assumption|]). split; [|split; assumption].
  apply len_take.
Qed.

(** The header callback and the turns of the loop. *)
Lemma invariant_onHeader (N : Z) (c : Component) :
  invariant c -> invariant (onHeader N c).
Proof.
  intros Hinv. assert (Hnd : NoDup (selectedCategories c))
    by (destruct Hinv as [m H]; tauto).
  unfold onHeader. destruct (N >? 0); [|exact Hinv].
  revert Hinv. apply invariant_fields; try reflexivity. exact Hnd.
Qed.

Lemma invariant_onFeature (N : Z) (c : Component) (feature : Feature) :
  invariant c -> invariant (onFeature N c feature).
Proof.
  intros [m [Hm [H1 [H2 [H3 [H4 [H5 [H6 [H7 [H8 H9]]]]]]]]]].
  destruct (onFeature_spec N c feature m Hm H1)
    as [Hp [_ [_ [Hm' [Hl Hv]]]]].
  destruct (onFeature_fields N c feature) as [_ [Hc [Ht [Hs _]]]].
  cbv zeta in Hp, Hm', Hl, Hv, Hc, Ht, Hs.
  eexists. split; [exact Hm'|].
  rewrite Hp, Hl, Hv, Hc, Ht, Hs, len_app, omap_app.
  assert (Hlf : forall layer,
            layerFilter
              (if flushDue N (len (poiData c) + 1)
               then mkMapObj (Some PoiDataObject)
                      (setDataLog m ++ [len (poiData c) + 1]) (layerFilter m)
               else m) !! layer
            = layerFilter m !! layer)
    by (intros layer; by destruct (flushDue _ _)).
  rewrite !Hlf. change (len [feature]) with 1.
  split; [by destruct (flushDue _ _)|].
  repeat (split; [assumption|]).
  split; [|split; [assumption | split; [assumption | split; [lia | assumption]]]].
  destruct (layerFilter m !! "poi-points") as [[ids|name]|]; [|exact H5|exact I].
  destruct H5 as [A [B C]]. repeat split; try assumption.
  by apply sublist_inserts_r.
Qed.

(** The two assignments after the loop, and the [catch] block. *)
Lemma invariant_loaded (c : Component) :
  isDataLoaded c = false ->
  invariant c ->
  invariant (set_currentVisiblePOIs (len (poiData c)) (set_isDataLoaded true c)).
Proof.
  intros Hl [m [Hm [H1 [H2 [H3 [H4 [H5 [H6 [H7 [H8 H9]]]]]]]]]].
  assert (Hnone : layerFilter m !! "poi-points" = None).
  { destruct (layerFilter m !! "poi-points") as [[ids|name]|]; [| |reflexivity];
      destruct H5 as [H5 _]; congruence. }
  exists m. simpl. rewrite Hnone in *.
  pose proof (len_nonneg (poiData c)).
  do 6 (split; [done|]). split; [discriminate|].
  split; [assumption|]. split; [lia | assumption].
Qed.

Lemma invariant_failed (e : Thrown) (c : Component) :
  invariant c -> invariant (snd (onLoadError e c)).
Proof.
  intros [m [Hm [H1 [H2 [H3 [H4 [H5 [H6 [H7 [H8 H9]]]]]]]]]].
  rewrite onLoadError_returns. exists m. simpl.
  repeat (split; [assumption|]).
  split; [|split; [discriminate | split; [assumption | split; assumption]]].
  destruct (layerFilter m !! "poi-points") as [[ids|name]|]; [| |exact I];
    destruct H5 as [_ H5]; (split; [reflexivity | exact H5]).
Qed.

Section Invariant.

Variable toLowerCase : jsstring -> jsstring.

Lemma invariant_applyFilter (now : Z) (rendered : list Feature) (c : Component) :
  invariant c -> invariant (applyFilter toLowerCase now rendered c).
Proof.
  intros Hinv. pose proof Hinv as [m [Hm H]]. unfold applyFilter. rewrite Hm.
  destruct (isDataLoaded c) eqn:Hl; simpl negb; cbv iota; [|exact Hinv].
  apply invariant_updateCenterPOIs.
  destruct H as [H1 [H2 [H3 [H4 [H5 [H6 [H7 [H8 H9]]]]]]]].
  destruct (criterionActive c).
  - unfold applyCombinedFilter.
    assert (Hsub : sublist (matchingFeatures toLowerCase now c) (poiData c))
      by apply filter_sublist.
    assert (Hle : len (matchingFeatures toLowerCase now c) <= len (poiData c))
      by (apply sublist_length in Hsub; unfold len; lia).
    pose proof (len_nonneg (matchingFeatures toLowerCase now c)) as Hge.
    destruct (len (matchingFeatures toLowerCase now c) >? 0) eqn:E;
      (eexists; split; [reflexivity|]); simpl; rewrite Hl;
      (split; [exact H1|]);
      (split; [by simplify_map_eq|]);
      (split; [by simplify_map_eq|]);
      (split; [by simplify_map_eq|]);
      simplify_map_eq;
      (split; [|split; [discriminate|split; [assumption|split; [lia|assumption]]]]).
    + split; [reflexivity|]. split; [lia|].
      rewrite matchingFids_fidOf. by apply omap_sublist.
    + split; [reflexivity|]. split; [reflexivity|]. lia.
  - unfold clearAllFilters. rewrite Hm.
    eexists. split; [reflexivity|]. simpl. rewrite Hl.
    split; [exact H1|].
    split; [by simplify_map_eq|].
    split; [by simplify_map_eq|].
    split; [by simplify_map_eq|].
    simplify_map_eq.
    split; [exact I|]. split; [discriminate|]. tauto.
Qed.

Lemma invariant_clearFilter (c : Component) :
  invariant c -> invariant (clearFilter c).
Proof.
  intros Hinv. pose proof Hinv as [m [Hm H]].
  destruct H as [H1 [H2 [H3 [H4 [H5 [H6 [H7 [H8 H9]]]]]]]].
  unfold clearFilter. simpl. rewrite Hm.
  destruct (isDataLoaded c) eqn:Hl.
  - eexists. split; [reflexivity|]. simpl. rewrite Hl.
    split; [exact H1|].
    split; [by simplify_map_eq|].
    split; [by simplify_map_eq|].
    split; [by simplify_map_eq|].
    simplify_map_eq.
    split; [exact I|]. split; [discriminate|]. split; [assumption|].
    pose proof (len_nonneg (poiData c)).
    split; [lia | constructor].
  - revert Hinv. apply invariant_fields; try reflexivity. constructor.
Qed.

Lemma invariant_step (now : Z) (rendered : list Feature) (a : Action)
    (v : View) :
  invariant (component v) ->
  invariant (component (step toLowerCase now rendered a v)).
Proof.
  intros Hinv. destruct a; simpl.
  - apply invariant_applyFilter.
    assert (Hnd : NoDup (selectedCategories (component v)))
      by (destruct Hinv as [m H]; tauto).
    revert Hinv. apply invariant_fields; try reflexivity. exact Hnd.
  - apply invariant_applyFilter.
    assert (Hnd : NoDup (selectedCategories (component v)))
      by (destruct Hinv as [m H]; tauto).
    revert Hinv. apply invariant_fields; try reflexivity. exact Hnd.
  - unfold toggleCategory. apply invariant_applyFilter.
    assert (Hnd : NoDup (selectedCategories (component v)))
      by (destruct Hinv as [m H]; tauto).
    destruct (bool_decide (categoryId ∈ selectedCategories (component v))) eqn:E;
      (revert Hinv; apply invariant_fields; try reflexivity); simpl.
    + eapply sublist_NoDup; [exact Hnd | apply filter_sublist].
    + apply bool_decide_eq_false in E. apply NoDup_app. split; [exact Hnd|].
      split; [|apply NoDup_singleton].
      intros x Hx Hx'. apply list_elem_of_In in Hx' as [<- | []]. done.
  - by apply invariant_clearFilter.
  - unfold togglePOIList. destruct (negb (showPOIList v)); simpl;
      [by apply invariant_updateCenterPOIs | exact Hinv].
  - exact Hinv.
  - exact Hinv.
  - unfold onMoveEnd. destruct (showPOIList v); simpl;
      [by apply invariant_updateCenterPOIs | exact Hinv].
  - unfold onSourceData. destruct (isDataLoaded (component v)); simpl;
      [by apply invariant_updateCenterPOIs | exact Hinv].
Qed.

(** No action sets or clears [isDataLoaded]. *)
Lemma step_isDataLoaded (now : Z) (rendered : list Feature) (a : Action)
    (v : View) :
  isDataLoaded (component (step toLowerCase now rendered a v))
  = isDataLoaded (component v).
Proof.
  assert (Hu : forall c, isDataLoaded (updateCenterPOIs rendered c)
                         = isDataLoaded c)
    by (intros c; destruct (updateCenterPOIs_frame rendered c); tauto).
  assert (Ha : forall c, isDataLoaded (applyFilter toLowerCase now rendered c)
                         = isDataLoaded c)
    by (intros c; destruct (applyFilter_frame toLowerCase now rendered c); tauto).
  destruct a; cbn [step component].
  - exact (Ha _).
  - exact (Ha _).
  - unfold toggleCategory. rewrite Ha. by destruct (bool_decide _).
  - unfold clearFilter. cbn. destruct (mapObj (component v)); [|reflexivity].
    destruct (isDataLoaded (component v)) eqn:E; cbn; congruence.
  - unfold togglePOIList. destruct (negb (showPOIList v)); simpl;
      [apply Hu | reflexivity].
  - reflexivity.
  - reflexivity.
  - unfold onMoveEnd. destruct (showPOIList v); simpl; [apply Hu | reflexivity].
  - unfold onSourceData. destruct (isDataLoaded (component v)) eqn:E; simpl;
      [by rewrite Hu | exact E].
Qed.

(** Every state the component gets into satisfies the invariant, and
    [isDataLoaded] is set exactly when the load has ended. *)
Lemma reachable_invariant (phase : LoadPhase) (v : View) :
  reachable toLowerCase phase v ->
  invariant (component v)
  /\ (isDataLoaded (component v) = true <-> phase = Ended).
Proof.
  induction 1 as [|phase now rendered a v _ [IH1 IH2]|meta v _ [IH1 IH2]
                  |N feature v _ [IH1 IH2]|N v _ [IH1 IH2]
                  |phase e v _ [IH1 IH2] Hphase].
  - split; [exact invariant_mounted|]. simpl. split; discriminate.
  - split; [by apply invariant_step|]. by rewrite step_isDataLoaded.
  - split; [by apply invariant_onHeader|]. simpl.
    assert (E : isDataLoaded (onHeader (totalFeaturesOf meta) (component v))
                = isDataLoaded (component v))
      by (unfold onHeader; by destruct (_ >? 0)).
    rewrite E. split; [|discriminate].
    intros Hl. apply IH2 in Hl. discriminate Hl.
  - split; [by apply invariant_onFeature|]. simpl.
    destruct IH1 as [m [Hm [H1 _]]].
    destruct (onFeature_spec N (component v) feature m Hm H1)
      as [_ [_ [_ [_ [Hl _]]]]].
    cbv zeta in Hl. rewrite Hl. exact IH2.
  - split; [|simpl; tauto]. simpl. apply invariant_loaded; [|exact IH1].
    destruct (isDataLoaded (component v)); [|reflexivity].
    discriminate (proj1 IH2 eq_refl).
  - split; [by apply invariant_failed|].
    cbn [component]. rewrite onLoadError_returns. simpl. tauto.
Qed.

(** A run of [loadPOIData] is one of the ways the load can go. *)
Lemma consume_reachable (N : Z) (records : list Feature) :
  forall v,
  reachable toLowerCase (Decoding N) v ->
  reachable toLowerCase (Decoding N)
    (mkView (consume N records (component v)) (showPOIList v)).
Proof.
  induction records as [|feature records IH]; intros v Hv.
  - by destruct v.
  - cbn [consume fold_left].
    apply (IH (mkView (onFeature N (component v) feature) (showPOIList v))).
    by apply reachable_feature.
Qed.

Lemma loadPOIData_reachable (r : FetchResult) (v : View) :
  reachable toLowerCase Fetching v ->
  reachable toLowerCase Ended
    (mkView (snd (loadPOIData r (component v))) (showPOIList v)).
Proof.
  intros Hv. rewrite loadPOIData_run. cbv zeta. unfold snd.
  destruct r as [e | [[|] st [[e | meta records failure]|]]].
  - apply (reachable_failed toLowerCase Fetching e v Hv). discriminate.
  - apply (reachable_failed toLowerCase Fetching e v Hv). discriminate.
  - pose proof (consume_reachable (totalFeaturesOf meta) records _
                  (reachable_header toLowerCase meta v Hv)) as Hc.
    cbn [component showPOIList] in Hc.
    destruct failure as [e|]; cbn [caughtBy declaredTotal decodedRecords].
    + apply (reachable_failed toLowerCase _ e _ Hc). discriminate.
    + apply (reachable_loaded toLowerCase _ _ Hc).
  - apply (reachable_failed toLowerCase Fetching (ErrorObject NullBody) v Hv).
    discriminate.
  - apply (reachable_failed toLowerCase Fetching
             (ErrorObject (HttpError st)) v Hv). discriminate.
  - apply (reachable_failed toLowerCase Fetching
             (ErrorObject (HttpError st)) v Hv). discriminate.
  - apply (reachable_failed toLowerCase Fetching
             (ErrorObject (HttpError st)) v Hv). discriminate.
Qed.

(** X22. In every state the component can get into, also while the load
    goes on, [poi-pseudo] has no filter, [poi-heat] and [poi-text] have the
    filter of [poi-points], there is no filter before the load has ended,
    and a filter is the sentinel or a match on ids that are all ids of
    features of the store. *)
Theorem layers_filtered_alike (phase : LoadPhase) (v : View) :
  reachable toLowerCase phase v ->
  let c := component v in
  exists m,
    mapObj c = Some m
    /\ layerFilter m !! "poi-pseudo" = None
    /\ layerFilter m !! "poi-heat" = layerFilter m !! "poi-points"
    /\ layerFilter m !! "poi-text" = layerFilter m !! "poi-points"
    /\ (isDataLoaded c = false -> layerFilter m !! "poi-points" = None)
    /\ (phase <> Ended -> layerFilter m !! "poi-points" = None)
    /\ forall e, layerFilter m !! "poi-points" = Some e ->
         e = noResultFilter
         \/ exists ids, e = MatchFid ids
              /\ forall i, In i ids ->
                   exists f, In f (poiData c) /\ fidOf f = Some i.
Proof.
  intros Hr c. destruct (reachable_invariant phase v Hr)
    as [[m [Hm [_ [H2 [H3 [H4 [H5 _]]]]]]] Hphase].
  exists m. fold c in Hm, H5, Hphase. repeat (split; [assumption|]).
  assert (Hnot : isDataLoaded c = false -> layerFilter m !! "poi-points" = None).
  { intros Hl. destruct (layerFilter m !! "poi-points") as [[ids|name]|];
      [| |reflexivity]; destruct H5 as [H5 _]; congruence. }
  split; [exact Hnot|]. split.
  - intros Hp. apply Hnot. destruct (isDataLoaded c); [|reflexivity].
    destruct Hp. by apply Hphase.
  - intros e He. rewrite He in H5. destruct e as [ids|name].
    + right. exists ids. split; [reflexivity|].
      destruct H5 as [_ [_ Hsub]]. intros i Hi.
      apply list_elem_of_In in Hi.
      pose proof (elem_of_sublist _ _ _ Hi Hsub) as Hin.
      apply list_elem_of_omap in Hin as [f [Hf Hfi]].
      exists f. split; [by apply list_elem_of_In | exact Hfi].
    + left. tauto.
Qed.

(** X23. In every state the component can get into, also while the load
    goes on, the list holds min(99, [totalPOICount]) features, the badge
    shows '99+' exactly when the list is shorter than the count, and the
    number it shows otherwise is the length of the list. *)
Theorem list_and_badge (phase : LoadPhase) (v : View) :
  reachable toLowerCase phase v ->
  let c := component v in
  len (centerPOIs c) = Z.min 99 (totalPOICount c)
  /\ (badge c = Badge99Plus <-> len (centerPOIs c) < totalPOICount c)
  /\ forall n, badge c = BadgeCount n -> n = len (centerPOIs c).
Proof.
  intros Hr c. destruct (reachable_invariant phase v Hr)
    as [[m [_ [_ [_ [_ [_ [_ [_ [H _]]]]]]]]] _].
  fold c in H. split; [exact H|]. unfold badge.
  destruct (totalPOICount c >? 99) eqn:E.
  - split; [split; [lia | reflexivity] | discriminate].
  - split; [split; [discriminate | lia]|]. intros n [= <-]. lia.
Qed.


(** X25. In every state the component can get into, also while the load
    goes on, no category id is selected twice. *)
Theorem selection_without_duplicates (phase : LoadPhase) (v : View) :
  reachable toLowerCase phase v -> NoDup (selectedCategories (component v)).
Proof.
  intros Hr. destruct (reachable_invariant phase v Hr) as [[m H] _]. tauto.
Qed.

End Invariant.

(** ** The legacy script *)

Lemma filterThrowing_total {A} (p : A -> bool) (l : list A) :
  filterThrowing (fun x => Some (p x)) l = Some (List.filter p l).
Proof.
  induction l as [|x l IH]; simpl; [reflexivity|].
  rewrite IH. simpl. by destruct (p x).
Qed.

Lemma filterThrowing_None {A} (l : list A) :
  l <> [] -> filterThrowing (fun _ => @None bool) l = None.
Proof. by destruct l. Qed.

Lemma mapM_In {A B} (f : A -> option B) (l : list A) (k : list B) :
  mapM f l = Some k ->
  forall y, In y k -> exists x, In x l /\ f x = Some y.
Proof.
  intros H. apply mapM_Some_1 in H.
  induction H as [|x y l k Hxy _ IH]; intros z Hz; [destruct Hz|].
  destruct Hz as [<- | Hz].
  - exists x. split; [by left | exact Hxy].
  - destruct (IH z Hz) as [x' [Hin Hx']]. exists x'. split; [by right | exact Hx'].
Qed.

Lemma In_take {A} (n : nat) (l : list A) (x : A) :
  In x (take n l) -> In x l.
Proof.
  revert n. induction l as [|y l IH]; intros [|n]; simpl; try tauto.
  intros [<- | H]; [by left | right; eauto].
Qed.

Section GeocoderFacts.

Variable toLowerCase : jsstring -> jsstring.
Variable Position : Type.

Lemma forwardGeocode_query (features : list (GeoFeature Position))
    (query : jsstring) :
  forwardGeocode toLowerCase true features (Some query)
  = default []
      (mapM geocoderResult
         (take 10
            (List.filter
               (fun f =>
                  includes
                    (toLowerCase (default [] (properties (feature f) ≫= name_poi)))
                    (toLowerCase query)
                  || includes
                       (toLowerCase
                          (default [] (properties (feature f) ≫= title_source)))
                       (toLowerCase query))
               features))).
Proof.
  unfold forwardGeocode. simpl negb. cbv iota.
  destruct (len features =? 0) eqn:E.
  - apply Z.eqb_eq in E. destruct features; [reflexivity | discriminate].
  - simpl. unfold geocoderMatches. simpl.
    by rewrite filterThrowing_total.
Qed.

(** X26. The geocoder of the legacy script returns at most 10 results,
    none before the data is loaded and none for a missing query; each result
    is built from a feature of the store that has geometry and properties
    and whose name or title contains the query, case-insensitively, and its
    [place_name] is the name, [" - "] and the title. *)
Theorem forwardGeocode_sound (isPoiDataLoaded : bool)
    (features : list (GeoFeature Position)) (searchWord : option jsstring) :
  let results := forwardGeocode toLowerCase isPoiDataLoaded features searchWord in
  len results <= 10
  /\ (isPoiDataLoaded = false \/ searchWord = None -> results = [])
  /\ forall r, In r results ->
       exists f props query,
         In f features
         /\ searchWord = Some query
         /\ properties (feature f) = Some props
         /\ geometry f = Some (center r)
         /\ result_name_poi r = default [] (name_poi props)
         /\ result_title_source r = default [] (title_source props)
         /\ place_name r
            = result_name_poi r ++ js " - " ++ result_title_source r
         /\ (includes (toLowerCase (result_name_poi r)) (toLowerCase query)
             = true
             \/ includes (toLowerCase (result_title_source r))
                  (toLowerCase query) = true).
Proof.
  cbv zeta.
  destruct isPoiDataLoaded;
    [|split; [done | split; [done | intros r []]]].
  destruct searchWord as [query|].
  - rewrite forwardGeocode_query.
    set (matching := List.filter _ features).
    destruct (mapM geocoderResult (take 10 matching)) as [results|] eqn:E;
      simpl; [|split; [done | split; [done | intros r []]]].
    split; [|split].
    + apply length_mapM in E. rewrite length_take in E. unfold len. lia.
    + intros [|]; discriminate.
    + intros r Hr. destruct (mapM_In _ _ _ E r Hr) as [f [Hf Hres]].
      apply In_take in Hf. unfold matching in Hf.
      apply filter_In in Hf as [Hf Hmatch].
      unfold geocoderResult in Hres.
      destruct (geometry f) as [pos|] eqn:Hg; [|discriminate].
      destruct (properties (feature f)) as [props|] eqn:Hp; [|discriminate].
      simpl in Hres, Hmatch. injection Hres as <-. simpl.
      exists f, props, query. rewrite Hg, Hp.
      repeat split; try reflexivity; try assumption.
      apply orb_true_iff. exact Hmatch.
  - unfold forwardGeocode. simpl negb. cbv iota.
    destruct (len features =? 0) eqn:E; simpl;
      [split; [done | split; [done | intros r []]]|].
    rewrite filterThrowing_None
      by (destruct features; [discriminate | done]).
    simpl. split; [done | split; [done | intros r []]].
Qed.

(** X27. When every feature of the store has geometry and properties,
    the geocoder returns the first 10 matching features of the store in
    store order: min(10, number of matches) results. *)
Theorem forwardGeocode_first_ten (features : list (GeoFeature Position))
    (query : jsstring) :
  (forall f, In f features ->
     geometry f <> None /\ properties (feature f) <> None) ->
  let matches f :=
    includes (toLowerCase (default [] (properties (feature f) ≫= name_poi)))
             (toLowerCase query)
    || includes (toLowerCase (default [] (properties (feature f) ≫= title_source)))
                (toLowerCase query) in
  mapM geocoderResult (take 10 (List.filter matches features))
  = Some (forwardGeocode toLowerCase true features (Some query))
  /\ len (forwardGeocode toLowerCase true features (Some query))
     = Z.min 10 (len (List.filter matches features)).
Proof.
  intros Hwf matches. rewrite forwardGeocode_query. fold matches.
  destruct (mapM geocoderResult (take 10 (List.filter matches features)))
    as [results|] eqn:E.
  - simpl. split; [reflexivity|].
    apply length_mapM in E. rewrite length_take in E. unfold len. lia.
  - exfalso. apply mapM_None_1, Exists_exists in E as [f [Hf Hnone]].
    apply list_elem_of_In, In_take, filter_In in Hf as [Hf _].
    destruct (Hwf f Hf) as [Hg Hp]. unfold geocoderResult in Hnone.
    destruct (geometry f); [|done]. destruct (properties (feature f)); done.
Qed.

End GeocoderFacts.

(** X28. On a feature that has the four searched properties, the keyword
    condition of the legacy script does not fault and is the disjunction of
    the four case-sensitive tests; for a non-empty keyword without
    surrounding whitespace, keyword and properties being lower-case already,
    it agrees with the keyword test of the component. *)
Theorem legacy_keyword_agrees (toLowerCase : jsstring -> jsstring)
    (value : jsstring) (p : Properties) (name flag blog title : jsstring) :
  name_poi p = Some name -> flag_poi p = Some flag ->
  blog_source p = Some blog -> title_source p = Some title ->
  legacyMatchesKeyword value p
  = Some (includes name value || includes flag value
          || includes blog value || includes title value)
  /\ (value <> [] -> trim value = value -> toLowerCase value = value ->
      toLowerCase name = name -> toLowerCase flag = flag ->
      toLowerCase blog = blog -> toLowerCase title = title ->
      legacyMatchesKeyword value p
      = Some (keywordTest toLowerCase (normalizedKeyword toLowerCase value) p)).
Proof.
  intros Hn Hf Hb Ht.
  assert (E : legacyMatchesKeyword value p
              = Some (includes name value || includes flag value
                      || includes blog value || includes title value)).
  { unfold legacyMatchesKeyword. rewrite Hn, Hf, Hb, Ht. simpl.
    destruct (includes name value); [reflexivity|].
    destruct (includes flag value); [reflexivity|].
    destruct (includes blog value); reflexivity. }
  split; [exact E|].
  intros Hne Htrim Hv Hn' Hf' Hb' Ht'. rewrite E. f_equal.
  unfold normalizedKeyword. rewrite Hv, Htrim. unfold keywordTest.
  apply len_pos_iff in Hne. rewrite Hne.
  unfold matchesKeyword, searchTargets. rewrite Hn, Hf, Hb, Ht. simpl.
  rewrite Hn', Hf', Hb', Ht'. by rewrite orb_false_r, !orb_assoc.
Qed.


(** ** Examples *)

Lemma applyFilter_admits_matches_witness :
  let c := set_filterKeyword (js "cafe") (loaded sampleStore) in
  exists m',
    mapObj (applyFilter ascii_toLowerCase 0 [] c) = Some m'
    /\ layerFilter m' !! "poi-points" = Some (MatchFid [1])
    /\ passesLayer m' "poi-points" (poi 1 "Kashiwa Cafe") = true
    /\ passesLayer m' "poi-points" (poi 2 "Ramen") = false.
Proof.
  intros c.
  destruct (applyFilter_admits_matches ascii_toLowerCase 0 [] c
              (mkMapObj (Some PoiDataObject) [2] ∅) eq_refl eq_refl eq_refl)
    as [_ [m' [Hm' [_ H]]]].
  - intros f [<- | [<- | []]]; eexists; reflexivity.
  - repeat constructor; intros E; repeat (apply elem_of_cons in E as [E | E]);
      first [discriminate E | by apply not_elem_of_nil in E].
  - exists m'. split; [exact Hm'|]. split; [|split].
    + injection Hm' as <-. reflexivity.
    + apply H; [left; reflexivity | left; reflexivity | left; reflexivity].
    + destruct (passesLayer m' "poi-points" (poi 2 "Ramen")) eqn:E;
        [|reflexivity].
      apply H in E; [|right; left; reflexivity | left; reflexivity].
      destruct E as [E | []]. discriminate E.
Defined.

Lemma keyword_extension_narrows_witness :
  In (poi 1 "Kashiwa Cafe")
     (matchingFeatures ascii_toLowerCase 0
        (set_filterKeyword (js "caf") (loaded sampleStore))).
Proof.
  apply (keyword_extension_narrows ascii_toLowerCase 0 (loaded sampleStore)
           (js "caf") (js " Cafe ")).
  - reflexivity.
  - left. reflexivity.
Defined.

Lemma longer_period_widens_witness :
  let f := dated 1 "Cafe" 1699000000 in
  let c := set_poiData [f] initialComponent in
  In f (matchingFeatures ascii_toLowerCase 1700000000000
          (set_selectedPeriod 3 c))
  /\ In f (matchingFeatures ascii_toLowerCase 1700000000000
             (set_selectedPeriod 0 c)).
Proof.
  intros f c.
  apply (longer_period_widens ascii_toLowerCase 1700000000000 c 1 3 f);
    [lia | lia | left; reflexivity].
Defined.

Lemma undated_hidden_by_period_witness :
  ~ In (poi 1 "Ramen")
       (matchingFeatures ascii_toLowerCase 1700000000000
          (set_selectedPeriod 1 (set_poiData [poi 1 "Ramen"] initialComponent))).
Proof.
  apply (undated_hidden_by_period ascii_toLowerCase 1700000000000 _ _
           (mkProperties (Some 1) (Some (js "Ramen")) None None None None None
              None None None));
    [reflexivity | reflexivity | simpl; lia | lia].
Defined.

Lemma applyKeywordFilter_agrees_witness :
  let c := set_filterKeyword (js "cafe") (loaded sampleStore) in
  let m := mkMapObj (Some PoiDataObject) [2] ∅ in
  keywordMatchingFeatures ascii_toLowerCase c = [poi 1 "Kashiwa Cafe"]
  /\ mapObj (applyKeywordFilter ascii_toLowerCase m c)
     = mapObj (applyCombinedFilter ascii_toLowerCase 0 m c).
Proof.
  intros c m.
  destruct (applyKeywordFilter_agrees ascii_toLowerCase 0 m c) as [E1 [E2 _]].
  - vm_compute. discriminate.
  - reflexivity.
  - split; [rewrite E1; reflexivity | exact E2].
Defined.

Lemma navigatePopup_round_trip_witness :
  let features := [poi 1 "Cafe"; poi 2 "Ramen"; poi 3 "Park"] in
  let s := navigatePopup 1 (createMultiPOIPopup features) in
  navigatePopup (- (1)) (navigatePopup 1 s) = s.
Proof.
  intros features s.
  apply (navigatePopup_round_trip features 1 s).
  - apply carousel_step. apply carousel_created.
  - intros E. apply (f_equal currentPopupIndex) in E. discriminate E.
  - vm_compute. split; [discriminate | reflexivity].
Defined.

Lemma loading_screen_stays_witness :
  let r := Resolved (mkResponse true 200
                       (Some (Records None [poi 1 "Cafe"; poi 2 "Ramen"] None))) in
  isDataLoaded (snd (loadPOIData r mountedComponent)) = true
  /\ readyScheduled (dispatched (snd (loadPOIData r mountedComponent))) = false.
Proof.
  intros r. split; [reflexivity|].
  apply (loading_screen_stays r).
  - left. vm_compute. discriminate.
  - auto.
Defined.


Lemma screenProgress_near_loadingProgress_witness :
  progressOf 29 100 <= screenProgress (mkProgressEvent 29 100 None)
  <= progressOf 29 100 + 1.
Proof. apply (screenProgress_near_loadingProgress 29 100 None). lia. Defined.

Lemma reachable_sampleView : reachable ascii_toLowerCase Ended sampleView.
Proof.
  apply reachable_step.
  apply (reachable_loaded ascii_toLowerCase 2).
  apply (reachable_feature ascii_toLowerCase 2 (poi 2 "Ramen")).
  apply reachable_step.
  apply (reachable_feature ascii_toLowerCase 2 (poi 1 "Kashiwa Cafe")).
  apply (reachable_header ascii_toLowerCase (Some (mkHeaderMeta (Some 2)))).
  apply reachable_mounted.
Qed.

Lemma layers_filtered_alike_witness :
  exists m,
    mapObj (component sampleView) = Some m
    /\ layerFilter m !! "poi-pseudo" = None
    /\ layerFilter m !! "poi-heat" = layerFilter m !! "poi-points"
    /\ layerFilter m !! "poi-text" = layerFilter m !! "poi-points".
Proof.
  destruct (layers_filtered_alike ascii_toLowerCase Ended sampleView
              reachable_sampleView) as [m [H1 [H2 [H3 [H4 _]]]]].
  exists m. repeat split; assumption.
Defined.

Lemma list_and_badge_witness :
  len (centerPOIs (component sampleView))
  = Z.min 99 (totalPOICount (component sampleView)).
Proof.
  exact (proj1 (list_and_badge ascii_toLowerCase Ended sampleView
                  reachable_sampleView)).
Defined.


Lemma selection_without_duplicates_witness :
  NoDup (selectedCategories (component sampleView)).
Proof.
  exact (selection_without_duplicates ascii_toLowerCase Ended sampleView
           reachable_sampleView).
Defined.

Lemma forwardGeocode_first_ten_witness :
  let features := [mkGeoFeature (Some (139, 35)) (poi 1 "Kashiwa Cafe");
                   mkGeoFeature (Some (140, 36)) (poi 2 "Ramen")] in
  len (forwardGeocode ascii_toLowerCase true features (Some (js "CAFE"))) = 1.
Proof.
  intros features.
  destruct (forwardGeocode_first_ten ascii_toLowerCase (Z * Z) features
              (js "CAFE")) as [_ E].
  - intros f [<- | [<- | []]]; split; discriminate.
  - rewrite E. reflexivity.
Defined.

Lemma legacy_keyword_agrees_witness :
  let p := mkProperties (Some 1) (Some (js "kashiwa cafe")) (Some (js "a"))
             (Some (js "blog")) (Some (js "title")) None None None None None in
  legacyMatchesKeyword (js "cafe") p
  = Some (keywordTest ascii_toLowerCase
            (normalizedKeyword ascii_toLowerCase (js "cafe")) p).
Proof.
  intros p.
  apply (proj2 (legacy_keyword_agrees ascii_toLowerCase (js "cafe") p
                  (js "kashiwa cafe") (js "a") (js "blog") (js "title")
                  eq_refl eq_refl eq_refl eq_refl));
    first [discriminate | reflexivity].
Defined.
